(** * The light-show test server: a shallow embedding of [test-server.py]

    The program is one [BaseHTTPRequestHandler] subclass, [LightShowHandler],
    with the methods [do_OPTIONS], [do_POST] and [log_message].  This file
    embeds the handler together with the parts of the Python runtime its
    behaviour rests on (strict UTF-8 decoding, [json.loads], [dict.get],
    true division, [str()] formatting, [print], [json.dumps]) and proves the
    request/response contract of the [/light-control] endpoint.

    Conventions.
    - A Python [str] is a list of code points ([pystr]); [bytes] is a list of
      [Byte.byte].
    - A Python exception is a class together with the text [str(e)] yields.
    - What depends on the machine the server runs on (time zone, character
      database, recursion limit, ...) is gathered in the record [runtime];
      [cpython_utc] is the instance used for concrete requests. *)

From Stdlib Require Import Ascii String.
From Stdlib Require Import List NArith ZArith Bool Lia.
From Stdlib.Strings Require Import Byte.
From Stdlib Require Import SpecFloat.
From Stdlib Require DecimalN DecimalPos.
Import ListNotations.

Set Warnings "-register-all".

(* ================================================================= *)
(** ** Strings, bytes and number formatting *)

Module Py.

Definition codepoint := N.
Definition pystr := list codepoint.
Definition bytes := list byte.

Definition ord (a : ascii) : codepoint := N_of_ascii a.

(** [lit "abc"] is the Python string literal ['abc'] (ASCII only). *)
Fixpoint lit (s : string) : pystr :=
  match s with
  | EmptyString => []
  | String a r => ord a :: lit r
  end.

Definition quote : codepoint := 34%N.      (* the double quote *)
Definition apostrophe : codepoint := 39%N.
Definition backslash : codepoint := 92%N.
Definition newline : pystr := [10%N].

Fixpoint str_eqb (a b : pystr) : bool :=
  match a, b with
  | [], [] => true
  | x :: a', y :: b' => N.eqb x y && str_eqb a' b'
  | _, _ => false
  end.

(** [s.startswith(p)], returning what follows the prefix. *)
Fixpoint strip_prefix (p s : pystr) : option pystr :=
  match p, s with
  | [], _ => Some s
  | x :: p', y :: s' => if N.eqb x y then strip_prefix p' s' else None
  | _ :: _, [] => None
  end.

Definition strip_suffix (p s : pystr) : option pystr :=
  option_map (@rev _) (strip_prefix (rev p) (rev s)).

(** Decimal rendering, as [str(n)] of an [int]. *)
Definition digit_char (d : N) : codepoint := (48 + d)%N.

Fixpoint uint_chars (u : Decimal.uint) : pystr :=
  match u with
  | Decimal.Nil => []
  | Decimal.D0 r => digit_char 0 :: uint_chars r
  | Decimal.D1 r => digit_char 1 :: uint_chars r
  | Decimal.D2 r => digit_char 2 :: uint_chars r
  | Decimal.D3 r => digit_char 3 :: uint_chars r
  | Decimal.D4 r => digit_char 4 :: uint_chars r
  | Decimal.D5 r => digit_char 5 :: uint_chars r
  | Decimal.D6 r => digit_char 6 :: uint_chars r
  | Decimal.D7 r => digit_char 7 :: uint_chars r
  | Decimal.D8 r => digit_char 8 :: uint_chars r
  | Decimal.D9 r => digit_char 9 :: uint_chars r
  end.

Definition show_N (n : N) : pystr := uint_chars (N.to_uint n).
Definition show_nat (n : nat) : pystr := show_N (N.of_nat n).
Definition show_Z (z : Z) : pystr :=
  match z with
  | Z0 => lit "0"
  | Zpos p => show_N (Npos p)
  | Zneg p => ord "-" :: show_N (Npos p)
  end.

(** Lower-case hexadecimal with a fixed number of digits, as [%0kx]. *)
Definition hex_digit (d : N) : codepoint :=
  if (d <? 10)%N then (48 + d)%N else (87 + d)%N.

Fixpoint hex_fixed (k : nat) (n : N) : pystr :=
  match k with
  | O => []
  | S k' => hex_fixed k' (N.shiftr n 4) ++ [hex_digit (N.land n 15)]
  end.

(** Left padding with zeros to a width, as [%0kd] on a non-negative value. *)
Definition zero_pad (width : nat) (s : pystr) : pystr :=
  repeat (ord "0") (width - length s) ++ s.

Definition is_ascii (s : pystr) : bool := forallb (fun c => (c <? 128)%N) s.

Definition is_high_surrogate (c : codepoint) : bool :=
  ((55296 <=? c) && (c <=? 56319))%N.
Definition is_low_surrogate (c : codepoint) : bool :=
  ((56320 <=? c) && (c <=? 57343))%N.
Definition is_surrogate (c : codepoint) : bool :=
  ((55296 <=? c) && (c <=? 57343))%N.

End Py.

(* ================================================================= *)
(** ** Exceptions *)

Module Exc.
Import Py.

Inductive exn_class :=
| UnicodeDecodeError | UnicodeEncodeError | JSONDecodeError | RecursionError
| ValueError | TypeError | AttributeError | OverflowError | OSError
| MemoryError.

(** An exception: its class and the text [str(e)] evaluates to. *)
Record exn := Exn { exn_class_of : exn_class; exn_str : pystr }.

Inductive result (A : Type) :=
| Ok (a : A)
| Raise (e : exn).
Arguments Ok {A} a.
Arguments Raise {A} e.

Definition bind {A B} (r : result A) (k : A -> result B) : result B :=
  match r with
  | Ok a => k a
  | Raise e => Raise e
  end.

End Exc.

Declare Scope result_scope.
Delimit Scope result_scope with result.
Notation "x <- r ;; k" := (Exc.bind r (fun x => k))
  (at level 61, r at next level, right associativity) : result_scope.
Notation "' p <- r ;; k" := (Exc.bind r (fun x => let p := x in k))
  (at level 61, p pattern, r at next level, right associativity) : result_scope.

(* ================================================================= *)
(** ** [bytes.decode('utf-8')]: the strict UTF-8 decoder *)

Module Utf8.
Import Py Exc.

Definition bv (b : byte) : N := Byte.to_N b.

Definition is_continuation (b : byte) : bool :=
  ((128 <=? bv b) && (bv b <? 192))%N.

(** [str(e)] of the [UnicodeDecodeError] for the bytes [start, stop) of the
    input, the first of which is [b]. *)
Definition decode_error (b : byte) (start stop : nat) (reason : string) : exn :=
  Exn UnicodeDecodeError
    (if Nat.eqb stop (S start)
     then lit "'utf-8' codec can't decode byte 0x" ++ hex_fixed 2 (bv b)
          ++ lit " in position " ++ show_nat start ++ lit ": " ++ lit reason
     else lit "'utf-8' codec can't decode bytes in position " ++ show_nat start
          ++ lit "-" ++ show_nat (stop - 1) ++ lit ": " ++ lit reason).

Definition invalid_start b pos := decode_error b pos (pos + 1) "invalid start byte".
Definition invalid_continuation b pos (k : nat) :=
  decode_error b pos (pos + k) "invalid continuation byte".
Definition unexpected_end b pos (remaining : nat) :=
  decode_error b pos (pos + remaining) "unexpected end of data".

Definition cp2 (b0 b1 : byte) : codepoint :=
  N.lor (N.shiftl (N.land (bv b0) 31) 6) (N.land (bv b1) 63).
Definition cp3 (b0 b1 b2 : byte) : codepoint :=
  N.lor (N.shiftl (N.land (bv b0) 15) 12)
    (N.lor (N.shiftl (N.land (bv b1) 63) 6) (N.land (bv b2) 63)).
Definition cp4 (b0 b1 b2 b3 : byte) : codepoint :=
  N.lor (N.shiftl (N.land (bv b0) 7) 18)
    (N.lor (N.shiftl (N.land (bv b1) 63) 12)
       (N.lor (N.shiftl (N.land (bv b2) 63) 6) (N.land (bv b3) 63))).

(** The second byte of a three-byte sequence that would encode a value below
    U+0800 or a surrogate, and of a four-byte sequence that would encode a
    value below U+10000 or above U+10FFFF. *)
Definition bad_second3 (b0 b1 : byte) : bool :=
  negb (is_continuation b1)
  || (if (bv b1 <? 160)%N then (bv b0 =? 224)%N else (bv b0 =? 237)%N).
Definition bad_second4 (b0 b1 : byte) : bool :=
  negb (is_continuation b1)
  || (if (bv b1 <? 144)%N then (bv b0 =? 240)%N else (bv b0 =? 244)%N).

(** Decoding from byte offset [pos]; [bs] is what remains of the input. *)
Fixpoint decode_from (pos : nat) (bs : bytes) : result pystr :=
  match bs with
  | [] => Ok []
  | b0 :: r0 =>
    let n := length bs in
    if (bv b0 <? 128)%N then
      (s <- decode_from (pos + 1) r0 ;; Ok (bv b0 :: s))%result
    else if (bv b0 <? 194)%N then Raise (invalid_start b0 pos)
    else if (bv b0 <? 224)%N then
      match r0 with
      | [] => Raise (unexpected_end b0 pos n)
      | b1 :: r1 =>
        if negb (is_continuation b1) then Raise (invalid_continuation b0 pos 1)
        else (s <- decode_from (pos + 2) r1 ;; Ok (cp2 b0 b1 :: s))%result
      end
    else if (bv b0 <? 240)%N then
      match r0 with
      | [] => Raise (unexpected_end b0 pos n)
      | [b1] =>
        if bad_second3 b0 b1 then Raise (invalid_continuation b0 pos 1)
        else Raise (unexpected_end b0 pos n)
      | b1 :: b2 :: r2 =>
        if bad_second3 b0 b1 then Raise (invalid_continuation b0 pos 1)
        else if negb (is_continuation b2) then Raise (invalid_continuation b0 pos 2)
        else (s <- decode_from (pos + 3) r2 ;; Ok (cp3 b0 b1 b2 :: s))%result
      end
    else if (bv b0 <? 245)%N then
      match r0 with
      | [] => Raise (unexpected_end b0 pos n)
      | [b1] =>
        if bad_second4 b0 b1 then Raise (invalid_continuation b0 pos 1)
        else Raise (unexpected_end b0 pos n)
      | [b1; b2] =>
        if bad_second4 b0 b1 then Raise (invalid_continuation b0 pos 1)
        else if negb (is_continuation b2) then Raise (invalid_continuation b0 pos 2)
        else Raise (unexpected_end b0 pos n)
      | b1 :: b2 :: b3 :: r3 =>
        if bad_second4 b0 b1 then Raise (invalid_continuation b0 pos 1)
        else if negb (is_continuation b2) then Raise (invalid_continuation b0 pos 2)
        else if negb (is_continuation b3) then Raise (invalid_continuation b0 pos 3)
        else (s <- decode_from (pos + 4) r3 ;; Ok (cp4 b0 b1 b2 b3 :: s))%result
      end
    else Raise (invalid_start b0 pos)
  end.

Definition decode (bs : bytes) : result pystr := decode_from 0 bs.

(** [str.encode()] on text that is all ASCII, which is all [json.dumps]
    produces with its default [ensure_ascii]. *)
Definition byte_of_cp (c : codepoint) : byte :=
  match Byte.of_N c with Some b => b | None => x00 end.
Definition encode_ascii (s : pystr) : bytes := map byte_of_cp s.

End Utf8.

(* ================================================================= *)
(** ** Python values, [float] and the runtime *)

Module Value.
Import Py Exc.

(** A [float] is an IEEE 754 binary64 value. *)
Definition pyfloat := spec_float.
Definition prec : Z := 53.
Definition emax : Z := 1024.

(** The values [json.loads] builds.  A [dict] keeps its keys in insertion
    order, which is the order [repr] shows them in. *)
Inductive pyvalue :=
| PyNone
| PyBool (b : bool)
| PyInt (n : Z)
| PyFloat (f : pyfloat)
| PyStr (s : pystr)
| PyList (l : list pyvalue)
| PyDict (d : list (pystr * pyvalue)).

Definition pydict := list (pystr * pyvalue).

Fixpoint dict_lookup (d : pydict) (k : pystr) : option pyvalue :=
  match d with
  | [] => None
  | (k', v) :: d' => if str_eqb k' k then Some v else dict_lookup d' k
  end.

(** [d[k] = v]: an existing key keeps its place and takes the new value. *)
Fixpoint dict_set (d : pydict) (k : pystr) (v : pyvalue) : pydict :=
  match d with
  | [] => [(k, v)]
  | (k', v') :: d' =>
    if str_eqb k' k then (k', v) :: d' else (k', v') :: dict_set d' k v
  end.

(** [d.get(k, default)]. *)
Definition dict_get (d : pydict) (k : pystr) (default : pyvalue) : pyvalue :=
  match dict_lookup d k with
  | Some v => v
  | None => default
  end.

Definition type_name (v : pyvalue) : pystr :=
  match v with
  | PyNone => lit "NoneType"
  | PyBool _ => lit "bool"
  | PyInt _ => lit "int"
  | PyFloat _ => lit "float"
  | PyStr _ => lit "str"
  | PyList _ => lit "list"
  | PyDict _ => lit "dict"
  end.

(** [data.get]: only a [dict] has the attribute. *)
Definition getattr_get (data : pyvalue) : result pydict :=
  match data with
  | PyDict d => Ok d
  | _ => Raise (Exn AttributeError
                  (lit "'" ++ type_name data ++ lit "' object has no attribute 'get'"))
  end.

(** *** Floating point *)

(** The binary64 value nearest to [n / d] (ties to even), for [0 <= n] and
    [0 < d]; the sign is given apart so that a zero keeps it. *)
Definition float_of_ratio (neg : bool) (n d : Z) : pyfloat :=
  match n with
  | Z0 => S754_zero neg
  | _ =>
    let '(q, e, l) := SFdiv_core_binary prec emax n 0 d 0 in
    binary_round_aux prec emax neg q e l
  end.

(** [float(text)] for a decimal literal with digits [m] and exponent [e10]. *)
Definition float_of_decimal (neg : bool) (m : Z) (e10 : Z) : pyfloat :=
  if (0 <=? e10)%Z then float_of_ratio neg (m * 10 ^ e10) 1
  else float_of_ratio neg m (10 ^ (- e10)).

Definition float_of_Z (z : Z) : pyfloat :=
  float_of_ratio (z <? 0)%Z (Z.abs z) 1.

(** [a / b] on [int]s, for [0 < b]: correctly rounded, [OverflowError] when
    the quotient is beyond the range of a [float]. *)
Definition int_truediv (a b : Z) : result pyfloat :=
  match float_of_ratio (a <? 0)%Z (Z.abs a) b with
  | S754_infinity _ =>
    Raise (Exn OverflowError (lit "integer division result too large for a float"))
  | f => Ok f
  end.

(** [v / 1000], the division [do_POST] applies to the time stamp. *)
Definition truediv_1000 (v : pyvalue) : result pyfloat :=
  match v with
  | PyInt n => int_truediv n 1000
  | PyBool b => int_truediv (if b then 1 else 0) 1000
  | PyFloat f => Ok (SFdiv prec emax f (float_of_Z 1000))
  | _ => Raise (Exn TypeError
                  (lit "unsupported operand type(s) for /: '" ++ type_name v
                   ++ lit "' and 'int'"))
  end.

(** *** [datetime] *)

Record datetime := {
  dt_year : Z; dt_month : Z; dt_day : Z;
  dt_hour : Z; dt_minute : Z; dt_second : Z; dt_microsecond : Z
}.

Definition two_digits (z : Z) : pystr := zero_pad 2 (show_Z z).

(** [t.strftime('%H:%M:%S.%f')]. *)
Definition strftime_HMSf (t : datetime) : pystr :=
  two_digits (dt_hour t) ++ lit ":" ++ two_digits (dt_minute t) ++ lit ":"
  ++ two_digits (dt_second t) ++ lit "." ++ zero_pad 6 (show_Z (dt_microsecond t)).

(** [s[:-3]]. *)
Definition drop_last3 (s : pystr) : pystr := firstn (length s - 3) s.

(** What [datetime.fromtimestamp] raises: [ValueError] for a NaN,
    [OverflowError] for a value beyond the platform's [time_t], [OSError]
    when [localtime] fails, [ValueError] for a year outside 1..9999. *)
Inductive timestamp_error :=
| TsNaN
| TsTimeT
| TsLocaltime (errno : Z) (strerror : string)
| TsYear (year : Z).

Definition timestamp_exn (te : timestamp_error) : exn :=
  match te with
  | TsNaN => Exn ValueError (lit "Invalid value NaN (not a number)")
  | TsTimeT => Exn OverflowError (lit "timestamp out of range for platform time_t")
  | TsLocaltime errno strerror =>
    Exn OSError (lit "[Errno " ++ show_Z errno ++ lit "] " ++ lit strerror)
  | TsYear y => Exn ValueError (lit "year " ++ show_Z y ++ lit " is out of range")
  end.

(** *** The runtime

    What the handler's behaviour depends on besides the request. *)
Record runtime := {
  (** [datetime.fromtimestamp], in the process's local time zone *)
  rt_fromtimestamp : pyfloat -> timestamp_error + datetime;
  (** [repr] of a [float] *)
  rt_float_repr : pyfloat -> pystr;
  (** [str.isprintable] on one code point above U+007F *)
  rt_isprintable : codepoint -> bool;
  (** how deep [json.loads] may nest containers before [RecursionError] *)
  rt_parse_depth : nat;
  (** how deep [repr] may nest containers before [RecursionError] *)
  rt_repr_depth : nat;
  (** [sys.get_int_max_str_digits()]; 0 is no limit *)
  rt_int_max_str_digits : nat;
  (** whether a [bytes] object of a given size can be allocated *)
  rt_can_allocate : Z -> bool;
  (** [BaseHTTPRequestHandler.version_string()] *)
  rt_version_string : pystr;
  (** [error_message_format] filled in with a status code, a message and an
      explanation, encoded *)
  rt_error_page : Z -> pystr -> pystr -> bytes
}.

Definition fromtimestamp (rt : runtime) (x : pyfloat) : result datetime :=
  match rt_fromtimestamp rt x with
  | inl te => Raise (timestamp_exn te)
  | inr t => Ok t
  end.

End Value.

(* ================================================================= *)
(** ** [json.loads]

    The scanner follows [json.scanner] and [json.decoder]: [scan_once]
    dispatches on the first character, [scanstring] reads a string body,
    [match_number] a number, and the two loops [object_items] and
    [array_items] read the members of a container.  A position in the
    document is the number of characters before the remaining input. *)

Module Json.
Import Py Exc Value.

Inductive parse (A : Type) :=
| POk (a : A) (rest : pystr)
| PRaise (e : exn)
| PFuel.
Arguments POk {A} a rest.
Arguments PRaise {A} e.
Arguments PFuel {A}.

Definition is_ws (c : codepoint) : bool :=
  ((c =? 32) || (c =? 9) || (c =? 10) || (c =? 13))%N.

Fixpoint skip_ws (s : pystr) : pystr :=
  match s with
  | c :: r => if is_ws c then skip_ws r else s
  | [] => []
  end.

Definition is_digit (c : codepoint) : bool := ((48 <=? c) && (c <=? 57))%N.

Fixpoint span_digits (s : pystr) : pystr * pystr :=
  match s with
  | c :: r =>
    if is_digit c then let '(ds, r') := span_digits r in (c :: ds, r')
    else ([], s)
  | [] => ([], [])
  end.

Definition digits_value (ds : pystr) : Z :=
  fold_left (fun acc c => (10 * acc + Z.of_N (c - 48))%Z) ds 0%Z.

Definition hex_value (c : codepoint) : option N :=
  if ((48 <=? c) && (c <=? 57))%N then Some (c - 48)%N
  else if ((97 <=? c) && (c <=? 102))%N then Some (c - 87)%N
  else if ((65 <=? c) && (c <=? 70))%N then Some (c - 55)%N
  else None.

Definition hex4 (a b c d : codepoint) : option codepoint :=
  match hex_value a, hex_value b, hex_value c, hex_value d with
  | Some x, Some y, Some z, Some w => Some (4096 * x + 256 * y + 16 * z + w)%N
  | _, _, _, _ => None
  end.

Definition join_surrogates (hi lo : codepoint) : codepoint :=
  (65536 + N.lor (N.shiftl (N.land hi 1023) 10) (N.land lo 1023))%N.

(** The one-character escapes after a backslash. *)
Definition simple_escape (c : codepoint) : option codepoint :=
  if (c =? quote)%N then Some quote
  else if (c =? backslash)%N then Some backslash
  else if (c =? ord "/")%N then Some (ord "/")
  else if (c =? ord "b")%N then Some 8%N
  else if (c =? ord "f")%N then Some 12%N
  else if (c =? ord "n")%N then Some 10%N
  else if (c =? ord "r")%N then Some 13%N
  else if (c =? ord "t")%N then Some 9%N
  else None.

Definition pmap {A B} (f : A -> B) (p : parse A) : parse B :=
  match p with
  | POk a r => POk (f a) r
  | PRaise e => PRaise e
  | PFuel => PFuel
  end.

Section Scanner.
(** [sys.get_int_max_str_digits()] and the whole document *)
Variable max_digits : nat.
Variable doc : pystr.

Definition pos_of (s : pystr) : nat := length doc - length s.

(** [JSONDecodeError(msg, doc, pos)]: the message names the line, the
    column and the character offset. *)
Definition lineno (pos : nat) : nat :=
  S (count_occ N.eq_dec (firstn pos doc) 10%N).

Fixpoint since_newline (s : pystr) (n : nat) : nat :=
  match s with
  | [] => n
  | c :: r => since_newline r (if (c =? 10)%N then 0 else S n)
  end.

Definition colno (pos : nat) : nat := S (since_newline (firstn pos doc) 0).

Definition errmsg (msg : string) (pos : nat) : exn :=
  Exn JSONDecodeError
    (lit msg ++ lit ": line " ++ show_nat (lineno pos) ++ lit " column "
     ++ show_nat (colno pos) ++ lit " (char " ++ show_nat pos ++ lit ")").

Definition expecting_value {A} (s : pystr) : parse A :=
  PRaise (errmsg "Expecting value" (pos_of s)).

(** [scanstring]: [s] starts after the opening quote, which is at
    position [begin]. *)
Fixpoint scanstring (begin : nat) (s : pystr) : parse pystr :=
  match s with
  | [] => PRaise (errmsg "Unterminated string starting at" begin)
  | c :: r =>
    if (c =? quote)%N then POk [] r
    else if (c =? backslash)%N then
      match r with
      | [] => PRaise (errmsg "Unterminated string starting at" begin)
      | e :: r1 =>
        if (e =? ord "u")%N then
          match r1 with
          | h1 :: h2 :: h3 :: h4 :: r2 =>
            match hex4 h1 h2 h3 h4 with
            | None => PRaise (errmsg "Invalid \uXXXX escape" (pos_of r))
            | Some c1 =>
              if is_high_surrogate c1 && (6 <? length r2) then
                match r2 with
                | b :: u :: g1 :: g2 :: g3 :: g4 :: r3 =>
                  if ((b =? backslash) && (u =? ord "u"))%N then
                    match hex4 g1 g2 g3 g4 with
                    | None =>
                      PRaise (errmsg "Invalid \uXXXX escape" (S (pos_of r2)))
                    | Some c2 =>
                      if is_low_surrogate c2
                      then pmap (cons (join_surrogates c1 c2)) (scanstring begin r3)
                      else pmap (cons c1) (scanstring begin r2)
                    end
                  else pmap (cons c1) (scanstring begin r2)
                | _ => pmap (cons c1) (scanstring begin r2)
                end
              else pmap (cons c1) (scanstring begin r2)
            end
          | _ => PRaise (errmsg "Invalid \uXXXX escape" (pos_of r))
          end
        else
          match simple_escape e with
          | Some c' => pmap (cons c') (scanstring begin r1)
          | None => PRaise (errmsg "Invalid \escape" (pos_of s))
          end
      end
    else if (c <=? 31)%N then
      PRaise (errmsg "Invalid control character at" (pos_of s))
    else pmap (cons c) (scanstring begin r)
  end.

(** The integer text of a number: [PyLong_FromString], with the limit on
    the number of digits. *)
Definition parse_int (neg : bool) (ds : pystr) : parse pyvalue -> parse pyvalue :=
  fun ok =>
  if negb (Nat.eqb max_digits 0) && (max_digits <? length ds) then
    PRaise (Exn ValueError
      (lit "Exceeds the limit (" ++ show_nat max_digits
       ++ lit " digits) for integer string conversion: value has "
       ++ show_nat (length ds)
       ++ lit " digits; use sys.set_int_max_str_digits() to increase the limit"))
  else ok.

(** [_match_number]: an optional minus sign, then a zero or a run of
    digits not starting with zero, then an optional fraction (a dot and
    digits) and an optional exponent (e or E, a sign, digits); a dot or an
    exponent mark not followed by a digit is left unread. *)
Definition scan_sign (s : pystr) : bool * pystr :=
  match s with
  | c :: r => if (c =? ord "-")%N then (true, r) else (false, s)
  | [] => (false, s)
  end.

Definition scan_int (c : codepoint) (r : pystr) : pystr * pystr :=
  if (c =? ord "0")%N then ([c], r)
  else let '(ds, r') := span_digits r in (c :: ds, r').

Definition scan_frac (s : pystr) : pystr * pystr :=
  match s with
  | dot :: d :: _ =>
    if (dot =? ord ".")%N && is_digit d then span_digits (tl s) else ([], s)
  | _ => ([], s)
  end.

Definition scan_exp_sign (s : pystr) : bool * pystr :=
  match s with
  | sg :: d :: _ =>
    if (sg =? ord "-")%N then (true, tl s)
    else if (sg =? ord "+")%N then (false, tl s)
    else (false, s)
  | _ => (false, s)
  end.

Definition scan_exp (s : pystr) : option Z * pystr :=
  match s with
  | e :: r =>
    if ((e =? ord "e") || (e =? ord "E"))%N then
      let '(eneg, r') := scan_exp_sign r in
      match span_digits r' with
      | ([], _) => (None, s)
      | (eds, r'') =>
        (Some (if eneg then (- digits_value eds)%Z else digits_value eds), r'')
      end
    else (None, s)
  | [] => (None, s)
  end.

Definition match_number (s : pystr) : parse pyvalue :=
  let '(neg, s1) := scan_sign s in
  match s1 with
  | [] => expecting_value s
  | c :: r =>
    if negb (is_digit c) then expecting_value s
    else
      let '(int_ds, r1) := scan_int c r in
      let '(frac_ds, r2) := scan_frac r1 in
      let '(exp, r3) := scan_exp r2 in
      match frac_ds, exp with
      | [], None =>
        parse_int neg int_ds
          (POk (PyInt (if neg then (- digits_value int_ds)%Z
                       else digits_value int_ds)) r3)
      | _, _ =>
        let e := match exp with Some e => e | None => 0%Z end in
        POk (PyFloat (float_of_decimal neg (digits_value (int_ds ++ frac_ds))
                        (e - Z.of_nat (length frac_ds)))) r3
      end
  end.

Definition recursion_error (what : string) : exn :=
  Exn RecursionError
    (lit "maximum recursion depth exceeded while decoding a JSON "
     ++ lit what ++ lit " from a unicode string").

(** [scan_once] dispatches on the first character.  Entering a container
    takes one level of [depth]; [objects] and [arrays] read the members. *)
Definition scan_step
  (objects : nat -> pydict -> pystr -> parse pyvalue)
  (arrays : nat -> list pyvalue -> pystr -> parse pyvalue)
  (depth : nat) (s : pystr) : parse pyvalue :=
  match s with
  | [] => expecting_value s
  | c :: r =>
    if (c =? quote)%N then pmap PyStr (scanstring (pos_of s) r)
    else if (c =? ord "{")%N then
      match depth with
      | O => PRaise (recursion_error "object")
      | S d =>
        match skip_ws r with
        | c' :: r' =>
          if (c' =? ord "}")%N then POk (PyDict []) r'
          else objects d [] (skip_ws r)
        | [] => objects d [] (skip_ws r)
        end
      end
    else if (c =? ord "[")%N then
      match depth with
      | O => PRaise (recursion_error "array")
      | S d =>
        match skip_ws r with
        | c' :: r' =>
          if (c' =? ord "]")%N then POk (PyList []) r'
          else arrays d [] (skip_ws r)
        | [] => arrays d [] (skip_ws r)
        end
      end
    else
      match strip_prefix (lit "null") s, strip_prefix (lit "true") s,
            strip_prefix (lit "false") s, strip_prefix (lit "NaN") s,
            strip_prefix (lit "Infinity") s, strip_prefix (lit "-Infinity") s
      with
      | Some r', _, _, _, _, _ => POk PyNone r'
      | _, Some r', _, _, _, _ => POk (PyBool true) r'
      | _, _, Some r', _, _, _ => POk (PyBool false) r'
      | _, _, _, Some r', _, _ => POk (PyFloat S754_nan) r'
      | _, _, _, _, Some r', _ => POk (PyFloat (S754_infinity false)) r'
      | _, _, _, _, _, Some r' => POk (PyFloat (S754_infinity true)) r'
      | _, _, _, _, _, _ => match_number s
      end
  end.

(** One turn of the loop over the members of an object: [s] is at a key,
    [acc] holds the pairs read, [scan] reads the value and [more] is the
    next turn. *)
Definition object_step
  (scan : pystr -> parse pyvalue) (more : pydict -> pystr -> parse pyvalue)
  (acc : pydict) (s : pystr) : parse pyvalue :=
  match s with
  | c :: r =>
    if negb (c =? quote)%N then
      PRaise (errmsg "Expecting property name enclosed in double quotes" (pos_of s))
    else
      match scanstring (pos_of s) r with
      | PRaise e => PRaise e
      | PFuel => PFuel
      | POk key r1 =>
        match skip_ws r1 with
        | colon :: r2 =>
          if negb (colon =? ord ":")%N then
            PRaise (errmsg "Expecting ':' delimiter" (pos_of (skip_ws r1)))
          else
            match scan (skip_ws r2) with
            | PRaise e => PRaise e
            | PFuel => PFuel
            | POk v r3 =>
              let acc' := dict_set acc key v in
              match skip_ws r3 with
              | c' :: r4 =>
                if (c' =? ord "}")%N then POk (PyDict acc') r4
                else if (c' =? ord ",")%N then more acc' (skip_ws r4)
                else PRaise (errmsg "Expecting ',' delimiter" (pos_of (skip_ws r3)))
              | [] => PRaise (errmsg "Expecting ',' delimiter" (pos_of (skip_ws r3)))
              end
            end
        | [] => PRaise (errmsg "Expecting ':' delimiter" (pos_of (skip_ws r1)))
        end
      end
  | [] =>
    PRaise (errmsg "Expecting property name enclosed in double quotes" (pos_of s))
  end.

(** One turn of the loop over the elements of an array; [acc] holds the
    elements read, last first. *)
Definition array_step
  (scan : pystr -> parse pyvalue) (more : list pyvalue -> pystr -> parse pyvalue)
  (acc : list pyvalue) (s : pystr) : parse pyvalue :=
  match scan s with
  | PRaise e => PRaise e
  | PFuel => PFuel
  | POk v r1 =>
    match skip_ws r1 with
    | c' :: r2 =>
      if (c' =? ord "]")%N then POk (PyList (rev (v :: acc))) r2
      else if (c' =? ord ",")%N then more (v :: acc) (skip_ws r2)
      else PRaise (errmsg "Expecting ',' delimiter" (pos_of (skip_ws r1)))
    | [] => PRaise (errmsg "Expecting ',' delimiter" (pos_of (skip_ws r1)))
    end
  end.

(** The scanner.  [depth] is how many more containers may be entered;
    [steps] bounds the number of calls and is never used up when it exceeds
    the length of the input. *)
Fixpoint scan_once (steps depth : nat) (s : pystr) {struct steps}
  : parse pyvalue :=
  match steps with
  | O => PFuel
  | S n => scan_step (object_items n) (array_items n) depth s
  end
with object_items (steps depth : nat) (acc : pydict) (s : pystr) {struct steps}
  : parse pyvalue :=
  match steps with
  | O => PFuel
  | S n => object_step (scan_once n depth) (object_items n depth) acc s
  end
with array_items (steps depth : nat) (acc : list pyvalue) (s : pystr) {struct steps}
  : parse pyvalue :=
  match steps with
  | O => PFuel
  | S n => array_step (scan_once n depth) (array_items n depth) acc s
  end.

End Scanner.

(** [json.loads(s)] for a [str]: no byte-order mark, one value between
    optional white space, nothing after it. *)
Definition loads_steps (steps : nat) (rt : runtime) (s : pystr) : parse pyvalue :=
  match s with
  | 65279%N :: _ =>
    PRaise (errmsg s "Unexpected UTF-8 BOM (decode using utf-8-sig)" 0)
  | _ =>
    match scan_once (rt_int_max_str_digits rt) s steps (rt_parse_depth rt) (skip_ws s) with
    | POk v r =>
      match skip_ws r with
      | [] => POk v []
      | _ :: _ => PRaise (errmsg s "Extra data" (pos_of s (skip_ws r)))
      end
    | other => other
    end
  end.

End Json.

(* ================================================================= *)
(** ** [repr], [str] and [json.dumps] *)

Module Format.
Import Py Exc Value.

Fixpoint join (sep : pystr) (parts : list pystr) : pystr :=
  match parts with
  | [] => []
  | [p] => p
  | p :: rest => p ++ sep ++ join sep rest
  end.

Fixpoint map_result {A B} (f : A -> result B) (l : list A) : result (list B) :=
  match l with
  | [] => Ok []
  | a :: l' =>
    (b <- f a ;; bs <- map_result f l' ;; Ok (b :: bs))%result
  end.

Section Repr.
Variable rt : runtime.

(** [repr] of a [str]: single quotes unless the text has a single quote and
    no double quote; control and non-printable characters are escaped. *)
Definition repr_quote (s : pystr) : codepoint :=
  if existsb (N.eqb apostrophe) s && negb (existsb (N.eqb quote) s)
  then quote else apostrophe.

Definition repr_char (q c : codepoint) : pystr :=
  if ((c =? q) || (c =? backslash))%N then [backslash; c]
  else if (c =? 9)%N then lit "\t"
  else if (c =? 10)%N then lit "\n"
  else if (c =? 13)%N then lit "\r"
  else if ((c <? 32) || (c =? 127))%N then lit "\x" ++ hex_fixed 2 c
  else if (c <? 127)%N then [c]
  else if rt_isprintable rt c then [c]
  else if (c <=? 255)%N then lit "\x" ++ hex_fixed 2 c
  else if (c <=? 65535)%N then lit "\u" ++ hex_fixed 4 c
  else lit "\U" ++ hex_fixed 8 c.

Definition repr_str (s : pystr) : pystr :=
  let q := repr_quote s in
  q :: flat_map (repr_char q) s ++ [q].

(** [str(n)] of an [int], under the limit on the number of digits. *)
Definition int_str (n : Z) : result pystr :=
  let digits := length (show_Z (Z.abs n)) in
  if negb (Nat.eqb (rt_int_max_str_digits rt) 0)
     && (rt_int_max_str_digits rt <? digits)
  then Raise (Exn ValueError
         (lit "Exceeds the limit (" ++ show_nat (rt_int_max_str_digits rt)
          ++ lit " digits) for integer string conversion; "
          ++ lit "use sys.set_int_max_str_digits() to increase the limit"))
  else Ok (show_Z n).

Definition repr_recursion_error : exn :=
  Exn RecursionError
    (lit "maximum recursion depth exceeded while getting the repr of an object").

(** [repr(v)]; [depth] is how many nested calls remain. *)
Fixpoint py_repr (depth : nat) (v : pyvalue) {struct depth} : result pystr :=
  match depth with
  | O => Raise repr_recursion_error
  | S d =>
    match v with
    | PyNone => Ok (lit "None")
    | PyBool true => Ok (lit "True")
    | PyBool false => Ok (lit "False")
    | PyInt n => int_str n
    | PyFloat f => Ok (rt_float_repr rt f)
    | PyStr s => Ok (repr_str s)
    | PyList l =>
      (items <- map_result (py_repr d) l ;;
       Ok (lit "[" ++ join (lit ", ") items ++ lit "]"))%result
    | PyDict kvs =>
      (items <- map_result
                  (fun kv => r <- py_repr d (snd kv) ;;
                             Ok (repr_str (fst kv) ++ lit ": " ++ r)) kvs ;;
       Ok (lit "{" ++ join (lit ", ") items ++ lit "}"))%result
    end
  end.

(** [str(v)], which is what an f-string field [{v}] inserts: a [str] as it
    is, anything else as its [repr]. *)
Definition py_str (v : pyvalue) : result pystr :=
  match v with
  | PyStr s => Ok s
  | _ => py_repr (rt_repr_depth rt) v
  end.

End Repr.

(** [json.dumps] on a [str], with the default [ensure_ascii]: everything but
    printable ASCII is escaped, code points above U+FFFF as a surrogate
    pair. *)
Definition dumps_char (c : codepoint) : pystr :=
  if (c =? quote)%N then [backslash; quote]
  else if (c =? backslash)%N then [backslash; backslash]
  else if (c =? 10)%N then lit "\n"
  else if (c =? 13)%N then lit "\r"
  else if (c =? 9)%N then lit "\t"
  else if (c =? 8)%N then lit "\b"
  else if (c =? 12)%N then lit "\f"
  else if ((32 <=? c) && (c <=? 126))%N then [c]
  else if (c <? 65536)%N then lit "\u" ++ hex_fixed 4 c
  else
    let n := (c - 65536)%N in
    lit "\u" ++ hex_fixed 4 (N.lor 55296 (N.land (N.shiftr n 10) 1023))
    ++ lit "\u" ++ hex_fixed 4 (N.lor 56320 (N.land n 1023)).

Definition dumps_str (s : pystr) : pystr :=
  quote :: flat_map dumps_char s ++ [quote].

(** [json.dumps] on a [dict] from [str] to [str], with the default
    separators. *)
Definition dumps_dict (d : list (pystr * pystr)) : pystr :=
  lit "{"
  ++ join (lit ", ") (map (fun kv => dumps_str (fst kv) ++ lit ": " ++ dumps_str (snd kv)) d)
  ++ lit "}".

End Format.

(* ================================================================= *)
(** ** The handler's world: request, console and connection

    A request is what [BaseHTTPRequestHandler] has parsed when it calls a
    [do_*] method: the command, the path, the headers, and [rfile], here
    the bytes the client sends after the headers until it stops sending.
    The handler acts on the console ([sys.stdout], a UTF-8 stream with the
    strict error handler) and on the connection ([wfile]). *)

Module Http.
Import Py Exc Value Format.

Record request := {
  command : pystr;
  path : pystr;
  headers : list (pystr * pystr);
  rfile : bytes
}.

Inductive wire_event :=
| SendStatus (code : Z)
| SendHeader (name value : pystr)
| EndHeaders
| WriteBody (data : bytes).

(** [stdout]: the texts written, oldest first.  [wire]: what went to the
    connection, oldest first. *)
Record hstate := {
  stdout : list pystr;
  wire : list wire_event
}.

Definition M (A : Type) : Type := hstate -> result A * hstate.

Definition ret {A} (a : A) : M A := fun st => (Ok a, st).
Definition raise {A} (e : exn) : M A := fun st => (Raise e, st).
Definition mbind {A B} (m : M A) (k : A -> M B) : M B :=
  fun st =>
    match m st with
    | (Ok a, st') => k a st'
    | (Raise e, st') => (Raise e, st')
    end.
Definition lift {A} (r : result A) : M A := fun st => (r, st).

(** [try: body / except Exception as e: handler e].  What the body did
    before it raised stays done. *)
Definition try_except {A} (body : M A) (handler : exn -> M A) : M A :=
  fun st =>
    match body st with
    | (Ok a, st') => (Ok a, st')
    | (Raise e, st') => handler e st'
    end.

Definition emit (ev : wire_event) : M unit :=
  fun st => (Ok tt, {| stdout := stdout st; wire := wire st ++ [ev] |}).

(** The first run of surrogates in a text, as [(start, length, first)]. *)
Fixpoint surrogate_run_length (s : pystr) : nat :=
  match s with
  | c :: r => if is_surrogate c then S (surrogate_run_length r) else 0
  | [] => 0
  end.

Fixpoint find_surrogates (pos : nat) (s : pystr) : option (nat * nat * codepoint) :=
  match s with
  | [] => None
  | c :: r =>
    if is_surrogate c then Some (pos, S (surrogate_run_length r), c)
    else find_surrogates (S pos) r
  end.

Definition encode_error (start len : nat) (c : codepoint) : exn :=
  Exn UnicodeEncodeError
    (if Nat.eqb len 1
     then lit "'utf-8' codec can't encode character '\u" ++ hex_fixed 4 c
          ++ lit "' in position " ++ show_nat start ++ lit ": surrogates not allowed"
     else lit "'utf-8' codec can't encode characters in position " ++ show_nat start
          ++ lit "-" ++ show_nat (start + len - 1) ++ lit ": surrogates not allowed").

(** [print(text)]: the text is encoded, then written, then the newline. *)
Definition print (text : pystr) : M unit :=
  fun st =>
    match find_surrogates 0 text with
    | Some (start, len, c) => (Raise (encode_error start len c), st)
    | None => (Ok tt, {| stdout := stdout st ++ [text; newline]; wire := wire st |})
    end.

(** *** [BaseHTTPRequestHandler] *)

Section Base.
Variable rt : runtime.
(** [date_time_string()] at the time of the request *)
Variable date : pystr.
(** The subclass's [log_message] *)
Variable log_message : pystr -> M unit.

Definition send_header (name value : string) : M unit :=
  emit (SendHeader (lit name) (lit value)).

Definition send_header_str (name : string) (value : pystr) : M unit :=
  emit (SendHeader (lit name) value).

Definition end_headers : M unit := emit EndHeaders.

Definition wfile_write (data : bytes) : M unit := emit (WriteBody data).

Definition log_request (code : Z) : M unit :=
  log_message (lit "request " ++ show_Z code).

(** [send_response(code)]: the access log, the status line, and the
    [Server] and [Date] headers. *)
Definition send_response (code : Z) : M unit :=
  mbind (log_request code) (fun _ =>
  mbind (emit (SendStatus code)) (fun _ =>
  mbind (send_header_str "Server" (rt_version_string rt)) (fun _ =>
  send_header_str "Date" date))).

(** [send_error(code, message, explain)] for a code that carries a body. *)
Definition send_error (cmd : pystr) (code : Z) (message explain : pystr) : M unit :=
  let body := rt_error_page rt code message explain in
  mbind (log_message (lit "code " ++ show_Z code ++ lit ", message " ++ message)) (fun _ =>
  mbind (send_response code) (fun _ =>
  mbind (send_header "Connection" "close") (fun _ =>
  mbind (send_header "Content-Type" "text/html;charset=utf-8") (fun _ =>
  mbind (send_header_str "Content-Length" (show_nat (length body))) (fun _ =>
  mbind end_headers (fun _ =>
  if str_eqb cmd (lit "HEAD") then ret tt else wfile_write body)))))).

End Base.

(** [headers[name]]: the first header of that name, whatever its case. *)
Definition ascii_lower (c : codepoint) : codepoint :=
  if ((65 <=? c) && (c <=? 90))%N then (c + 32)%N else c.

Fixpoint headers_get (hs : list (pystr * pystr)) (name : pystr) : option pystr :=
  match hs with
  | [] => None
  | (k, v) :: hs' =>
    if str_eqb (map ascii_lower k) (map ascii_lower name) then Some v
    else headers_get hs' name
  end.

(** *** The response a client reads off the connection *)

Record response := {
  status : Z;
  resp_headers : list (pystr * pystr);
  body : bytes
}.

Fixpoint read_body (w : list wire_event) : option bytes :=
  match w with
  | [] => Some []
  | WriteBody b :: w' => option_map (app b) (read_body w')
  | _ => None
  end.

Fixpoint read_headers (w : list wire_event)
  : option (list (pystr * pystr) * bytes) :=
  match w with
  | SendHeader k v :: w' =>
    match read_headers w' with
    | Some (hs, b) => Some ((k, v) :: hs, b)
    | None => None
    end
  | EndHeaders :: w' => option_map (pair []) (read_body w')
  | _ => None
  end.

(** One well-formed response: a status line, headers, the blank line, the
    body. *)
Definition response_of (w : list wire_event) : option response :=
  match w with
  | SendStatus c :: w' =>
    match read_headers w' with
    | Some (hs, b) => Some {| status := c; resp_headers := hs; body := b |}
    | None => None
    end
  | _ => None
  end.

(** The cross-origin headers of a response. *)
Definition is_cors (h : pystr * pystr) : bool :=
  match strip_prefix (lit "access-control-") (map ascii_lower (fst h)) with
  | Some _ => true
  | None => false
  end.

Definition cors_headers (r : response) : list (pystr * pystr) :=
  filter is_cors (resp_headers r).

End Http.

Declare Scope handler_scope.
Delimit Scope handler_scope with handler.
Notation "x <- m ;; k" := (Http.mbind m (fun x => k))
  (at level 61, m at next level, right associativity) : handler_scope.
Notation "m ;; k" := (Http.mbind m (fun _ => k))
  (at level 61, right associativity) : handler_scope.

(* ================================================================= *)
(** ** [LightShowHandler] *)

Module LightShow.
Import Py Exc Value Format Http.

(** [json.loads]: enough steps for the whole document (entering a container
    and reading one of its members each take one). *)
Definition loads (rt : runtime) (s : pystr) : result pyvalue :=
  match Json.loads_steps (2 * length s + 2) rt s with
  | Json.POk v _ => Ok v
  | Json.PRaise e => Raise e
  | Json.PFuel => Raise (Json.recursion_error "value")
  end.

(** [int(x)] for what [headers[...]] yields: [None], or the header text.
    Around an optional sign and digits, with single underscores between
    digits, white space is allowed.  (Header text is Latin-1, where the
    decimal digits are the ASCII ones.) *)
Definition is_space (c : codepoint) : bool :=
  (((9 <=? c) && (c <=? 13)) || ((28 <=? c) && (c <=? 32)) || (c =? 133)
   || (c =? 160) || (c =? 5760) || ((8192 <=? c) && (c <=? 8202))
   || (c =? 8232) || (c =? 8233) || (c =? 8239) || (c =? 8287) || (c =? 12288))%N.

Fixpoint lstrip (s : pystr) : pystr :=
  match s with
  | c :: r => if is_space c then lstrip r else s
  | [] => []
  end.

Definition strip (s : pystr) : pystr := rev (lstrip (rev (lstrip s))).

(** Digits with single underscores between them; [prev_digit] says whether
    the character before was a digit. *)
Fixpoint int_digits (prev_digit : bool) (s : pystr) : option pystr :=
  match s with
  | [] => if prev_digit then Some [] else None
  | c :: r =>
    if Json.is_digit c then option_map (cons c) (int_digits true r)
    else if (c =? ord "_")%N && prev_digit then int_digits false r
    else None
  end.

Section Handler.
Variable rt : runtime.
Variable date : pystr.

Definition py_int (x : option pystr) : result Z :=
  match x with
  | None =>
    Raise (Exn TypeError
      (lit "int() argument must be a string, a bytes-like object or a real number, not 'NoneType'"))
  | Some s =>
    let body := strip s in
    let '(neg, unsigned) :=
      match body with
      | c :: r =>
        if (c =? ord "-")%N then (true, r)
        else if (c =? ord "+")%N then (false, r)
        else (false, body)
      | [] => (false, body)
      end in
    match int_digits false unsigned with
    | None =>
      Raise (Exn ValueError
        (lit "invalid literal for int() with base 10: " ++ firstn 200 (repr_str rt s)))
    | Some ds =>
      if negb (Nat.eqb (rt_int_max_str_digits rt) 0)
         && (rt_int_max_str_digits rt <? length ds)
      then Raise (Exn ValueError
        (lit "Exceeds the limit (" ++ show_nat (rt_int_max_str_digits rt)
         ++ lit " digits) for integer string conversion: value has "
         ++ show_nat (length ds)
         ++ lit " digits; use sys.set_int_max_str_digits() to increase the limit"))
      else Ok (if neg then (- Json.digits_value ds)%Z else Json.digits_value ds)
    end
  end.

(** [rfile.read(n)]: up to [n] bytes, all of them for -1. *)
Definition rfile_read (req : request) (n : Z) : result bytes :=
  if ((n <? - 2 ^ 63) || (2 ^ 63 - 1 <? n))%Z then
    Raise (Exn OverflowError (lit "cannot fit 'int' into an index-sized integer"))
  else if (n <? -1)%Z then
    Raise (Exn ValueError (lit "read length must be non-negative or -1"))
  else if (n =? -1)%Z then Ok (rfile req)
  else if rt_can_allocate rt n then Ok (firstn (Z.to_nat n) (rfile req))
  else Raise (Exn MemoryError []).

(** [data.get(key, default)] *)
Definition data_get (data : pyvalue) (key : string) (default : pyvalue)
  : result pyvalue :=
  (d <- getattr_get data ;; Ok (dict_get d (lit key) default))%result.

(** [log_message]: the default logging is suppressed. *)
Definition log_message (_ : pystr) : M unit := ret tt.

Definition send_response := Http.send_response rt date log_message.

Definition do_OPTIONS : M unit :=
  (send_response 200 ;;
   send_header "Access-Control-Allow-Origin" "*" ;;
   send_header "Access-Control-Allow-Methods" "GET, POST, OPTIONS" ;;
   send_header "Access-Control-Allow-Headers" "Content-Type" ;;
   end_headers)%handler.

(** The body of the [try] statement of [do_POST]. *)
Definition process (post_data : bytes) : M unit :=
  (text <- lift (Utf8.decode post_data) ;;
   data <- lift (loads rt text) ;;
   ts <- lift (data_get data "timestamp" (PyInt 0)) ;;
   seconds <- lift (truediv_1000 ts) ;;
   timestamp <- lift (fromtimestamp rt seconds) ;;
   print (newline ++ lit "[" ++ drop_last3 (strftime_HMSf timestamp)
          ++ lit "] Controller Input Received:") ;;
   controller_id <- lift (data_get data "controller_id" (PyStr (lit "Unknown"))) ;;
   controller_id <- lift (py_str rt controller_id) ;;
   print (lit "  Controller ID: " ++ controller_id) ;;
   action <- lift (data_get data "action" (PyStr (lit "Unknown"))) ;;
   action <- lift (py_str rt action) ;;
   print (lit "  Action: " ++ action) ;;
   send_response 200 ;;
   send_header "Content-type" "application/json" ;;
   send_header "Access-Control-Allow-Origin" "*" ;;
   end_headers ;;
   action <- lift (data_get data "action" (PyStr (lit "unknown"))) ;;
   action <- lift (py_str rt action) ;;
   let response :=
     [(lit "status", lit "success");
      (lit "message", lit "Received " ++ action ++ lit " command")] in
   wfile_write (Utf8.encode_ascii (dumps_dict response)))%handler.

(** The [except Exception as e] clause. *)
Definition on_error (e : exn) : M unit :=
  (print (lit "Error processing request: " ++ exn_str e) ;;
   send_response 400 ;;
   send_header "Content-type" "application/json" ;;
   send_header "Access-Control-Allow-Origin" "*" ;;
   end_headers ;;
   let response := [(lit "status", lit "error"); (lit "message", exn_str e)] in
   wfile_write (Utf8.encode_ascii (dumps_dict response)))%handler.

Definition do_POST (req : request) : M unit :=
  if str_eqb (path req) (lit "/light-control") then
    (content_length <- lift (py_int (headers_get (headers req) (lit "Content-Length"))) ;;
     post_data <- lift (rfile_read req content_length) ;;
     try_except (process post_data) on_error)%handler
  else
    (send_response 404 ;;
     end_headers)%handler.

(** [handle_one_request] of the base class: the method [do_<command>] when
    the handler has one, else the error 501. *)
Definition handle_one_request (req : request) : M unit :=
  if str_eqb (command req) (lit "OPTIONS") then do_OPTIONS
  else if str_eqb (command req) (lit "POST") then do_POST req
  else
    send_error rt date log_message (command req) 501
      (lit "Unsupported method (" ++ repr_str rt (command req) ++ lit ")")
      (lit "Server does not support this operation").

(** What a request comes to: a response on the connection, or an exception
    that leaves the handler, after which the server drops the connection. *)
Inductive outcome :=
| Responded (r : response)
| Uncaught (e : exn) (sent : list wire_event)
| Garbled (sent : list wire_event).

Definition outcome_of (r : result unit * hstate) : outcome :=
  match fst r with
  | Raise e => Uncaught e (wire (snd r))
  | Ok _ =>
    match response_of (wire (snd r)) with
    | Some resp => Responded resp
    | None => Garbled (wire (snd r))
    end
  end.

(** One request on a fresh connection, with the console as it stands. *)
Definition serve (req : request) (console : list pystr) : outcome * list pystr :=
  let r := handle_one_request req {| stdout := console; wire := [] |} in
  (outcome_of r, stdout (snd r)).

End Handler.

End LightShow.

(* ================================================================= *)
(** ** [run_server]

    [run_server] binds the server, prints a banner, serves until the
    operator interrupts it and then prints a farewell.  [HTTPServer] handles
    one connection at a time, and the handler speaks HTTP/1.0, so every
    connection carries one request.  What the world contributes is gathered
    in [world].  The interrupt is taken to arrive while the server waits for
    a connection. *)

Module Server.
Import Py Exc Value Format Http LightShow.

(** How [serve_forever] comes to an end: [KeyboardInterrupt], or another
    exception of the server loop itself. *)
Inductive ending :=
| CtrlC
| Failure (e : exn).

Record world := {
  (** [HTTPServer(('', port), LightShowHandler)]: binding the socket *)
  bind : Z -> result unit;
  (** the requests that arrive, each with the text of the clock then *)
  traffic : list (pystr * request);
  (** what ends the loop *)
  stop : ending
}.

(** What a run of the server leaves behind: how each request came out, the
    console, and the exception that left [run_server], if any. *)
Record run := {
  answers : list outcome;
  console : list pystr;
  raised : option exn
}.

Section Server.
Variable rt : runtime.

(** [httpd.serve_forever()] up to its end: the requests one after the
    other.  An exception that leaves a handler is caught by the server
    (which reports it on [stderr] and drops the connection), and the loop
    goes on. *)
Fixpoint serve_forever (requests : list (pystr * request)) (out : list pystr)
  : list outcome * list pystr :=
  match requests with
  | [] => ([], out)
  | (date, req) :: rest =>
    let '(o, out') := serve rt date req out in
    let '(os, out'') := serve_forever rest out' in
    (o :: os, out'')
  end.

(** The six [print] calls after the server is bound. *)
Definition print_banner (port : Z) : M unit :=
  (print (lit "Light Show Test Server") ;;
   print (lit "======================") ;;
   print (lit "Listening on port " ++ show_Z port) ;;
   print (lit "Endpoint: http://localhost:" ++ show_Z port ++ lit "/light-control") ;;
   print (newline ++ lit "Press Ctrl+C to stop the server") ;;
   print (newline ++ lit "Waiting for controller inputs..."))%handler.

(** [run_server(port)].  [httpd.shutdown()] returns at once: the loop has
    ended by then. *)
Definition run_server (w : world) (port : Z) (out : list pystr) : run :=
  match bind w port with
  | Raise e => {| answers := []; console := out; raised := Some e |}
  | Ok _ =>
    match print_banner port {| stdout := out; wire := [] |} with
    | (Raise e, st) =>
      {| answers := []; console := stdout st; raised := Some e |}
    | (Ok _, st) =>
      let '(os, out') := serve_forever (traffic w) (stdout st) in
      match stop w with
      | CtrlC =>
        match print (newline ++ newline ++ lit "Shutting down server...")
                {| stdout := out'; wire := [] |} with
        | (Raise e, st') =>
          {| answers := os; console := stdout st'; raised := Some e |}
        | (Ok _, st') =>
          {| answers := os; console := stdout st'; raised := None |}
        end
      | Failure e => {| answers := os; console := out'; raised := Some e |}
      end
    end
  end.

(** [if __name__ == '__main__': run_server()] *)
Definition main (w : world) : run := run_server w 8080 [].

End Server.

End Server.

(* ================================================================= *)
(** ** A reference runtime

    CPython 3.12 on 64-bit Linux with [TZ=UTC] and the default limits. *)

Module Reference.
Import Py Exc Value Format Http.

(** *** [datetime.fromtimestamp] in UTC *)

(** The integer a finite value truncates to, and the value as a fraction
    [num / 2^k]. *)
Definition float_trunc (m : positive) (e : Z) : Z :=
  if (0 <=? e)%Z then Z.shiftl (Zpos m) e else Z.shiftr (Zpos m) (- e).

(** [round(x)] to the nearest integer, ties to even, of [m * 2^e >= 0]. *)
Definition round_half_even (m : positive) (e : Z) : Z :=
  if (0 <=? e)%Z then Z.shiftl (Zpos m) e
  else
    let q := Z.shiftr (Zpos m) (- e) in
    let r := (Zpos m - Z.shiftl q (- e))%Z in
    let half := Z.shiftl 1 (- e - 1) in
    match (r ?= half)%Z with
    | Lt => q
    | Gt => (q + 1)%Z
    | Eq => if Z.even q then q else (q + 1)%Z
    end.

(** Seconds and microseconds of a time stamp, the microseconds rounded half
    to even and brought into [0, 10^6). *)
Definition split_timestamp (s : bool) (m : positive) (e : Z) : Z * Z :=
  let ip := float_trunc m e in
  let frac_m := (Zpos m - (if (0 <=? e)%Z then Zpos m else Z.shiftl ip (- e)))%Z in
  let us :=
    match frac_m with
    | Zpos fm =>
      match SFmul prec emax (S754_finite false fm e) (float_of_Z 1000000) with
      | S754_finite _ pm pe => round_half_even pm pe
      | _ => 0%Z
      end
    | _ => 0%Z
    end in
  let '(ip, us) := if (1000000 <=? us)%Z then (ip + 1, us - 1000000)%Z else (ip, us) in
  if s then
    if (us =? 0)%Z then (- ip, 0)%Z else (- ip - 1, 1000000 - us)%Z
  else (ip, us).

(** The civil date of a day number counted from 1970-01-01. *)
Definition civil_from_days (days : Z) : Z * Z * Z :=
  let z := (days + 719468)%Z in
  let era := (z / 146097)%Z in
  let doe := (z - era * 146097)%Z in
  let yoe := ((doe - doe / 1460 + doe / 36524 - doe / 146096) / 365)%Z in
  let doy := (doe - (365 * yoe + yoe / 4 - yoe / 100))%Z in
  let mp := ((5 * doy + 2) / 153)%Z in
  let d := (doy - (153 * mp + 2) / 5 + 1)%Z in
  let m := if (mp <? 10)%Z then (mp + 3)%Z else (mp - 9)%Z in
  let y := (yoe + era * 400 + (if (m <=? 2)%Z then 1 else 0))%Z in
  (y, m, d).

Definition fromtimestamp_utc (x : pyfloat) : timestamp_error + datetime :=
  match x with
  | S754_nan => inl TsNaN
  | S754_infinity _ => inl TsTimeT
  | _ =>
    let '(sec, us) :=
      match x with
      | S754_finite s m e => split_timestamp s m e
      | _ => (0, 0)%Z
      end in
    if ((sec <? - 2 ^ 63) || (2 ^ 63 - 1 <? sec))%Z then inl TsTimeT
    else
      let '(y, m, d) := civil_from_days (sec / 86400) in
      let tod := (sec mod 86400)%Z in
      if ((y - 1900 <? - 2 ^ 31) || (2 ^ 31 - 1 <? y - 1900))%Z then
        inl (TsLocaltime 75 "Value too large for defined data type")
      else if ((y <? 1) || (9999 <? y))%Z then inl (TsYear y)
      else
        inr {| dt_year := y; dt_month := m; dt_day := d;
               dt_hour := tod / 3600; dt_minute := (tod / 60) mod 60;
               dt_second := tod mod 60; dt_microsecond := us |}
  end.

(** *** [repr] of a [float]: the shortest digits that read back the same *)

Definition frac_of (m : positive) (e : Z) : Z * Z :=
  if (0 <=? e)%Z then (Z.shiftl (Zpos m) e, 1%Z) else (Zpos m, Z.shiftl 1 (- e)).

(** The largest [k] in [lo, lo + fuel) with [10^k <= n/d], searched upward. *)
Fixpoint log10_up (fuel : nat) (k n d : Z) : Z :=
  match fuel with
  | O => k
  | S f =>
    if (0 <=? k + 1)%Z
    then if (d * 10 ^ (k + 1) <=? n)%Z then log10_up f (k + 1) n d else k
    else if (d <=? n * 10 ^ (- (k + 1)))%Z then log10_up f (k + 1) n d else k
  end.

Definition floor_log10 (n d : Z) : Z := log10_up 700 (-400) n d.

(** With [digits] significant digits: the candidates just below and just
    above [n/d], as digit values at the power [k - digits + 1] of ten. *)
Definition candidates (n d k : Z) (digits : Z) : Z * Z * Z :=
  let p := (k - digits + 1)%Z in
  let lo := if (0 <=? p)%Z then (n / (d * 10 ^ p))%Z else (n * 10 ^ (- p) / d)%Z in
  (lo, (lo + 1)%Z, p).

(** Twice the distance between [c * 10^p] and [n/d], times [d * 10^max(0,-p)]. *)
Definition distance (n d c p : Z) : Z :=
  if (0 <=? p)%Z then Z.abs (c * 10 ^ p * d - n)
  else Z.abs (c * d - n * 10 ^ (- p)).

Fixpoint shortest_digits (fuel : nat) (x : pyfloat) (n d k digits : Z) : Z * Z :=
  let '(lo, hi, p) := candidates n d k digits in
  let ok c := SFeqb (float_of_decimal false c p) x in
  match fuel with
  | O => (lo, p)
  | S f =>
    match ok lo, ok hi with
    | true, true => if (distance n d hi p <? distance n d lo p)%Z then (hi, p) else (lo, p)
    | true, false => (lo, p)
    | false, true => (hi, p)
    | false, false => shortest_digits f x n d k (digits + 1)
    end
  end.

Fixpoint strip_zeros (fuel : nat) (c p : Z) : Z * Z :=
  match fuel with
  | O => (c, p)
  | S f => if (c mod 10 =? 0)%Z then strip_zeros f (c / 10) (p + 1) else (c, p)
  end.

Definition float_repr (x : pyfloat) : pystr :=
  match x with
  | S754_nan => lit "nan"
  | S754_infinity s => if s then lit "-inf" else lit "inf"
  | S754_zero s => if s then lit "-0.0" else lit "0.0"
  | S754_finite s m e =>
    let '(n, d) := frac_of m e in
    let k := floor_log10 n d in
    let '(c, p) := shortest_digits 17 (S754_finite false m e) n d k 1 in
    let '(c, p) := strip_zeros 20 c p in
    let ds := show_Z c in
    let nd := Z.of_nat (length ds) in
    let decpt := (nd + p)%Z in
    let body :=
      if ((decpt <=? -4) || (16 <? decpt))%Z then
        let ex := (decpt - 1)%Z in
        firstn 1 ds ++ (if (1 <? nd)%Z then lit "." ++ skipn 1 ds else [])
        ++ lit "e" ++ (if (ex <? 0)%Z then lit "-" else lit "+")
        ++ zero_pad 2 (show_Z (Z.abs ex))
      else if (decpt <=? 0)%Z then
        lit "0." ++ repeat (ord "0") (Z.to_nat (- decpt)) ++ ds
      else if (nd <=? decpt)%Z then
        ds ++ repeat (ord "0") (Z.to_nat (decpt - nd)) ++ lit ".0"
      else firstn (Z.to_nat decpt) ds ++ lit "." ++ skipn (Z.to_nat decpt) ds in
    (if s then lit "-" else []) ++ body
  end.

(** *** [str.isprintable]: the categories of the Latin-1 block, and above it
    the separators, format characters, surrogates and private use of the
    Basic Multilingual Plane (code points not assigned are taken as
    printable). *)
Definition isprintable (c : codepoint) : bool :=
  if (c <? 256)%N then ((161 <=? c) && negb (c =? 173))%N
  else negb (((5760 =? c) || ((8192 <=? c) && (c <=? 8207))
              || ((8232 <=? c) && (c <=? 8239)) || ((8287 <=? c) && (c <=? 8303))
              || (c =? 12288) || ((55296 <=? c) && (c <=? 63743))
              || (c =? 65279) || ((65529 <=? c) && (c <=? 65531))
              || (983040 <=? c))%N).

(** *** The page [send_error] sends *)
Definition html_escape (s : pystr) : pystr :=
  flat_map (fun c =>
    if (c =? ord "&")%N then lit "&amp;"
    else if (c =? ord "<")%N then lit "&lt;"
    else if (c =? ord ">")%N then lit "&gt;"
    else [c]) s.

Definition error_page (code : Z) (message explain : pystr) : bytes :=
  Utf8.encode_ascii
    (lit "<!DOCTYPE HTML>" ++ newline
     ++ lit "<html lang=" ++ [quote] ++ lit "en" ++ [quote] ++ lit ">" ++ newline
     ++ lit "    <head>" ++ newline
     ++ lit "        <meta charset=" ++ [quote] ++ lit "utf-8" ++ [quote] ++ lit ">" ++ newline
     ++ lit "        <title>Error response</title>" ++ newline
     ++ lit "    </head>" ++ newline
     ++ lit "    <body>" ++ newline
     ++ lit "        <h1>Error response</h1>" ++ newline
     ++ lit "        <p>Error code: " ++ show_Z code ++ lit "</p>" ++ newline
     ++ lit "        <p>Message: " ++ html_escape message ++ lit ".</p>" ++ newline
     ++ lit "        <p>Error code explanation: " ++ show_Z code ++ lit " - "
     ++ html_escape explain ++ lit ".</p>" ++ newline
     ++ lit "    </body>" ++ newline
     ++ lit "</html>" ++ newline).

Definition cpython_utc : runtime := {|
  rt_fromtimestamp := fromtimestamp_utc;
  rt_float_repr := float_repr;
  rt_isprintable := isprintable;
  rt_parse_depth := 990;
  rt_repr_depth := 990;
  rt_int_max_str_digits := 4300;
  rt_can_allocate := fun n => (n <=? 2 ^ 31)%Z;
  rt_version_string := lit "BaseHTTP/0.6 Python/3.12.0";
  rt_error_page := error_page
|}.

Definition some_date : pystr := lit "Tue, 14 Nov 2023 22:13:20 GMT".

End Reference.

(* ================================================================= *)
(** ** Concrete requests *)

Module Examples.
Import Py Exc Value Http.

(** The bytes of an ASCII text in which every apostrophe stands for a
    double quote. *)
Definition json_bytes (s : string) : bytes :=
  map (fun c => Utf8.byte_of_cp (if (c =? apostrophe)%N then quote else c)) (lit s).

(** A request with a [Content-Length] header that gives the length of the
    body. *)
Definition request_with_body (cmd url : string) (data : bytes) : request :=
  {| command := lit cmd; path := lit url;
     headers := [(lit "Host", lit "localhost:8080");
                 (lit "Content-Type", lit "application/json");
                 (lit "Content-Length", show_nat (length data))];
     rfile := data |}.

Definition post (data : bytes) : request :=
  request_with_body "POST" "/light-control" data.

(** A request without a [Content-Length] header. *)
Definition request_without_length (cmd url : string) : request :=
  {| command := lit cmd; path := lit url;
     headers := [(lit "Host", lit "localhost:8080")];
     rfile := [] |}.

Definition run (req : request) : LightShow.outcome :=
  fst (LightShow.serve Reference.cpython_utc Reference.some_date req []).

End Examples.

(* ================================================================= *)
(** ** The request as the handler sees it, and what it answers

    These definitions only name parts of [do_POST] so that the theorems can
    speak about them; [serve_post] below shows that they are what
    the handler does. *)

Module Contract.
Import Py Exc Value Format Http LightShow.

(** Lines 21-22 of the source: [int(self.headers['Content-Length'])] and
    [self.rfile.read(content_length)]. *)
Definition request_body (rt : runtime) (req : request) : result bytes :=
  (n <- py_int rt (headers_get (headers req) (lit "Content-Length")) ;;
   rfile_read rt req n)%result.

(** [json.loads(post_data.decode('utf-8'))] *)
Definition parse_body (rt : runtime) (post_data : bytes) : result pyvalue :=
  (text <- Utf8.decode post_data ;; loads rt text)%result.

(** What [sys.stdout] does with a text before writing it. *)
Definition encode_check (text : pystr) : result unit :=
  match find_surrogates 0 text with
  | Some (start, len, c) => Raise (encode_error start len c)
  | None => Ok tt
  end.

(** The text an f-string field [{data.get(key, default)}] inserts. *)
Definition field_text (rt : runtime) (data : pyvalue) (key default : string)
  : result pystr :=
  (v <- data_get data key (PyStr (lit default)) ;; py_str rt v)%result.

(** [datetime.fromtimestamp(data.get('timestamp', 0) / 1000)] *)
Definition event_time (rt : runtime) (data : pyvalue) : result datetime :=
  (ts <- data_get data "timestamp" (PyInt 0) ;;
   seconds <- truediv_1000 ts ;;
   fromtimestamp rt seconds)%result.

(** The [try] body without its effects: the action text of the success
    message, or the first exception. *)
Definition event_text (rt : runtime) (post_data : bytes) : result pystr :=
  (data <- parse_body rt post_data ;;
   timestamp <- event_time rt data ;;
   controller_id <- field_text rt data "controller_id" "Unknown" ;;
   _ <- encode_check (lit "  Controller ID: " ++ controller_id) ;;
   action <- field_text rt data "action" "Unknown" ;;
   _ <- encode_check (lit "  Action: " ++ action) ;;
   field_text rt data "action" "unknown")%result.

Definition json_response (rt : runtime) (date : pystr) (code : Z)
  (fields : list (pystr * pystr)) : response :=
  {| status := code;
     resp_headers := [(lit "Server", rt_version_string rt); (lit "Date", date);
                      (lit "Content-type", lit "application/json");
                      (lit "Access-Control-Allow-Origin", lit "*")];
     body := Utf8.encode_ascii (dumps_dict fields) |}.

Definition success_message (action : pystr) : pystr :=
  lit "Received " ++ action ++ lit " command".

Definition success_response rt date (action : pystr) : response :=
  json_response rt date 200
    [(lit "status", lit "success"); (lit "message", success_message action)].

Definition error_response rt date (e : exn) : response :=
  json_response rt date 400
    [(lit "status", lit "error"); (lit "message", exn_str e)].

(** What a JSON response puts on the connection. *)
Definition json_wire (rt : runtime) (date : pystr) (code : Z)
  (fields : list (pystr * pystr)) : list wire_event :=
  [SendStatus code;
   SendHeader (lit "Server") (rt_version_string rt);
   SendHeader (lit "Date") date;
   SendHeader (lit "Content-type") (lit "application/json");
   SendHeader (lit "Access-Control-Allow-Origin") (lit "*");
   EndHeaders;
   WriteBody (Utf8.encode_ascii (dumps_dict fields))].

Definition post_response rt date (post_data : bytes) : response :=
  match event_text rt post_data with
  | Ok action => success_response rt date action
  | Raise e => error_response rt date e
  end.

(** Every code point is below 256: such a text has no surrogate, so the
    console takes it. *)
Definition small (s : pystr) : Prop := Forall (fun c => (c < 256)%N) s.

(** The part of an outcome a client can tell apart from another: the status
    and the body of a response, or that there is none. *)
Definition observable (o : outcome) : option (Z * bytes) :=
  match o with
  | Responded r => Some (status r, body r)
  | _ => None
  end.

(** The console takes a text that has no surrogate in it. *)
Definition console_takes (s : pystr) : Prop := find_surrogates 0 s = None.

(** A value the handler can show on the console: [str()] gives a text and
    the console takes it. *)
Definition printable (rt : runtime) (v : pyvalue) : Prop :=
  exists s, py_str rt v = Ok s /\ console_takes s.

(** The time stamp of an event is absent, or a number that
    [datetime.fromtimestamp] converts once divided by 1000. *)
Definition timestamp_ok (rt : runtime) (d : pydict) : Prop :=
  exists t, event_time rt (PyDict d) = Ok t.

(** The JSON values that are neither numbers nor booleans. *)
Definition not_a_number (v : pyvalue) : Prop :=
  match v with
  | PyNone | PyStr _ | PyList _ | PyDict _ => True
  | PyBool _ | PyInt _ | PyFloat _ => False
  end.

(** A number (or boolean) that does not convert to a local time. *)
Definition out_of_range (rt : runtime) (v : pyvalue) : Prop :=
  exists e, Exc.bind (truediv_1000 v) (fromtimestamp rt) = Raise e.

(** [r] is what remains of [s] after a prefix. *)
Definition suffix_of (r s : pystr) : Prop := exists pre, s = pre ++ r.

(** A scanner result that, when it is a value, leaves a strictly shorter
    rest of the input [s]. *)
Definition consumes {A} (p : Json.parse A) (s : pystr) : Prop :=
  match p with
  | Json.POk _ r => suffix_of r s /\ length r < length s
  | _ => True
  end.

(** A text as the decoder yields it: code points of the Unicode range, none
    of them a surrogate. *)
Definition scalar_text (s : pystr) : Prop :=
  Forall (fun c => (c < 1114112)%N /\ is_surrogate c = false) s.

(** No high surrogate stands directly before a low one. *)
Fixpoint no_pair (s : pystr) : Prop :=
  match s with
  | [] => True
  | c :: r =>
    match r with
    | c' :: _ => is_high_surrogate c = true -> is_low_surrogate c' = false
    | [] => True
    end /\ no_pair r
  end.

(** A string as [json.loads] yields it: code points of the Unicode range,
    and a surrogate pair is always joined into one code point. *)
Definition json_text (s : pystr) : Prop :=
  Forall (fun c => (c < 1114112)%N) s /\ no_pair s.

(** [p] holds of the [n] numbers from [start] on. *)
Fixpoint all_from (n : nat) (start : N) (p : N -> bool) : bool :=
  match n with
  | O => true
  | S k => p start && all_from k (N.succ start) p
  end.

(** The [message] member a client reads out of a response, with
    [json.loads] on the decoded body. *)
Definition response_message (rt : runtime) (r : response) : option pystr :=
  match parse_body rt (body r) with
  | Ok (PyDict members) =>
    match dict_lookup members (lit "message") with
    | Some (PyStr m) => Some m
    | _ => None
    end
  | _ => None
  end.

(** Reading the action back out of a success message. *)
Definition extract_action (message : pystr) : option pystr :=
  match strip_prefix (lit "Received ") message with
  | Some rest => strip_suffix (lit " command") rest
  | None => None
  end.

End Contract.

(* ================================================================= *)
(** ** Properties of texts and values

    The predicates the proofs below are stated with. *)

Module Shape.
Import Py Exc Value Json Format Contract.

(** The text of an exception is plain when the console can print it and
    it is not empty. *)
Definition small_exn (e : exn) : Prop := small (exn_str e) /\ exn_str e <> [].

(** A result that, when it is an exception, has a plain text. *)
Definition small_result {A} (r : result A) : Prop :=
  match r with
  | Raise e => small_exn e
  | Ok _ => True
  end.

(** The same for what the scanner returns. *)
Definition small_parse {A} (p : Json.parse A) : Prop :=
  match p with
  | Json.PRaise e => small_exn e
  | _ => True
  end.

(** [hex4] on a list of four digits. *)
Definition hex4_list (l : pystr) : option codepoint :=
  match l with
  | [a; b; c; d] => hex4 a b c d
  | _ => None
  end.

(** What follows a high surrogate is not the escape of a low one. *)
Definition no_low_escape (R : pystr) : Prop :=
  match R with
  | b :: u :: g1 :: g2 :: g3 :: g4 :: _ =>
    if ((b =? backslash) && (u =? ord "u"))%N then
      match hex4 g1 g2 g3 g4 with
      | Some c2 => is_low_surrogate c2 = false
      | None => False
      end
    else True
  | _ => True
  end.

(** The text of one member, [key: value], before [rest]. *)
Definition member_text (k v rest : pystr) : pystr :=
  quote :: flat_map dumps_char k ++ quote :: ord ":" :: 32%N
  :: quote :: flat_map dumps_char v ++ quote :: rest.

(** [scan] reads a string as [scan_once] does. *)
Definition reads_strings (scan : pystr -> parse pyvalue) : Prop :=
  forall v rest, json_text v ->
    scan (quote :: flat_map dumps_char v ++ quote :: rest) = POk (PyStr v) rest.

(** Every code point is below 128. *)
Definition ascii_text (s : pystr) : Prop := Forall (fun c => (c < 128)%N) s.

(** A code point of the Unicode range that is not a surrogate. *)
Definition scalar (c : codepoint) : Prop :=
  (c < 1114112)%N /\ is_surrogate c = false.

(** The text starts with a low surrogate. *)
Definition head_low (x : pystr) : Prop :=
  match x with
  | c :: _ => is_low_surrogate c = true
  | [] => False
  end.

(** The text starts with the escape of a low surrogate. *)
Definition starts_low_escape (s : pystr) : Prop :=
  match s with
  | b :: u :: g1 :: g2 :: g3 :: g4 :: _ =>
    b = backslash /\ u = ord "u"
    /\ exists c, hex4 g1 g2 g3 g4 = Some c /\ is_low_surrogate c = true
  | _ => False
  end.

(** A string value is a [json_text]. *)
Definition value_ok (v : pyvalue) : Prop :=
  match v with
  | PyStr x => json_text x
  | _ => True
  end.

(** The string members of an object are [json_text]s. *)
Definition members_ok (d : pydict) : Prop :=
  Forall (fun kv => value_ok (snd kv)) d.

(** The strings at the top of a value, and those one level down in an
    object, are [json_text]s. *)
Definition top_ok (v : pyvalue) : Prop :=
  match v with
  | PyStr x => json_text x
  | PyDict d => members_ok d
  | _ => True
  end.

(** A value that is no container. *)
Definition flat (v : pyvalue) : Prop :=
  match v with
  | PyDict _ | PyList _ => False
  | _ => True
  end.

(** [P] holds of the value the scanner returns, when it returns one. *)
Definition yields (P : pyvalue -> Prop) (p : parse pyvalue) : Prop :=
  match p with
  | POk v _ => P v
  | _ => True
  end.

End Shape.

(* ================================================================= *)
(** ** What the handler writes on the console

    Names for the lines of [do_POST], for the theorems on the console. *)

Module Trace.
Import Py Exc Value Json Format Http LightShow Contract.

(** The first line of an event: a blank line, then the time in brackets. *)
Definition time_line (t : datetime) : pystr :=
  newline ++ lit "[" ++ drop_last3 (strftime_HMSf t)
  ++ lit "] Controller Input Received:".

Definition controller_line (cid : pystr) : pystr := lit "  Controller ID: " ++ cid.

Definition action_line (a : pystr) : pystr := lit "  Action: " ++ a.

(** The line of the [except] clause. *)
Definition error_line (e : exn) : pystr :=
  lit "Error processing request: " ++ exn_str e.

(** What the [try] body has printed when it ends or raises. *)
Definition event_trace (rt : runtime) (post_data : bytes) : list pystr :=
  match parse_body rt post_data with
  | Raise _ => []
  | Ok data =>
    match event_time rt data with
    | Raise _ => []
    | Ok t =>
      [time_line t; newline] ++
      match Exc.bind (field_text rt data "controller_id" "Unknown")
              (fun cid => Exc.bind (encode_check (controller_line cid))
                            (fun _ => Ok cid)) with
      | Raise _ => []
      | Ok cid =>
        [controller_line cid; newline] ++
        match Exc.bind (field_text rt data "action" "Unknown")
                (fun a => Exc.bind (encode_check (action_line a))
                            (fun _ => Ok a)) with
        | Raise _ => []
        | Ok a => [action_line a; newline]
        end
      end
    end
  end.

(** What a POST to [/light-control] whose body was read adds to the
    console. *)
Definition post_trace (rt : runtime) (post_data : bytes) : list pystr :=
  event_trace rt post_data ++
  match event_text rt post_data with
  | Ok _ => []
  | Raise e => [error_line e; newline]
  end.

(** A request that reaches the [try] statement. *)
Definition is_event (rt : runtime) (req : request) : Prop :=
  command req = lit "POST" /\ path req = lit "/light-control"
  /\ exists post_data, request_body rt req = Ok post_data.

(** The hour, minute, second and microsecond of a time are in range. *)
Definition clock_ok (t : datetime) : Prop :=
  (0 <= dt_hour t < 24 /\ 0 <= dt_minute t < 60 /\ 0 <= dt_second t < 60
   /\ 0 <= dt_microsecond t < 1000000)%Z.

End Trace.

(* ================================================================= *)
(** ** Facts about strings and texts *)

Module Facts.
Import Py Exc Value Format Http LightShow Contract Shape.

Lemma str_eqb_eq a b : str_eqb a b = true <-> a = b.
Proof.
  revert b; induction a as [|x a IH]; intros [|y b]; simpl; split;
    try congruence; try reflexivity.
  - intros H. apply andb_true_iff in H as [H1 H2].
    apply N.eqb_eq in H1. apply IH in H2. congruence.
  - intros H. injection H as -> ->.
    rewrite N.eqb_refl. simpl. now apply IH.
Qed.

Lemma str_eqb_refl a : str_eqb a a = true.
Proof. now apply str_eqb_eq. Qed.

Lemma str_eqb_neq a b : a <> b -> str_eqb a b = false.
Proof.
  intros H. destruct (str_eqb a b) eqn:E; [|reflexivity].
  apply str_eqb_eq in E. contradiction.
Qed.

Lemma strip_prefix_app p s : strip_prefix p (p ++ s) = Some s.
Proof. induction p as [|x p IH]; simpl; [reflexivity|]. now rewrite N.eqb_refl. Qed.

Lemma strip_suffix_app p s : strip_suffix p (s ++ p) = Some s.
Proof.
  unfold strip_suffix. rewrite rev_app_distr, strip_prefix_app. simpl.
  now rewrite rev_involutive.
Qed.

Lemma extract_success_message a : extract_action (success_message a) = Some a.
Proof.
  unfold extract_action, success_message.
  rewrite strip_prefix_app. apply strip_suffix_app.
Qed.

(** *** Small texts *)

Lemma small_nil : small [].
Proof. constructor. Qed.

Lemma small_cons c s : (c < 256)%N -> small s -> small (c :: s).
Proof. now constructor. Qed.

Lemma small_app a b : small a -> small b -> small (a ++ b).
Proof. intros; now apply Forall_app. Qed.

Lemma small_lit s : small (lit s).
Proof.
  induction s as [|a s IH]; simpl; constructor; auto.
  unfold ord. apply N_ascii_bounded.
Qed.

Lemma small_uint_chars u : small (uint_chars u).
Proof.
  induction u; simpl; constructor; auto; unfold digit_char; lia.
Qed.

Lemma small_show_N n : small (show_N n).
Proof. apply small_uint_chars. Qed.

Lemma small_show_nat n : small (show_nat n).
Proof. apply small_show_N. Qed.

Lemma small_show_Z z : small (show_Z z).
Proof.
  destruct z; simpl; [apply (small_lit "0") | apply small_show_N |].
  constructor; [reflexivity | apply small_show_N].
Qed.

Lemma hex_digit_small d : (hex_digit d < 256)%N \/ (16 <= d)%N.
Proof. unfold hex_digit. destruct (N.ltb_spec d 10); lia. Qed.

Lemma small_hex_fixed k n : small (hex_fixed k n).
Proof.
  revert n; induction k as [|k IH]; intros n; simpl; [constructor|].
  apply small_app; [apply IH|]. constructor; [|constructor].
  destruct (hex_digit_small (N.land n 15)) as [H|H]; [exact H|].
  exfalso. assert (N.land n 15 < 16)%N; [|lia].
  change 15%N with (N.ones 4). rewrite N.land_ones. now apply N.mod_lt.
Qed.

Lemma small_firstn n s : small s -> small (firstn n s).
Proof.
  unfold small. intros H. revert n.
  induction H as [|c s Hc _ IH]; intros [|n]; simpl; constructor; auto.
Qed.

Lemma small_repeat c n : (c < 256)%N -> small (repeat c n).
Proof. intros H. induction n; simpl; constructor; auto. Qed.

Lemma small_no_surrogates s : small s -> forall pos, find_surrogates pos s = None.
Proof.
  induction 1 as [|c s Hc _ IH]; intros pos; simpl; [reflexivity|].
  assert (is_surrogate c = false) as ->.
  { unfold is_surrogate. apply andb_false_iff. left. apply N.leb_gt. lia. }
  apply IH.
Qed.

Lemma small_encode_check s : small s -> encode_check s = Ok tt.
Proof. intros H. unfold encode_check. now rewrite small_no_surrogates. Qed.

Create HintDb small.
#[global] Hint Resolve small_nil small_cons small_app small_lit small_show_N
  small_show_nat small_show_Z small_hex_fixed small_firstn small_repeat : small.


(** *** The texts of the exceptions *)

Ltac prove_small :=
  cbn [exn_str];
  repeat first
    [ exact I | assumption | apply small_nil | apply small_lit
    | apply small_show_nat | apply small_show_Z | apply small_show_N
    | apply small_hex_fixed | apply small_app | apply small_firstn ].

Ltac prove_nonempty :=
  let H := fresh in
  intro H; cbn in H;
  first [ discriminate H
        | apply app_eq_nil in H; destruct H as [_ H]; cbn in H; discriminate H ].

Ltac exn_ok := split; [prove_small | prove_nonempty].

Lemma small_result_bind {A B} (r : result A) (k : A -> result B) :
  small_result r -> (forall a, r = Ok a -> small_result (k a)) ->
  small_result (Exc.bind r k).
Proof. destruct r; simpl; auto. Qed.

Lemma small_decode_error b start stop reason :
  small_exn (Utf8.decode_error b start stop reason).
Proof.
  unfold small_exn, Utf8.decode_error.
  destruct (Nat.eqb stop (S start)); exn_ok.
Qed.

Lemma small_decode_from bs : forall pos, small_result (Utf8.decode_from pos bs).
Proof.
  assert (forall n bs, length bs < n -> forall pos,
             small_result (Utf8.decode_from pos bs)) as H.
  { induction n as [|n IH]; intros l Hl pos; [lia|].
    destruct l as [|b0 r0]; [exact I|].
    cbn [Utf8.decode_from].
    repeat match goal with
    | |- small_result (if ?c then _ else _) => destruct c
    | |- small_result (match ?l with [] => _ | _ :: _ => _ end) => destruct l
    | |- small_result (Raise _) =>
        apply small_decode_error
    | |- small_result (Exc.bind _ _) =>
        apply small_result_bind; [apply IH; simpl in *; lia | intros; exact I]
    end. }
  intros pos. apply (H (S (length bs))). lia.
Qed.

Lemma small_type_name v : small (type_name v).
Proof. destruct v; apply small_lit. Qed.

Lemma small_getattr_get v : small_result (getattr_get v).
Proof.
  destruct v; cbn [getattr_get small_result]; try exact I; unfold small_exn;
    (split; [prove_small; apply small_type_name | prove_nonempty]).
Qed.

Lemma small_data_get v k d : small_result (data_get v k d).
Proof.
  unfold data_get. apply small_result_bind; [apply small_getattr_get|].
  intros; exact I.
Qed.

Lemma small_truediv_1000 v : small_result (truediv_1000 v).
Proof.
  assert (forall a b, small_result (int_truediv a b)) as Hdiv.
  { intros a b. unfold int_truediv.
    destruct (float_of_ratio _ _ _); cbn [small_result]; try exact I.
    unfold small_exn; exn_ok. }
  destruct v; cbn [truediv_1000 small_result]; try apply Hdiv; try exact I;
    unfold small_exn; (split; [prove_small; apply small_type_name | prove_nonempty]).
Qed.

Lemma small_fromtimestamp rt x : small_result (fromtimestamp rt x).
Proof.
  unfold fromtimestamp. destruct (rt_fromtimestamp rt x) as [te|t]; [|exact I].
  destruct te; unfold small_exn, timestamp_exn; exn_ok.
Qed.

Lemma small_encode_error start len c : small_exn (encode_error start len c).
Proof.
  unfold small_exn, encode_error.
  destruct (Nat.eqb len 1); exn_ok.
Qed.

Lemma small_encode_check_result s : small_result (encode_check s).
Proof.
  unfold encode_check. destruct (find_surrogates 0 s) as [[[a b] c]|]; simpl;
    [apply small_encode_error | exact I].
Qed.

Lemma small_map_result {A B} (f : A -> result B) l :
  (forall a, small_result (f a)) -> small_result (map_result f l).
Proof.
  intros Hf. induction l as [|a l IH]; simpl; [exact I|].
  apply small_result_bind; [apply Hf|]. intros b _.
  apply small_result_bind; [apply IH|]. intros; exact I.
Qed.

Lemma small_py_repr rt depth : forall v, small_result (py_repr rt depth v).
Proof.
  induction depth as [|d IH]; intros v; simpl.
  - unfold small_exn, repr_recursion_error; exn_ok.
  - destruct v as [| [|] | n | f | s | l | kvs]; try exact I.
    + unfold int_str.
      destruct (_ && _); [|exact I]. unfold small_result, small_exn; exn_ok.
    + apply small_result_bind; [now apply small_map_result | intros; exact I].
    + apply small_result_bind; [|intros; exact I].
      apply small_map_result. intros kv.
      apply small_result_bind; [apply IH | intros; exact I].
Qed.

Lemma small_py_str rt v : small_result (py_str rt v).
Proof. destruct v; simpl; try exact I; apply (small_py_repr rt _ _). Qed.

Lemma small_field_text rt v k d : small_result (field_text rt v k d).
Proof.
  unfold field_text. apply small_result_bind; [apply small_data_get|].
  intros; apply small_py_str.
Qed.

Lemma small_event_time rt v : small_result (event_time rt v).
Proof.
  unfold event_time. apply small_result_bind; [apply small_data_get|]. intros.
  apply small_result_bind; [apply small_truediv_1000|]. intros.
  apply small_fromtimestamp.
Qed.


(** *** The exceptions of [json.loads] *)

Lemma small_errmsg doc msg pos : small_exn (Json.errmsg doc msg pos).
Proof. unfold small_exn, Json.errmsg. exn_ok. Qed.

Lemma small_recursion_error what : small_exn (Json.recursion_error what).
Proof. unfold small_exn, Json.recursion_error. exn_ok. Qed.

Lemma small_pmap {A B} (f : A -> B) p : small_parse p -> small_parse (Json.pmap f p).
Proof. destruct p; simpl; auto. Qed.

Ltac small_parse_step IH :=
  match goal with
  | |- small_parse (if ?c then _ else _) => destruct c
  | |- small_parse (match ?l with [] => _ | _ :: _ => _ end) => destruct l
  | |- small_parse (match ?o with Some _ => _ | None => _ end) => destruct o
  | |- small_parse (Json.PRaise (Json.errmsg _ _ _)) => apply small_errmsg
  | |- small_parse (Json.PRaise (Json.recursion_error _)) => apply small_recursion_error
  | |- small_parse (Json.expecting_value _ _) => apply small_errmsg
  | |- small_parse (Json.POk _ _) => exact I
  | |- small_parse (Json.pmap _ _) => apply small_pmap; apply IH; simpl in *; lia
  end.

Lemma small_scanstring doc begin s : small_parse (Json.scanstring doc begin s).
Proof.
  assert (forall n s, length s < n -> small_parse (Json.scanstring doc begin s)) as H.
  { induction n as [|n IH]; intros l Hl; [lia|].
    destruct l as [|c r]; cbn [Json.scanstring]; repeat small_parse_step IH. }
  apply (H (S (length s))). lia.
Qed.

Lemma small_parse_int limit neg ds p :
  small_parse p -> small_parse (Json.parse_int limit neg ds p).
Proof.
  intros Hp. unfold Json.parse_int. destruct (_ && _); [|exact Hp].
  unfold small_parse, small_exn. exn_ok.
Qed.

Lemma small_match_number limit doc s : small_parse (Json.match_number limit doc s).
Proof.
  unfold Json.match_number.
  repeat match goal with
  | |- small_parse (let '(_, _) := ?x in _) => destruct x
  | |- small_parse (match ?x with Some _ => _ | None => _ end) => destruct x
  | |- small_parse (match ?x with [] => _ | _ :: _ => _ end) => destruct x
  | |- small_parse (if ?c then _ else _) => destruct c
  | |- small_parse (Json.expecting_value _ _) => apply small_errmsg
  | |- small_parse (Json.parse_int _ _ _ _) => apply small_parse_int
  | |- small_parse (Json.POk _ _) => exact I
  end.
Qed.

Ltac small_scan_step :=
  match goal with
  | |- small_parse (if ?c then _ else _) => destruct c
  | |- small_parse (match ?l with [] => _ | _ :: _ => _ end) => destruct l
  | |- small_parse (match ?n with O => _ | S _ => _ end) => destruct n
  | |- small_parse (match ?o with Some _ => _ | None => _ end) => destruct o
  | |- small_parse (Json.PRaise (Json.errmsg _ _ _)) => apply small_errmsg
  | |- small_parse (Json.PRaise (Json.recursion_error _)) => apply small_recursion_error
  | |- small_parse (Json.expecting_value _ _) => apply small_errmsg
  | |- small_parse (Json.POk _ _) => exact I
  | |- small_parse Json.PFuel => exact I
  | |- small_parse (Json.pmap _ _) => apply small_pmap; apply small_scanstring
  | |- small_parse (Json.match_number _ _ _) => apply small_match_number
  | H : forall _, small_parse (?f _) |- small_parse (?f _) => apply H
  | H : forall _ _, small_parse (?f _ _) |- small_parse (?f _ _) => apply H
  | H : forall _ _ _, small_parse (?f _ _ _) |- small_parse (?f _ _ _) => apply H
  | |- small_parse (match Json.scanstring ?d ?b ?s with _ => _ end) =>
      let H := fresh "H" in
      pose proof (small_scanstring d b s) as H;
      destruct (Json.scanstring d b s); [|exact H|exact I]
  | Hs : forall _, small_parse (?f _) |- small_parse (match ?f ?s with _ => _ end) =>
      let H := fresh "H" in
      pose proof (Hs s) as H; destruct (f s); [|exact H|exact I]
  end.

Lemma small_scan_step limit doc objects arrays depth s :
  (forall d acc l, small_parse (objects d acc l)) ->
  (forall d acc l, small_parse (arrays d acc l)) ->
  small_parse (Json.scan_step limit doc objects arrays depth s).
Proof. intros Ho Ha. unfold Json.scan_step. repeat small_scan_step. Qed.

Lemma small_object_step doc scan more acc s :
  (forall l, small_parse (scan l)) ->
  (forall a l, small_parse (more a l)) ->
  small_parse (Json.object_step doc scan more acc s).
Proof. intros Hs Hm. unfold Json.object_step. repeat small_scan_step. Qed.

Lemma small_array_step doc scan more acc s :
  (forall l, small_parse (scan l)) ->
  (forall a l, small_parse (more a l)) ->
  small_parse (Json.array_step doc scan more acc s).
Proof. intros Hs Hm. unfold Json.array_step. repeat small_scan_step. Qed.

Lemma small_scan limit doc steps :
  (forall depth s, small_parse (Json.scan_once limit doc steps depth s))
  /\ (forall depth acc s, small_parse (Json.object_items limit doc steps depth acc s))
  /\ (forall depth acc s, small_parse (Json.array_items limit doc steps depth acc s)).
Proof.
  induction steps as [|n (IHs & IHo & IHa)].
  - repeat split; intros; exact I.
  - repeat split; intros; cbn [Json.scan_once Json.object_items Json.array_items].
    + apply small_scan_step; auto.
    + apply small_object_step; auto.
    + apply small_array_step; auto.
Qed.

Lemma small_loads rt s : small_result (loads rt s).
Proof.
  unfold loads, Json.loads_steps.
  assert (forall l, small_parse
    (match Json.scan_once (rt_int_max_str_digits rt) s (2 * length s + 2)
             (rt_parse_depth rt) l with
     | Json.POk v r =>
       match Json.skip_ws r with
       | [] => Json.POk v []
       | _ :: _ => Json.PRaise (Json.errmsg s "Extra data" (Json.pos_of s (Json.skip_ws r)))
       end
     | other => other
     end)) as H.
  { intros l.
    pose proof (proj1 (small_scan (rt_int_max_str_digits rt) s (2 * length s + 2))
                  (rt_parse_depth rt) l) as Hs.
    destruct (Json.scan_once _ _ _ _ _); [|exact Hs|exact I].
    destruct (Json.skip_ws rest); [exact I | apply small_errmsg]. }
  assert (forall p : Json.parse pyvalue, small_parse p ->
    small_result match p with
                 | Json.POk v _ => Ok v
                 | Json.PRaise e => Raise e
                 | Json.PFuel => Raise (Json.recursion_error "value")
                 end) as Hconv.
  { intros [v r|e|]; simpl; auto. intros _. apply small_recursion_error. }
  apply Hconv.
  destruct s as [|c s']; [apply H|].
  destruct c as [|p]; [apply H|].
  repeat (destruct p as [p|p|]; try apply H).
  apply small_errmsg.
Qed.

Lemma small_parse_body rt post_data : small_result (parse_body rt post_data).
Proof.
  unfold parse_body. apply small_result_bind; [apply small_decode_from|].
  intros; apply small_loads.
Qed.

(** Whatever the [try] body raises, the console can print. *)
Lemma small_event_text rt post_data : small_result (event_text rt post_data).
Proof.
  unfold event_text.
  repeat (apply small_result_bind;
          [first [ apply small_parse_body | apply small_event_time
                 | apply small_field_text | apply small_encode_check_result ]
          | intros ]).
  apply small_field_text.
Qed.


(** *** The handler monad *)

Lemma mbind_lift {A B} (r : result A) (k : A -> M B) st :
  mbind (lift r) k st = match r with Ok a => k a st | Raise e => (Raise e, st) end.
Proof. unfold mbind, lift. now destruct r. Qed.

Lemma mbind_emit {B} ev (k : unit -> M B) st :
  mbind (emit ev) k st = k tt {| stdout := stdout st; wire := wire st ++ [ev] |}.
Proof. reflexivity. Qed.

Lemma mbind_print {B} text (k : unit -> M B) st :
  mbind (print text) k st =
  match encode_check text with
  | Ok _ => k tt {| stdout := stdout st ++ [text; newline]; wire := wire st |}
  | Raise e => (Raise e, st)
  end.
Proof.
  unfold mbind, print, encode_check.
  now destruct (find_surrogates 0 text) as [[[a b] c]|].
Qed.

Lemma mbind_send_response {B} rt date code (k : unit -> M B) st :
  mbind (LightShow.send_response rt date code) k st =
  k tt {| stdout := stdout st;
          wire := wire st ++ [SendStatus code;
                              SendHeader (lit "Server") (rt_version_string rt);
                              SendHeader (lit "Date") date] |}.
Proof.
  unfold LightShow.send_response, Http.send_response, log_request,
    LightShow.log_message, send_header_str.
  unfold mbind at 1 2. unfold ret.
  rewrite !mbind_emit. unfold emit. cbn [stdout wire].
  now rewrite <- !app_assoc.
Qed.

Lemma mbind_send_header {B} name value (k : unit -> M B) st :
  mbind (send_header name value) k st =
  k tt {| stdout := stdout st;
          wire := wire st ++ [SendHeader (lit name) (lit value)] |}.
Proof. reflexivity. Qed.

Lemma mbind_end_headers {B} (k : unit -> M B) st :
  mbind end_headers k st =
  k tt {| stdout := stdout st; wire := wire st ++ [EndHeaders] |}.
Proof. reflexivity. Qed.

(** The time stamp line of the console is always printable. *)
Lemma small_zero_pad w s : small s -> small (zero_pad w s).
Proof.
  intros H. unfold zero_pad. apply small_app; [|exact H].
  apply small_repeat. reflexivity.
Qed.

Lemma small_time_line t :
  small (newline ++ lit "[" ++ drop_last3 (strftime_HMSf t)
         ++ lit "] Controller Input Received:").
Proof.
  unfold drop_last3, strftime_HMSf, two_digits.
  apply small_app; [repeat constructor|].
  prove_small; apply small_repeat; reflexivity.
Qed.


(** *** [do_POST] against its contract *)

Lemma state_eta st : {| stdout := stdout st; wire := wire st |} = st.
Proof. now destruct st. Qed.

Ltac fail_here :=
  exists []; rewrite app_nil_r, ?state_eta; reflexivity.

Lemma process_spec rt date post_data st :
  exists out,
    process rt date post_data st =
    match event_text rt post_data with
    | Ok a =>
      (Ok tt,
       {| stdout := stdout st ++ out;
          wire := wire st ++ json_wire rt date 200
                    [(lit "status", lit "success");
                     (lit "message", success_message a)] |})
    | Raise e => (Raise e, {| stdout := stdout st ++ out; wire := wire st |})
    end.
Proof.
  unfold process, event_text, parse_body, event_time, field_text.
  rewrite mbind_lift.
  destruct (Utf8.decode post_data) as [text|e]; cbn [Exc.bind]; [|fail_here].
  rewrite mbind_lift.
  destruct (loads rt text) as [data|e]; cbn [Exc.bind]; [|fail_here].
  rewrite mbind_lift.
  destruct data as [| | | | | |d]; cbn [data_get getattr_get Exc.bind];
    try fail_here.
  rewrite mbind_lift.
  destruct (truediv_1000 _) as [seconds|e]; cbn [Exc.bind]; [|fail_here].
  rewrite mbind_lift.
  destruct (fromtimestamp rt seconds) as [t|e]; cbn [Exc.bind]; [|fail_here].
  rewrite mbind_print, (small_encode_check _ (small_time_line t)).
  rewrite !mbind_lift.
  destruct (py_str rt (dict_get d (lit "controller_id") _)) as [cid|e];
    cbn [Exc.bind]; [|eexists; cbn [stdout wire]; reflexivity].
  rewrite mbind_print.
  destruct (encode_check (lit "  Controller ID: " ++ cid)) as [[]|e];
    cbn [Exc.bind]; [|eexists; cbn [stdout wire]; reflexivity].
  rewrite !mbind_lift. cbn [stdout wire].
  unfold dict_get.
  destruct (dict_lookup d (lit "action")) as [av|].
  - destruct (py_str rt av) as [a|e] eqn:Ea;
      cbn [Exc.bind]; [|eexists; rewrite <- app_assoc; reflexivity].
    rewrite mbind_print.
    destruct (encode_check (lit "  Action: " ++ a)) as [[]|e];
      cbn [Exc.bind stdout wire]; [|eexists; rewrite <- !app_assoc; reflexivity].
    rewrite mbind_send_response, !mbind_send_header, mbind_end_headers.
    rewrite !mbind_lift, Ea.
    cbn [stdout wire py_str]. unfold wfile_write, emit, json_wire, success_message.
    cbn [stdout wire]. eexists. rewrite <- !app_assoc. reflexivity.
  - cbn [py_str Exc.bind].
    rewrite mbind_print, small_encode_check by prove_small.
    rewrite mbind_send_response, !mbind_send_header, mbind_end_headers.
    rewrite !mbind_lift.
    cbn [stdout wire py_str]. unfold wfile_write, emit, json_wire, success_message.
    cbn [stdout wire]. eexists. rewrite <- !app_assoc. reflexivity.
Qed.

(** The [except] clause answers 400 when the console takes the text. *)
Lemma on_error_spec rt date e st :
  small_exn e ->
  on_error rt date e st =
  (Ok tt,
   {| stdout := stdout st ++ [lit "Error processing request: " ++ exn_str e; newline];
      wire := wire st ++ json_wire rt date 400
                [(lit "status", lit "error"); (lit "message", exn_str e)] |}).
Proof.
  intros [He _]. unfold on_error.
  rewrite mbind_print, small_encode_check by (prove_small; exact He).
  rewrite mbind_send_response, !mbind_send_header, mbind_end_headers.
  cbn [stdout wire]. unfold wfile_write, emit, json_wire.
  cbn [stdout wire]. now rewrite <- !app_assoc.
Qed.

Lemma response_of_json_wire rt date code fields :
  response_of (json_wire rt date code fields) = Some (json_response rt date code fields).
Proof. unfold json_wire, json_response. cbn. now rewrite app_nil_r. Qed.

(** A POST to [/light-control] whose body could be read is answered by
    [post_response]: 200 when the [try] body runs through, 400 when it
    raises. *)
Lemma do_POST_spec rt date req post_data st :
  path req = lit "/light-control" ->
  request_body rt req = Ok post_data ->
  exists out,
    do_POST rt date req st =
    (Ok tt,
     {| stdout := stdout st ++ out;
        wire := wire st ++
          match event_text rt post_data with
          | Ok a => json_wire rt date 200
                      [(lit "status", lit "success"); (lit "message", success_message a)]
          | Raise e => json_wire rt date 400
                      [(lit "status", lit "error"); (lit "message", exn_str e)]
          end |}).
Proof.
  intros Hpath Hbody. unfold do_POST. rewrite Hpath, str_eqb_refl.
  unfold request_body in Hbody. rewrite mbind_lift.
  destruct (py_int rt _) as [n|e]; cbn [Exc.bind] in Hbody; [|discriminate].
  rewrite mbind_lift, Hbody. unfold try_except.
  destruct (process_spec rt date post_data st) as [out ->].
  pose proof (small_event_text rt post_data) as Hsmall.
  destruct (event_text rt post_data) as [a|e]; cbn [small_result] in Hsmall.
  - now exists out.
  - rewrite on_error_spec by exact Hsmall. cbn [stdout wire].
    eexists. rewrite <- app_assoc. reflexivity.
Qed.

Lemma serve_post rt date req post_data console :
  command req = lit "POST" ->
  path req = lit "/light-control" ->
  request_body rt req = Ok post_data ->
  fst (serve rt date req console) = Responded (post_response rt date post_data).
Proof.
  intros Hcmd Hpath Hbody. unfold serve, handle_one_request.
  rewrite Hcmd. cbn [fst].
  change (str_eqb (lit "POST") (lit "OPTIONS")) with false.
  rewrite str_eqb_refl. cbv iota.
  destruct (do_POST_spec rt date req post_data {| stdout := console; wire := [] |} Hpath Hbody)
    as [out ->].
  unfold outcome_of, post_response, success_response, error_response.
  cbn [fst snd wire app].
  destruct (event_text rt post_data); now rewrite response_of_json_wire.
Qed.


(** *** When the [try] body runs through *)

Lemma find_surrogates_shift s : forall p q,
  find_surrogates p s = None -> find_surrogates q s = None.
Proof.
  induction s as [|c s IH]; intros p q; simpl; [reflexivity|].
  destruct (is_surrogate c); [discriminate|]. apply IH.
Qed.

Lemma console_takes_app p s : small p -> console_takes s -> console_takes (p ++ s).
Proof.
  unfold console_takes. intros Hp. revert s.
  assert (forall pos s, find_surrogates 0 s = None ->
                        find_surrogates pos (p ++ s) = None) as H.
  { induction Hp as [|c p Hc _ IH]; intros pos s Hs; simpl.
    - eapply find_surrogates_shift; eauto.
    - assert (is_surrogate c = false) as ->.
      { unfold is_surrogate. apply andb_false_iff. left. apply N.leb_gt. lia. }
      now apply IH. }
  intros s. apply H.
Qed.

Lemma encode_check_takes s : console_takes s -> encode_check s = Ok tt.
Proof. unfold console_takes, encode_check. now intros ->. Qed.

Lemma encode_check_label label s :
  console_takes s -> encode_check (lit label ++ s) = Ok tt.
Proof. intros H. apply encode_check_takes, console_takes_app; auto using small_lit. Qed.

Lemma console_takes_small s : small s -> console_takes s.
Proof. intros H. now apply small_no_surrogates. Qed.

(** The action text of a well-formed event. *)
Lemma event_text_ok rt post_data d a :
  parse_body rt post_data = Ok (PyDict d) ->
  timestamp_ok rt d ->
  printable rt (dict_get d (lit "controller_id") (PyStr (lit "Unknown"))) ->
  py_str rt (dict_get d (lit "action") (PyStr (lit "unknown"))) = Ok a ->
  console_takes a ->
  event_text rt post_data = Ok a.
Proof.
  intros Hparse [t Ht] (cid & Hcid & Hcid') Ha Ha'.
  unfold event_text. rewrite Hparse. cbn [Exc.bind]. rewrite Ht. cbn [Exc.bind].
  unfold field_text, data_get. cbn [getattr_get Exc.bind].
  rewrite Hcid. cbn [Exc.bind]. rewrite encode_check_label by exact Hcid'.
  cbn [Exc.bind]. unfold dict_get in *.
  destruct (dict_lookup d (lit "action")) as [v|].
  - rewrite Ha. cbn [Exc.bind]. now rewrite encode_check_label.
  - cbn [py_str Exc.bind] in *.
    rewrite encode_check_label by (apply console_takes_small, small_lit).
    exact Ha.
Qed.

(** The handler's answer depends on the body only through the time stamp,
    the controller id and the action. *)
Lemma event_text_dict rt post_data d :
  parse_body rt post_data = Ok (PyDict d) ->
  event_text rt post_data =
  (_ <- event_time rt (PyDict d) ;;
   cid <- py_str rt (dict_get d (lit "controller_id") (PyStr (lit "Unknown"))) ;;
   _ <- encode_check (lit "  Controller ID: " ++ cid) ;;
   a <- py_str rt (dict_get d (lit "action") (PyStr (lit "Unknown"))) ;;
   _ <- encode_check (lit "  Action: " ++ a) ;;
   py_str rt (dict_get d (lit "action") (PyStr (lit "unknown"))))%result.
Proof. intros H. unfold event_text. now rewrite H. Qed.

End Facts.

(* ================================================================= *)
(** ** The scanner consumes its input *)

Module Scan.
Import Py Exc Value Json Contract Shape.

Lemma suffix_refl s : suffix_of s s.
Proof. now exists []. Qed.

Lemma suffix_cons c r s : suffix_of r s -> suffix_of r (c :: s).
Proof. intros [pre ->]. now exists (c :: pre). Qed.

Lemma suffix_trans a b c : suffix_of a b -> suffix_of b c -> suffix_of a c.
Proof. intros [p ->] [q ->]. exists (q ++ p). now rewrite app_assoc. Qed.

Lemma suffix_length r s : suffix_of r s -> length r <= length s.
Proof. intros [pre ->]. rewrite length_app. lia. Qed.

Lemma suffix_Forall (P : codepoint -> Prop) r s :
  suffix_of r s -> Forall P s -> Forall P r.
Proof. intros [pre ->] H. now apply Forall_app in H. Qed.

Lemma skip_ws_suffix s : suffix_of (skip_ws s) s.
Proof.
  induction s as [|c s IH]; simpl; [apply suffix_refl|].
  destruct (is_ws c); [now apply suffix_cons | apply suffix_refl].
Qed.

Lemma span_digits_suffix s : suffix_of (snd (span_digits s)) s.
Proof.
  induction s as [|c s IH]; simpl; [apply suffix_refl|].
  destruct (is_digit c); [|apply suffix_refl].
  destruct (span_digits s) as [ds r]. now apply suffix_cons.
Qed.

Lemma strip_prefix_suffix p s r : strip_prefix p s = Some r -> suffix_of r s.
Proof.
  revert s; induction p as [|x p IH]; intros s; simpl.
  - intros [= ->]. apply suffix_refl.
  - destruct s as [|y s]; [discriminate|].
    destruct (N.eqb x y); [|discriminate].
    intros H. apply suffix_cons. now apply IH.
Qed.

Lemma strip_prefix_length p s r :
  strip_prefix p s = Some r -> length s = length p + length r.
Proof.
  revert s; induction p as [|x p IH]; intros s; simpl.
  - now intros [= ->].
  - destruct s as [|y s]; [discriminate|].
    destruct (N.eqb x y); [|discriminate].
    intros H. simpl. f_equal. now apply IH.
Qed.

Ltac solve_suffix :=
  first [ apply suffix_refl
        | assumption
        | apply skip_ws_suffix
        | apply suffix_cons; solve_suffix
        | eapply suffix_trans; [apply skip_ws_suffix | solve_suffix]
        | eapply suffix_trans; [eassumption | solve_suffix] ].

Lemma consumes_pmap {A B} (f : A -> B) p r s :
  consumes p r -> suffix_of r s -> length r < length s \/ r = s ->
  consumes (pmap f p) s.
Proof.
  destruct p as [a rest| |]; simpl; auto.
  intros [H1 H2] H3 H4. split.
  - eapply suffix_trans; eauto.
  - apply suffix_length in H3. destruct H4; subst; lia.
Qed.

Lemma scanstring_consumes doc begin s :
  match scanstring doc begin s with
  | POk _ r => suffix_of r s /\ length r < length s
  | _ => True
  end.
Proof.
  change (consumes (scanstring doc begin s) s).
  assert (forall n s, length s < n -> consumes (scanstring doc begin s) s) as H.
  { induction n as [|n IH]; intros l Hl; [lia|].
    destruct l as [|c r]; cbn [scanstring]; [exact I|].
    repeat match goal with
    | |- consumes (if ?c then _ else _) _ => destruct c
    | |- consumes (match ?l with [] => _ | _ :: _ => _ end) _ => destruct l
    | |- consumes (match ?o with Some _ => _ | None => _ end) _ => destruct o
    | |- consumes (PRaise _) _ => exact I
    | |- consumes (POk _ _) _ => split; [solve_suffix | simpl; lia]
    | |- consumes (pmap _ (scanstring _ _ ?r')) _ =>
        apply (consumes_pmap _ _ r');
        [ apply IH; simpl in *; lia | solve_suffix | left; simpl; lia ]
    end. }
  apply (H (S (length s))). lia.
Qed.


Lemma scan_sign_suffix s : suffix_of (snd (scan_sign s)) s.
Proof.
  destruct s as [|c r]; cbn [scan_sign snd]; [apply suffix_refl|].
  destruct (c =? ord "-")%N; cbn [snd]; solve_suffix.
Qed.

Lemma scan_int_suffix c r : suffix_of (snd (scan_int c r)) r.
Proof.
  unfold scan_int. destruct (c =? ord "0")%N; cbn [snd]; [apply suffix_refl|].
  pose proof (span_digits_suffix r). now destruct (span_digits r).
Qed.

Lemma scan_frac_suffix s : suffix_of (snd (scan_frac s)) s.
Proof.
  destruct s as [|dot [|d r]]; cbn [scan_frac snd tl]; try apply suffix_refl.
  destruct (_ && _); cbn [snd]; [|apply suffix_refl].
  apply suffix_cons. apply (span_digits_suffix (d :: r)).
Qed.

Lemma scan_exp_sign_suffix s : suffix_of (snd (scan_exp_sign s)) s.
Proof.
  destruct s as [|sg [|d r]]; cbn [scan_exp_sign snd tl]; try apply suffix_refl.
  destruct (sg =? ord "-")%N; cbn [snd]; [solve_suffix|].
  destruct (sg =? ord "+")%N; cbn [snd]; solve_suffix.
Qed.

Lemma scan_exp_suffix s : suffix_of (snd (scan_exp s)) s.
Proof.
  destruct s as [|e r]; cbn [scan_exp snd]; [apply suffix_refl|].
  destruct (_ || _); cbn [snd]; [|apply suffix_refl].
  pose proof (scan_exp_sign_suffix r) as H1.
  destruct (scan_exp_sign r) as [eneg r']. cbn [snd] in H1.
  pose proof (span_digits_suffix r') as H2.
  destruct (span_digits r') as [[|x eds] r'']; cbn [snd] in *; [apply suffix_refl|].
  solve_suffix.
Qed.

Lemma consumes_parse_int limit neg ds p s :
  consumes p s -> consumes (parse_int limit neg ds p) s.
Proof. unfold parse_int. now destruct (_ && _). Qed.

Lemma match_number_consumes limit doc s : consumes (match_number limit doc s) s.
Proof.
  unfold match_number.
  pose proof (scan_sign_suffix s) as H0.
  destruct (scan_sign s) as [neg s1]. simpl in H0.
  destruct s1 as [|c r]; [exact I|].
  destruct (negb (is_digit c)); [exact I|].
  pose proof (scan_int_suffix c r) as H1.
  destruct (scan_int c r) as [int_ds r1]. simpl in H1.
  pose proof (scan_frac_suffix r1) as H2.
  destruct (scan_frac r1) as [frac_ds r2]. simpl in H2.
  pose proof (scan_exp_suffix r2) as H3.
  destruct (scan_exp r2) as [exp r3]. simpl in H3.
  assert (suffix_of r3 s /\ length r3 < length s) as Hr.
  { assert (suffix_of r3 r) as Hr by solve_suffix.
    split.
    - eapply suffix_trans; [exact Hr|]. eapply suffix_trans; [|exact H0].
      apply suffix_cons, suffix_refl.
    - apply suffix_length in Hr, H0. simpl in H0. lia. }
  destruct frac_ds, exp; try exact Hr.
  apply consumes_parse_int. exact Hr.
Qed.

(** One step of the scanner consumes input when the calls it makes do. *)
Ltac consume_step :=
  match goal with
  | |- consumes (if ?c then _ else _) _ => destruct c
  | |- consumes (match ?l with [] => _ | _ :: _ => _ end) _ => destruct l eqn:?
  | |- consumes (match ?n with O => _ | S _ => _ end) _ => destruct n
  | |- consumes (match ?o with Some _ => _ | None => _ end) _ => destruct o eqn:?
  | |- consumes (PRaise _) _ => exact I
  | |- consumes PFuel _ => exact I
  | |- consumes (expecting_value _ _) _ => exact I
  end.

Lemma consumes_weaken {A} (p : parse A) r s :
  consumes p r -> suffix_of r s -> consumes p s.
Proof.
  destruct p as [a rest| |]; simpl; auto.
  intros [H1 H2] H3. split; [eapply suffix_trans; eauto|].
  apply suffix_length in H3. lia.
Qed.

Lemma skip_ws_cons s c r : skip_ws s = c :: r -> suffix_of r s /\ length r < length s.
Proof.
  intros H. pose proof (skip_ws_suffix s) as Hs. rewrite H in Hs. split.
  - eapply suffix_trans; [|exact Hs]. apply suffix_cons, suffix_refl.
  - apply suffix_length in Hs. simpl in Hs. lia.
Qed.

Lemma scan_step_consumes limit doc objects arrays depth s :
  (forall d acc l, consumes (objects d acc l) l) ->
  (forall d acc l, consumes (arrays d acc l) l) ->
  consumes (scan_step limit doc objects arrays depth s) s.
Proof.
  intros Ho Ha. unfold scan_step.
  destruct s as [|c r]; [exact I|].
  destruct (c =? quote)%N.
  { apply (consumes_pmap _ _ r);
      [apply scanstring_consumes | solve_suffix | left; simpl; lia]. }
  assert (forall (p : parse pyvalue), consumes p (skip_ws r) -> consumes p (c :: r))
    as Hw.
  { intros p Hp. eapply consumes_weaken; [exact Hp | solve_suffix]. }
  destruct (c =? ord "{")%N.
  { destruct depth as [|d]; [exact I|].
    destruct (skip_ws r) as [|c' r'] eqn:E; [apply Hw, Ho|].
    destruct (c' =? ord "}")%N; [|apply Hw, Ho].
    apply skip_ws_cons in E as [E1 E2].
    split; [solve_suffix | simpl; lia]. }
  destruct (c =? ord "[")%N.
  { destruct depth as [|d]; [exact I|].
    destruct (skip_ws r) as [|c' r'] eqn:E; [apply Hw, Ha|].
    destruct (c' =? ord "]")%N; [|apply Hw, Ha].
    apply skip_ws_cons in E as [E1 E2].
    split; [solve_suffix | simpl; lia]. }
  assert (forall p r', strip_prefix (lit p) (c :: r) = Some r' -> p <> EmptyString ->
            suffix_of r' (c :: r) /\ length r' < length (c :: r)) as Hlit.
  { intros p r' H Hp. split; [eapply strip_prefix_suffix; eauto|].
    apply strip_prefix_length in H. rewrite H.
    destruct p; [congruence|]. simpl. lia. }
  repeat match goal with
  | |- consumes (match strip_prefix (lit ?p) ?l with _ => _ end) _ =>
      let E := fresh "E" in
      destruct (strip_prefix (lit p) l) eqn:E;
      [ try (apply Hlit in E; [exact E | discriminate]) | ]
  end.
  apply match_number_consumes.
Qed.


Lemma object_step_consumes doc scan more acc s :
  (forall l, consumes (scan l) l) ->
  (forall a l, consumes (more a l) l) ->
  consumes (object_step doc scan more acc s) s.
Proof.
  intros Hs Hm. unfold object_step.
  destruct s as [|c r]; [exact I|].
  destruct (negb (c =? quote)%N); [exact I|].
  pose proof (scanstring_consumes doc (pos_of doc (c :: r)) r) as Hk.
  destruct (scanstring doc (pos_of doc (c :: r)) r) as [key r1| |]; try exact I.
  destruct Hk as [Hk1 Hk2].
  destruct (skip_ws r1) as [|colon r2] eqn:E1; [exact I|].
  apply skip_ws_cons in E1 as [E1 E1'].
  destruct (negb (colon =? ord ":")%N); [exact I|].
  pose proof (Hs (skip_ws r2)) as Hv.
  pose proof (skip_ws_suffix r2) as W2.
  destruct (scan (skip_ws r2)) as [v r3| |]; try exact I.
  destruct Hv as [Hv1 Hv2].
  assert (suffix_of r3 (c :: r) /\ length r3 < length (c :: r)) as [A1 A2].
  { split; [solve_suffix|].
    apply suffix_length in W2, E1, Hk1. simpl. lia. }
  destruct (skip_ws r3) as [|c' r4] eqn:E3; [exact I|].
  apply skip_ws_cons in E3 as [E3 E3'].
  destruct (c' =? ord "}")%N.
  { split; [solve_suffix | lia]. }
  destruct (c' =? ord ",")%N; [|exact I].
  eapply consumes_weaken; [apply Hm | solve_suffix].
Qed.

Lemma array_step_consumes doc scan more acc s :
  (forall l, consumes (scan l) l) ->
  (forall a l, consumes (more a l) l) ->
  consumes (array_step doc scan more acc s) s.
Proof.
  intros Hs Hm. unfold array_step.
  pose proof (Hs s) as Hv.
  destruct (scan s) as [v r1| |]; try exact I.
  destruct Hv as [Hv1 Hv2].
  destruct (skip_ws r1) as [|c' r2] eqn:E1; [exact I|].
  apply skip_ws_cons in E1 as [E1 E1'].
  destruct (c' =? ord "]")%N.
  { split; [solve_suffix | lia]. }
  destruct (c' =? ord ",")%N; [|exact I].
  eapply consumes_weaken; [apply Hm | solve_suffix].
Qed.

Lemma scan_consumes limit doc steps :
  (forall depth s, consumes (scan_once limit doc steps depth s) s)
  /\ (forall depth acc s, consumes (object_items limit doc steps depth acc s) s)
  /\ (forall depth acc s, consumes (array_items limit doc steps depth acc s) s).
Proof.
  induction steps as [|n (IHs & IHo & IHa)].
  - repeat split; intros; exact I.
  - repeat split; intros; cbn [scan_once object_items array_items].
    + apply scan_step_consumes; auto.
    + apply object_step_consumes; auto.
    + apply array_step_consumes; auto.
Qed.

(** *** The steps are never used up *)

Lemma pmap_fueled {A B} (f : A -> B) p : p <> PFuel -> pmap f p <> PFuel.
Proof. destruct p; simpl; congruence. Qed.

Lemma scanstring_fueled doc begin s : scanstring doc begin s <> PFuel.
Proof.
  assert (forall n s, length s < n -> scanstring doc begin s <> PFuel) as H.
  { induction n as [|n IH]; intros l Hl; [lia|].
    destruct l as [|c r]; cbn [scanstring]; [discriminate|].
    repeat match goal with
    | |- (if ?c then _ else _) <> _ => destruct c
    | |- (match ?l with [] => _ | _ :: _ => _ end) <> _ => destruct l
    | |- (match ?o with Some _ => _ | None => _ end) <> _ => destruct o
    | |- PRaise _ <> _ => discriminate
    | |- POk _ _ <> _ => discriminate
    | |- pmap _ _ <> _ => apply pmap_fueled; apply IH; simpl in *; lia
    end. }
  apply (H (S (length s))). lia.
Qed.

Lemma match_number_fueled limit doc s : match_number limit doc s <> PFuel.
Proof.
  unfold match_number, parse_int, expecting_value.
  repeat match goal with
  | |- (let '(_, _) := ?x in _) <> _ => destruct x
  | |- (match ?x with Some _ => _ | None => _ end) <> _ => destruct x
  | |- (match ?x with [] => _ | _ :: _ => _ end) <> _ => destruct x
  | |- (if ?c then _ else _) <> _ => destruct c
  | |- PRaise _ <> _ => discriminate
  | |- POk _ _ <> _ => discriminate
  end.
Qed.

Lemma scan_step_fueled limit doc objects arrays depth s :
  (forall d acc l, length l < length s -> objects d acc l <> PFuel) ->
  (forall d acc l, length l < length s -> arrays d acc l <> PFuel) ->
  scan_step limit doc objects arrays depth s <> PFuel.
Proof.
  intros Ho Ha. unfold scan_step, expecting_value.
  destruct s as [|c r]; [discriminate|].
  assert (length (skip_ws r) < length (c :: r)) as Hlen.
  { pose proof (suffix_length _ _ (skip_ws_suffix r)). simpl. lia. }
  destruct (c =? quote)%N; [apply pmap_fueled, scanstring_fueled|].
  destruct (c =? ord "{")%N.
  { destruct depth; [discriminate|].
    destruct (skip_ws r) as [|c' r'] eqn:E; [apply Ho; exact Hlen|].
    destruct (c' =? ord "}")%N; [discriminate | apply Ho; exact Hlen]. }
  destruct (c =? ord "[")%N.
  { destruct depth; [discriminate|].
    destruct (skip_ws r) as [|c' r'] eqn:E; [apply Ha; exact Hlen|].
    destruct (c' =? ord "]")%N; [discriminate | apply Ha; exact Hlen]. }
  repeat match goal with
  | |- (match strip_prefix ?p ?l with _ => _ end) <> _ =>
      destruct (strip_prefix p l); [try discriminate|]
  end.
  apply match_number_fueled.
Qed.

Lemma object_step_fueled doc scan more acc s :
  (forall l, consumes (scan l) l) ->
  (forall l, length l < length s -> scan l <> PFuel) ->
  (forall a l, length l < length s -> more a l <> PFuel) ->
  object_step doc scan more acc s <> PFuel.
Proof.
  intros Hc Hs Hm. unfold object_step.
  destruct s as [|c r]; [discriminate|].
  destruct (negb (c =? quote)%N); [discriminate|].
  pose proof (scanstring_consumes doc (pos_of doc (c :: r)) r) as Hk.
  pose proof (scanstring_fueled doc (pos_of doc (c :: r)) r) as Hf.
  destruct (scanstring doc (pos_of doc (c :: r)) r) as [key r1| |];
    [|discriminate|congruence].
  destruct Hk as [Hk1 Hk2].
  destruct (skip_ws r1) as [|colon r2] eqn:E1; [discriminate|].
  apply skip_ws_cons in E1 as [E1 E1'].
  destruct (negb (colon =? ord ":")%N); [discriminate|].
  pose proof (skip_ws_suffix r2) as W2. apply suffix_length in W2.
  pose proof (Hc (skip_ws r2)) as Hv.
  pose proof (Hs (skip_ws r2)) as Hv'.
  destruct (scan (skip_ws r2)) as [v r3| |]; [|discriminate|].
  2: { apply Hv'. simpl. lia. }
  destruct Hv as [Hv1 Hv2].
  destruct (skip_ws r3) as [|c' r4] eqn:E3; [discriminate|].
  apply skip_ws_cons in E3 as [E3 E3'].
  destruct (c' =? ord "}")%N; [discriminate|].
  destruct (c' =? ord ",")%N; [|discriminate].
  apply Hm. pose proof (suffix_length _ _ (skip_ws_suffix r4)). simpl. lia.
Qed.

Lemma array_step_fueled doc scan more acc s :
  (forall l, consumes (scan l) l) ->
  (forall l, length l <= length s -> scan l <> PFuel) ->
  (forall a l, length l < length s -> more a l <> PFuel) ->
  array_step doc scan more acc s <> PFuel.
Proof.
  intros Hc Hs Hm. unfold array_step.
  pose proof (Hc s) as Hv. pose proof (Hs s) as Hv'.
  destruct (scan s) as [v r1| |]; [|discriminate|].
  2: { apply Hv'. lia. }
  destruct Hv as [Hv1 Hv2].
  destruct (skip_ws r1) as [|c' r2] eqn:E1; [discriminate|].
  apply skip_ws_cons in E1 as [E1 E1'].
  destruct (c' =? ord "]")%N; [discriminate|].
  destruct (c' =? ord ",")%N; [|discriminate].
  apply Hm. pose proof (suffix_length _ _ (skip_ws_suffix r2)). lia.
Qed.

Lemma scan_fueled limit doc steps :
  (forall depth s, 2 * length s < steps ->
     scan_once limit doc steps depth s <> PFuel)
  /\ (forall depth acc s, 2 * length s + 1 < steps ->
        object_items limit doc steps depth acc s <> PFuel)
  /\ (forall depth acc s, 2 * length s + 1 < steps ->
        array_items limit doc steps depth acc s <> PFuel).
Proof.
  induction steps as [|n (IHs & IHo & IHa)].
  - repeat split; intros; lia.
  - repeat split; intros; cbn [scan_once object_items array_items].
    + apply scan_step_fueled.
      * intros. apply IHo. lia.
      * intros. apply IHa. lia.
    + apply object_step_fueled.
      * apply scan_consumes.
      * intros. apply IHs. lia.
      * intros. apply IHo. lia.
    + apply array_step_fueled.
      * apply scan_consumes.
      * intros. apply IHs. lia.
      * intros. apply IHa. lia.
Qed.

(** [loads] never falls back on its last case: the steps it gives the
    scanner are enough for every document. *)
Lemma loads_steps_enough rt s :
  loads_steps (2 * length s + 2) rt s <> PFuel.
Proof.
  unfold loads_steps.
  assert (forall l, length l <= length s ->
            scan_once (rt_int_max_str_digits rt) s (2 * length s + 2)
              (rt_parse_depth rt) l <> PFuel) as H.
  { intros l Hl. apply scan_fueled. lia. }
  assert (match scan_once (rt_int_max_str_digits rt) s (2 * length s + 2)
                  (rt_parse_depth rt) (skip_ws s) with
          | POk v r =>
            match skip_ws r with
            | [] => POk v []
            | _ :: _ => PRaise (errmsg s "Extra data" (pos_of s (skip_ws r)))
            end
          | other => other
          end <> PFuel) as H'.
  { specialize (H (skip_ws s) (suffix_length _ _ (skip_ws_suffix s))).
    destruct (scan_once _ _ _ _ _); try congruence.
    destruct (skip_ws rest); discriminate. }
  destruct s as [|c s']; [exact H'|].
  destruct c as [|p]; [exact H'|].
  repeat (destruct p as [p|p|]; try exact H').
  discriminate.
Qed.

(** The same as a property of the result: the scanner returns a value or
    raises. *)
Lemma loads_steps_total rt s :
  match loads_steps (2 * length s + 2) rt s with
  | PFuel => False
  | _ => True
  end.
Proof.
  pose proof (loads_steps_enough rt s) as H.
  destruct (loads_steps (2 * length s + 2) rt s); [exact I | exact I | congruence].
Qed.

End Scan.

(* ================================================================= *)
(** ** [json.loads] reads back what [json.dumps] wrote *)

Module RoundTrip.
Import Py Exc Value Json Format Contract Shape Scan.

Lemma all_from_spec n : forall start p,
  all_from n start p = true ->
  forall c, (start <= c < start + N.of_nat n)%N -> p c = true.
Proof.
  induction n as [|n IH]; intros start p H c Hc; [lia|].
  cbn [all_from] in H. apply andb_true_iff in H as [H1 H2].
  destruct (N.eq_dec c start) as [->|Hne]; [exact H1|].
  apply (IH _ _ H2). lia.
Qed.

(** *** Hexadecimal digits *)

Lemma hex4_hex_fixed c :
  (c < 65536)%N -> hex4_list (hex_fixed 4 c) = Some c.
Proof.
  intros Hc.
  assert (all_from (N.to_nat 65536) 0
            (fun c => match hex4_list (hex_fixed 4 c) with
                      | Some x => N.eqb x c
                      | None => false
                      end) = true) as H by (vm_compute; reflexivity).
  pose proof (all_from_spec _ _ _ H c) as Hx. cbv beta in Hx.
  rewrite N2Nat.id in Hx.
  destruct (hex4_list (hex_fixed 4 c)) as [x|].
  - f_equal. apply N.eqb_eq, Hx. lia.
  - discriminate Hx. lia.
Qed.

Lemma hex_fixed_4 c :
  exists h1 h2 h3 h4, hex_fixed 4 c = [h1; h2; h3; h4].
Proof. cbn [hex_fixed app]. do 4 eexists. reflexivity. Qed.


(** *** One character at a time *)

Section Scanstring.
Variable doc : pystr.
Variable begin : nat.

Lemma scanstring_quote R : scanstring doc begin (quote :: R) = POk [] R.
Proof. reflexivity. Qed.

Lemma scanstring_plain c R :
  c <> quote -> c <> backslash -> (32 <= c)%N ->
  scanstring doc begin (c :: R) = pmap (cons c) (scanstring doc begin R).
Proof.
  intros H1 H2 H3. cbn [scanstring].
  apply N.eqb_neq in H1, H2. rewrite H1, H2.
  assert ((c <=? 31)%N = false) as -> by (apply N.leb_gt; lia).
  reflexivity.
Qed.

Lemma scanstring_simple e c R :
  e <> ord "u" -> simple_escape e = Some c ->
  scanstring doc begin (backslash :: e :: R)
  = pmap (cons c) (scanstring doc begin R).
Proof.
  intros H1 H2. cbn [scanstring].
  change (backslash =? quote)%N with false.
  change (backslash =? backslash)%N with true. cbv iota.
  apply N.eqb_neq in H1. rewrite H1, H2. reflexivity.
Qed.

Lemma scanstring_u c h1 h2 h3 h4 R :
  hex4 h1 h2 h3 h4 = Some c ->
  (is_high_surrogate c = true -> no_low_escape R) ->
  scanstring doc begin (backslash :: ord "u" :: h1 :: h2 :: h3 :: h4 :: R)
  = pmap (cons c) (scanstring doc begin R).
Proof.
  intros Hh Hlow. cbn [scanstring].
  change (backslash =? quote)%N with false.
  change (backslash =? backslash)%N with true.
  change (ord "u" =? ord "u")%N with true. cbv iota.
  rewrite Hh.
  destruct (is_high_surrogate c); [|reflexivity].
  specialize (Hlow eq_refl). unfold no_low_escape in Hlow.
  destruct (6 <? length R); [|reflexivity]. cbn [andb].
  destruct R as [|b [|u [|g1 [|g2 [|g3 [|g4 r3]]]]]]; try reflexivity.
  destruct ((b =? backslash) && (u =? ord "u"))%N; [|reflexivity].
  destruct (hex4 g1 g2 g3 g4) as [c2|]; [|contradiction].
  now rewrite Hlow.
Qed.

Lemma scanstring_pair hi lo h1 h2 h3 h4 g1 g2 g3 g4 R :
  hex4 h1 h2 h3 h4 = Some hi -> hex4 g1 g2 g3 g4 = Some lo ->
  is_high_surrogate hi = true -> is_low_surrogate lo = true ->
  R <> [] ->
  scanstring doc begin
    (backslash :: ord "u" :: h1 :: h2 :: h3 :: h4
     :: backslash :: ord "u" :: g1 :: g2 :: g3 :: g4 :: R)
  = pmap (cons (join_surrogates hi lo)) (scanstring doc begin R).
Proof.
  intros Hh Hg Hhi Hlo HR. cbn [scanstring].
  change (backslash =? quote)%N with false.
  change (backslash =? backslash)%N with true.
  change (ord "u" =? ord "u")%N with true. cbv iota.
  rewrite Hh, Hhi.
  destruct R as [|x R']; [congruence|].
  cbn [length Nat.ltb Nat.leb andb]. cbv iota.
  now rewrite Hg, Hlo.
Qed.

End Scanstring.


(** *** Surrogate pairs *)

Lemma land_1023 n : N.land n 1023 = (n mod 1024)%N.
Proof. change 1023%N with (N.ones 10). now rewrite N.land_ones. Qed.

Lemma lor_shiftl_low a k b :
  (b < 2 ^ k)%N -> N.lor (N.shiftl a k) b = (a * 2 ^ k + b)%N.
Proof.
  intros Hb.
  assert (N.land (N.shiftl a k) b = 0%N) as Hdisj.
  { apply N.bits_inj. intros i. rewrite N.land_spec, N.bits_0.
    destruct (N.lt_ge_cases i k) as [Hi|Hi].
    - now rewrite N.shiftl_spec_low.
    - destruct (N.eq_dec b 0) as [->|Hb0]; [now rewrite N.bits_0, andb_false_r|].
      rewrite (N.bits_above_log2 b i), andb_false_r; [reflexivity|].
      apply N.log2_lt_pow2 in Hb; lia. }
  rewrite <- N.lxor_lor by exact Hdisj.
  rewrite <- N.add_nocarry_lxor by exact Hdisj.
  now rewrite N.shiftl_mul_pow2.
Qed.

Lemma high_half x :
  (x < 1024)%N ->
  is_high_surrogate (N.lor 55296 x) = true
  /\ (N.lor 55296 x < 65536)%N
  /\ N.land (N.lor 55296 x) 1023 = x.
Proof.
  intros Hx.
  assert (all_from (N.to_nat 1024) 0
            (fun x => is_high_surrogate (N.lor 55296 x)
                      && (N.lor 55296 x <? 65536)%N
                      && (N.land (N.lor 55296 x) 1023 =? x)%N) = true) as H
    by (vm_compute; reflexivity).
  pose proof (all_from_spec _ _ _ H x) as Hc. cbv beta in Hc.
  rewrite N2Nat.id in Hc.
  assert (0 <= x < 0 + 1024)%N as Hr by lia. specialize (Hc Hr).
  apply andb_true_iff in Hc as [Hc H3]. apply andb_true_iff in Hc as [H1 H2].
  apply N.ltb_lt in H2. apply N.eqb_eq in H3. auto.
Qed.

Lemma low_half x :
  (x < 1024)%N ->
  is_low_surrogate (N.lor 56320 x) = true
  /\ (N.lor 56320 x < 65536)%N
  /\ N.land (N.lor 56320 x) 1023 = x.
Proof.
  intros Hx.
  assert (all_from (N.to_nat 1024) 0
            (fun x => is_low_surrogate (N.lor 56320 x)
                      && (N.lor 56320 x <? 65536)%N
                      && (N.land (N.lor 56320 x) 1023 =? x)%N) = true) as H
    by (vm_compute; reflexivity).
  pose proof (all_from_spec _ _ _ H x) as Hc. cbv beta in Hc.
  rewrite N2Nat.id in Hc.
  assert (0 <= x < 0 + 1024)%N as Hr by lia. specialize (Hc Hr).
  apply andb_true_iff in Hc as [Hc H3]. apply andb_true_iff in Hc as [H1 H2].
  apply N.ltb_lt in H2. apply N.eqb_eq in H3. auto.
Qed.

Lemma join_split c :
  (65536 <= c < 1114112)%N ->
  let n := (c - 65536)%N in
  join_surrogates (N.lor 55296 (N.land (N.shiftr n 10) 1023))
                  (N.lor 56320 (N.land n 1023)) = c.
Proof.
  intros Hc n. unfold join_surrogates.
  assert (n < 1048576)%N as Hn by (unfold n; lia).
  assert (N.land (N.shiftr n 10) 1023 = n / 1024)%N as Ha.
  { rewrite land_1023, N.shiftr_div_pow2. change (2 ^ 10)%N with 1024%N.
    apply N.mod_small. apply N.Div0.div_lt_upper_bound. lia. }
  assert (N.land n 1023 = n mod 1024)%N as Hb by apply land_1023.
  rewrite Ha, Hb.
  destruct (high_half (n / 1024)) as (_ & _ & ->).
  { apply N.Div0.div_lt_upper_bound. lia. }
  destruct (low_half (n mod 1024)) as (_ & _ & ->).
  { now apply N.mod_lt. }
  rewrite lor_shiftl_low by (now apply N.mod_lt).
  change (2 ^ 10)%N with 1024%N.
  pose proof (N.Div0.div_mod n 1024). unfold n in *. lia.
Qed.

(** *** [scanstring] undoes [dumps_char] *)

Lemma scanstring_dumps_char doc begin c R :
  (c < 1114112)%N -> R <> [] ->
  (is_high_surrogate c = true -> no_low_escape R) ->
  scanstring doc begin (dumps_char c ++ R)
  = pmap (cons c) (scanstring doc begin R).
Proof.
  intros Hc HR Hhigh. unfold dumps_char.
  destruct (N.eqb_spec c quote) as [->|Hq].
  { now apply scanstring_simple. }
  destruct (N.eqb_spec c backslash) as [->|Hb].
  { now apply scanstring_simple. }
  destruct (N.eqb_spec c 10) as [->|H10].
  { now apply (scanstring_simple doc begin (ord "n")). }
  destruct (N.eqb_spec c 13) as [->|H13].
  { now apply (scanstring_simple doc begin (ord "r")). }
  destruct (N.eqb_spec c 9) as [->|H9].
  { now apply (scanstring_simple doc begin (ord "t")). }
  destruct (N.eqb_spec c 8) as [->|H8].
  { now apply (scanstring_simple doc begin (ord "b")). }
  destruct (N.eqb_spec c 12) as [->|H12].
  { now apply (scanstring_simple doc begin (ord "f")). }
  destruct ((32 <=? c) && (c <=? 126))%N eqn:Hp.
  { apply andb_true_iff in Hp as [Hp _]. apply N.leb_le in Hp.
    now apply scanstring_plain. }
  destruct (N.ltb_spec c 65536) as [Hs|Hs].
  - pose proof (hex4_hex_fixed c Hs) as Hh.
    destruct (hex_fixed_4 c) as (h1 & h2 & h3 & h4 & E).
    rewrite E in *. cbn [hex4_list] in Hh.
    now apply scanstring_u.
  - cbv zeta.
    assert (65536 <= c < 1114112)%N as Hr by lia.
    pose proof (join_split c Hr) as Hj. cbv zeta in Hj.
    set (n := (c - 65536)%N) in *.
    assert (n < 1048576)%N as Hn by (unfold n; lia).
    destruct (high_half (N.land (N.shiftr n 10) 1023)) as (Hhi & Hhi' & _).
    { rewrite land_1023. now apply N.mod_lt. }
    destruct (low_half (N.land n 1023)) as (Hlo & Hlo' & _).
    { rewrite land_1023. now apply N.mod_lt. }
    set (hi := N.lor 55296 (N.land (N.shiftr n 10) 1023)) in *.
    set (lo := N.lor 56320 (N.land n 1023)) in *.
    pose proof (hex4_hex_fixed hi Hhi') as H1.
    pose proof (hex4_hex_fixed lo Hlo') as H2.
    destruct (hex_fixed_4 hi) as (h1 & h2 & h3 & h4 & E1).
    destruct (hex_fixed_4 lo) as (g1 & g2 & g3 & g4 & E2).
    rewrite E1, E2 in *. cbn [hex4_list] in H1, H2.
    rewrite <- Hj.
    apply (scanstring_pair doc begin hi lo); auto.
Qed.


Lemma high_not_low c : is_high_surrogate c = true -> is_low_surrogate c = false.
Proof.
  unfold is_high_surrogate, is_low_surrogate. intros H.
  apply andb_true_iff in H as [_ H]. apply N.leb_le in H.
  apply andb_false_iff. left. apply N.leb_gt. lia.
Qed.

Lemma no_low_escape_other b R : b <> backslash -> no_low_escape (b :: R).
Proof.
  intros Hb. unfold no_low_escape.
  destruct R as [|u [|g1 [|g2 [|g3 [|g4 r]]]]]; try exact I.
  apply N.eqb_neq in Hb. now rewrite Hb.
Qed.

Lemma no_low_escape_simple e R : e <> ord "u" -> no_low_escape (backslash :: e :: R).
Proof.
  intros He. unfold no_low_escape.
  destruct R as [|g1 [|g2 [|g3 [|g4 r]]]]; try exact I.
  apply N.eqb_neq in He. rewrite He. now rewrite andb_false_r.
Qed.

Lemma no_low_escape_u c h1 h2 h3 h4 R :
  hex4 h1 h2 h3 h4 = Some c -> is_low_surrogate c = false ->
  no_low_escape (backslash :: ord "u" :: h1 :: h2 :: h3 :: h4 :: R).
Proof.
  intros Hh Hl. unfold no_low_escape.
  change ((backslash =? backslash) && (ord "u" =? ord "u"))%N with true.
  cbv iota. now rewrite Hh.
Qed.

Lemma no_low_escape_dumps_char c R :
  (c < 1114112)%N -> is_low_surrogate c = false ->
  no_low_escape (dumps_char c ++ R).
Proof.
  intros Hc Hlow. unfold dumps_char.
  destruct (N.eqb_spec c quote) as [->|Hq].
  { now apply no_low_escape_simple. }
  destruct (N.eqb_spec c backslash) as [->|Hb].
  { now apply no_low_escape_simple. }
  destruct (N.eqb_spec c 10) as [->|H10].
  { now apply (no_low_escape_simple (ord "n")). }
  destruct (N.eqb_spec c 13) as [->|H13].
  { now apply (no_low_escape_simple (ord "r")). }
  destruct (N.eqb_spec c 9) as [->|H9].
  { now apply (no_low_escape_simple (ord "t")). }
  destruct (N.eqb_spec c 8) as [->|H8].
  { now apply (no_low_escape_simple (ord "b")). }
  destruct (N.eqb_spec c 12) as [->|H12].
  { now apply (no_low_escape_simple (ord "f")). }
  destruct ((32 <=? c) && (c <=? 126))%N.
  { now apply no_low_escape_other. }
  destruct (N.ltb_spec c 65536) as [Hs|Hs].
  - pose proof (hex4_hex_fixed c Hs) as Hh.
    destruct (hex_fixed_4 c) as (h1 & h2 & h3 & h4 & E).
    rewrite E in *. cbn [hex4_list] in Hh.
    now apply (no_low_escape_u c).
  - cbv zeta. set (n := (c - 65536)%N).
    destruct (high_half (N.land (N.shiftr n 10) 1023)) as (Hhi & Hhi' & _).
    { rewrite land_1023. now apply N.mod_lt. }
    set (hi := N.lor 55296 (N.land (N.shiftr n 10) 1023)) in *.
    pose proof (hex4_hex_fixed hi Hhi') as H1.
    destruct (hex_fixed_4 hi) as (h1 & h2 & h3 & h4 & E1).
    rewrite E1 in *. cbn [hex4_list] in H1.
    apply (no_low_escape_u hi); auto using high_not_low.
Qed.

Lemma flat_map_dumps_nonempty s rest :
  flat_map dumps_char s ++ quote :: rest <> [].
Proof. destruct (flat_map dumps_char s); discriminate. Qed.

(** [scanstring] reads back the string [dumps_str] wrote. *)
Lemma scanstring_dumps doc begin s : forall rest,
  json_text s ->
  scanstring doc begin (flat_map dumps_char s ++ quote :: rest) = POk s rest.
Proof.
  induction s as [|c s IH]; intros rest [Hr Hp]; [reflexivity|].
  cbn [flat_map]. rewrite <- app_assoc.
  inversion Hr as [|? ? Hc Hr']; subst. destruct Hp as [Hp1 Hp2].
  rewrite scanstring_dumps_char.
  - rewrite IH by (split; assumption). reflexivity.
  - exact Hc.
  - apply flat_map_dumps_nonempty.
  - intros Hhigh. destruct s as [|c' s'].
    + now apply no_low_escape_other.
    + cbn [flat_map]. rewrite <- app_assoc.
      inversion Hr' as [|? ? Hc' _]; subst.
      apply no_low_escape_dumps_char; auto.
Qed.


(** *** An object of two string members *)

Lemma skip_ws_other c r : is_ws c = false -> skip_ws (c :: r) = c :: r.
Proof. intros H. cbn [skip_ws]. now rewrite H. Qed.

Lemma skip_ws_space r : skip_ws (32%N :: r) = skip_ws r.
Proof. reflexivity. Qed.

Lemma scan_step_string limit doc objects arrays depth v rest :
  json_text v ->
  scan_step limit doc objects arrays depth
    (quote :: flat_map dumps_char v ++ quote :: rest)
  = POk (PyStr v) rest.
Proof.
  intros Hv. cbn [scan_step].
  change (quote =? quote)%N with true. cbv iota.
  now rewrite scanstring_dumps.
Qed.

Lemma skip_ws_member k v rest :
  skip_ws (member_text k v rest) = member_text k v rest.
Proof. reflexivity. Qed.

Lemma scan_once_S limit doc n depth s :
  scan_once limit doc (S n) depth s
  = scan_step limit doc (object_items limit doc n) (array_items limit doc n)
      depth s.
Proof. reflexivity. Qed.

Lemma object_items_S limit doc n depth acc s :
  object_items limit doc (S n) depth acc s
  = object_step doc (scan_once limit doc n depth)
      (object_items limit doc n depth) acc s.
Proof. reflexivity. Qed.

Lemma scan_once_reads_strings limit doc n depth :
  reads_strings (scan_once limit doc (S n) depth).
Proof. intros v rest Hv. rewrite scan_once_S. now apply scan_step_string. Qed.

Lemma object_step_last doc scan more acc k v rest :
  reads_strings scan -> json_text k -> json_text v ->
  object_step doc scan more acc (member_text k v (ord "}" :: rest))
  = POk (PyDict (dict_set acc k (PyStr v))) rest.
Proof.
  intros Hs Hk Hv. unfold member_text. cbn [object_step].
  change (quote =? quote)%N with true. cbn [negb]. cbv iota.
  rewrite scanstring_dumps by exact Hk.
  rewrite skip_ws_other by reflexivity.
  change (ord ":" =? ord ":")%N with true. cbn [negb]. cbv iota.
  rewrite skip_ws_space, skip_ws_other by reflexivity.
  rewrite Hs by exact Hv.
  rewrite skip_ws_other by reflexivity.
  reflexivity.
Qed.

Lemma object_step_next doc scan more acc k v rest :
  reads_strings scan -> json_text k -> json_text v ->
  object_step doc scan more acc
    (member_text k v (ord "," :: 32%N :: quote :: rest))
  = more (dict_set acc k (PyStr v)) (quote :: rest).
Proof.
  intros Hs Hk Hv. unfold member_text. cbn [object_step].
  change (quote =? quote)%N with true. cbn [negb]. cbv iota.
  rewrite scanstring_dumps by exact Hk.
  rewrite skip_ws_other by reflexivity.
  change (ord ":" =? ord ":")%N with true. cbn [negb]. cbv iota.
  rewrite skip_ws_space, skip_ws_other by reflexivity.
  rewrite Hs by exact Hv.
  rewrite skip_ws_other by reflexivity.
  change (ord "," =? ord "}")%N with false.
  change (ord "," =? ord ",")%N with true. cbv iota.
  now rewrite skip_ws_space, skip_ws_other by reflexivity.
Qed.

Lemma dumps_dict_two k1 v1 k2 v2 :
  dumps_dict [(k1, v1); (k2, v2)]
  = ord "{" :: member_text k1 v1
      (ord "," :: 32%N :: member_text k2 v2 [ord "}"]).
Proof.
  unfold dumps_dict, dumps_str, member_text.
  cbn [map join fst snd]. cbn [lit app].
  repeat (rewrite <- ?app_assoc; cbn [app]; f_equal).
Qed.

Lemma scan_two_members limit doc n depth k1 v1 k2 v2 :
  json_text k1 -> json_text v1 -> json_text k2 -> json_text v2 ->
  scan_once limit doc (S (S (S (S n)))) (S depth)
    (ord "{" :: member_text k1 v1
       (ord "," :: 32%N :: member_text k2 v2 [ord "}"]))
  = POk (PyDict (dict_set (dict_set [] k1 (PyStr v1)) k2 (PyStr v2))) [].
Proof.
  intros Hk1 Hv1 Hk2 Hv2.
  rewrite scan_once_S. cbn [scan_step].
  change (ord "{" =? quote)%N with false.
  change (ord "{" =? ord "{")%N with true. cbv iota.
  rewrite skip_ws_member.
  unfold member_text at 1.
  change (quote =? ord "}")%N with false. cbv iota.
  fold (member_text k1 v1 (ord "," :: 32%N :: member_text k2 v2 [ord "}"])).
  rewrite object_items_S.
  unfold member_text at 2.
  rewrite object_step_next
    by (assumption || apply scan_once_reads_strings).
  fold (member_text k2 v2 [ord "}"]).
  rewrite object_items_S.
  rewrite object_step_last
    by (assumption || apply scan_once_reads_strings).
  reflexivity.
Qed.


Lemma loads_dumps_two rt k1 v1 k2 v2 :
  rt_parse_depth rt <> 0 ->
  json_text k1 -> json_text v1 -> json_text k2 -> json_text v2 ->
  LightShow.loads rt (dumps_dict [(k1, v1); (k2, v2)])
  = Ok (PyDict (dict_set (dict_set [] k1 (PyStr v1)) k2 (PyStr v2))).
Proof.
  intros Hd Hk1 Hv1 Hk2 Hv2. unfold LightShow.loads.
  rewrite dumps_dict_two.
  set (inner := member_text k1 v1
                  (ord "," :: 32%N :: member_text k2 v2 [ord "}"])).
  assert (exists n, 2 * length (ord "{" :: inner) + 2 = S (S (S (S n))))
    as [n ->].
  { exists (2 * length inner). cbn [length]. lia. }
  destruct (rt_parse_depth rt) as [|depth] eqn:Edepth; [congruence|].
  assert (loads_steps (S (S (S (S n)))) rt (ord "{" :: inner)
          = POk (PyDict (dict_set (dict_set [] k1 (PyStr v1)) k2 (PyStr v2))) [])
    as ->; [|reflexivity].
  unfold loads_steps. rewrite Edepth.
  change (skip_ws (ord "{" :: inner)) with (ord "{" :: inner).
  unfold inner. rewrite scan_two_members by assumption.
  reflexivity.
Qed.

(** *** The body is ASCII *)

Lemma ascii_hex_fixed k n : ascii_text (hex_fixed k n).
Proof.
  revert n; induction k as [|k IH]; intros n; cbn [hex_fixed]; [constructor|].
  apply Forall_app. split; [apply IH|]. constructor; [|constructor].
  unfold hex_digit. destruct (N.ltb_spec (N.land n 15) 10); [lia|].
  assert (N.land n 15 < 16)%N; [|lia].
  change 15%N with (N.ones 4). rewrite N.land_ones. now apply N.mod_lt.
Qed.

Lemma ascii_dumps_char c : ascii_text (dumps_char c).
Proof.
  unfold dumps_char.
  repeat match goal with
  | |- ascii_text (if ?b then _ else _) => destruct b eqn:?
  end;
  try (repeat constructor; fail).
  - apply andb_true_iff in Heqb6 as [_ H]. apply N.leb_le in H.
    constructor; [lia | constructor].
  - apply (Forall_app _ (lit "\u")). split; [repeat constructor | apply ascii_hex_fixed].
  - cbv zeta.
    apply (Forall_app _ (lit "\u")). split; [repeat constructor|].
    apply Forall_app. split; [apply ascii_hex_fixed|].
    apply (Forall_app _ (lit "\u")). split; [repeat constructor | apply ascii_hex_fixed].
Qed.

Lemma ascii_flat_map_dumps s : ascii_text (flat_map dumps_char s).
Proof.
  induction s as [|c s IH]; cbn [flat_map]; [constructor|].
  apply Forall_app. split; [apply ascii_dumps_char | exact IH].
Qed.

Lemma ascii_member_text k v rest :
  ascii_text rest -> ascii_text (member_text k v rest).
Proof.
  intros Hr. unfold member_text.
  constructor; [reflexivity|].
  apply Forall_app. split; [apply ascii_flat_map_dumps|].
  do 4 (constructor; [reflexivity|]).
  apply Forall_app. split; [apply ascii_flat_map_dumps|].
  constructor; [reflexivity | exact Hr].
Qed.

Lemma ascii_dumps_two k1 v1 k2 v2 :
  ascii_text (dumps_dict [(k1, v1); (k2, v2)]).
Proof.
  rewrite dumps_dict_two.
  constructor; [reflexivity|]. apply ascii_member_text.
  do 2 (constructor; [reflexivity|]). apply ascii_member_text.
  repeat constructor.
Qed.

Lemma decode_encode_ascii s :
  ascii_text s -> Utf8.decode (Utf8.encode_ascii s) = Ok s.
Proof.
  unfold Utf8.decode. generalize 0.
  induction s as [|c s IH]; intros pos Hs; [reflexivity|].
  inversion Hs as [|? ? Hc Hs']; subst.
  cbn [Utf8.encode_ascii map Utf8.decode_from].
  assert (Utf8.bv (Utf8.byte_of_cp c) = c) as Hb.
  { unfold Utf8.bv, Utf8.byte_of_cp.
    destruct (Byte.of_N c) as [b|] eqn:E.
    - now apply Byte.to_of_N.
    - apply Byte.of_N_None_iff in E. lia. }
  rewrite Hb.
  assert ((c <? 128)%N = true) as -> by (now apply N.ltb_lt).
  unfold Utf8.encode_ascii in IH. rewrite IH by exact Hs'.
  reflexivity.
Qed.

(** A client that decodes the body of a response of two string members
    and parses it gets the two members back. *)
Lemma parse_body_dumps_two rt k1 v1 k2 v2 :
  rt_parse_depth rt <> 0 ->
  json_text k1 -> json_text v1 -> json_text k2 -> json_text v2 ->
  parse_body rt (Utf8.encode_ascii (dumps_dict [(k1, v1); (k2, v2)]))
  = Ok (PyDict (dict_set (dict_set [] k1 (PyStr v1)) k2 (PyStr v2))).
Proof.
  intros. unfold parse_body.
  rewrite decode_encode_ascii by apply ascii_dumps_two.
  cbn [Exc.bind]. now apply loads_dumps_two.
Qed.


(** *** The decoder yields scalar values *)

Lemma land_mod n k : N.land n (N.ones k) = (n mod 2 ^ k)%N.
Proof. apply N.land_ones. Qed.

Lemma cp2_arith b0 b1 :
  Utf8.cp2 b0 b1 = (Utf8.bv b0 mod 32 * 64 + Utf8.bv b1 mod 64)%N.
Proof.
  unfold Utf8.cp2.
  change 63%N with (N.ones 6). change 31%N with (N.ones 5).
  rewrite !land_mod.
  now rewrite lor_shiftl_low by (apply N.mod_lt; discriminate).
Qed.

Lemma cp3_arith b0 b1 b2 :
  Utf8.cp3 b0 b1 b2
  = (Utf8.bv b0 mod 16 * 4096 + (Utf8.bv b1 mod 64 * 64 + Utf8.bv b2 mod 64))%N.
Proof.
  unfold Utf8.cp3.
  change 63%N with (N.ones 6). change 15%N with (N.ones 4).
  rewrite !land_mod.
  pose proof (N.mod_lt (Utf8.bv b1) (2 ^ 6)) as H1.
  pose proof (N.mod_lt (Utf8.bv b2) (2 ^ 6)) as H2.
  rewrite (lor_shiftl_low (Utf8.bv b1 mod 2 ^ 6) 6)
    by (apply N.mod_lt; discriminate).
  rewrite lor_shiftl_low; [reflexivity|].
  change (2 ^ 6)%N with 64%N in *. change (2 ^ 12)%N with 4096%N. lia.
Qed.

Lemma cp4_arith b0 b1 b2 b3 :
  Utf8.cp4 b0 b1 b2 b3
  = (Utf8.bv b0 mod 8 * 262144
     + (Utf8.bv b1 mod 64 * 4096
        + (Utf8.bv b2 mod 64 * 64 + Utf8.bv b3 mod 64)))%N.
Proof.
  unfold Utf8.cp4.
  change 63%N with (N.ones 6). change 7%N with (N.ones 3).
  rewrite !land_mod.
  pose proof (N.mod_lt (Utf8.bv b1) (2 ^ 6)) as H1.
  pose proof (N.mod_lt (Utf8.bv b2) (2 ^ 6)) as H2.
  pose proof (N.mod_lt (Utf8.bv b3) (2 ^ 6)) as H3.
  rewrite (lor_shiftl_low (Utf8.bv b2 mod 2 ^ 6) 6)
    by (apply N.mod_lt; discriminate).
  rewrite (lor_shiftl_low (Utf8.bv b1 mod 2 ^ 6) 12).
  2: { change (2 ^ 6)%N with 64%N in *. change (2 ^ 12)%N with 4096%N. lia. }
  rewrite lor_shiftl_low; [reflexivity|].
  change (2 ^ 6)%N with 64%N in *. change (2 ^ 12)%N with 4096%N.
  change (2 ^ 18)%N with 262144%N. lia.
Qed.

Lemma mod_range n m lo :
  (m <> 0)%N -> (lo * m <= n < lo * m + m)%N -> (n mod m = n - lo * m)%N.
Proof.
  intros Hm Hn. symmetry. apply (N.mod_unique n m lo); lia.
Qed.

Lemma scalar_below c : (c < 55296)%N -> scalar c.
Proof.
  intros H. split; [lia|]. unfold is_surrogate.
  apply andb_false_iff. left. apply N.leb_gt. lia.
Qed.

Lemma scalar_above c : (57343 < c < 1114112)%N -> scalar c.
Proof.
  intros H. split; [lia|]. unfold is_surrogate.
  apply andb_false_iff. right. apply N.leb_gt. lia.
Qed.

Lemma continuation_range b :
  negb (Utf8.is_continuation b) = false -> (128 <= Utf8.bv b < 192)%N.
Proof.
  unfold Utf8.is_continuation. intros H. apply negb_false_iff in H.
  apply andb_true_iff in H as [H1 H2].
  apply N.leb_le in H1. apply N.ltb_lt in H2. lia.
Qed.

Lemma scalar_cp2 b0 b1 :
  (Utf8.bv b0 < 224)%N -> negb (Utf8.is_continuation b1) = false ->
  scalar (Utf8.cp2 b0 b1).
Proof.
  intros H0 H1. apply scalar_below. rewrite cp2_arith.
  pose proof (N.mod_lt (Utf8.bv b0) 32). pose proof (N.mod_lt (Utf8.bv b1) 64).
  lia.
Qed.

Lemma scalar_cp3 b0 b1 b2 :
  (224 <= Utf8.bv b0 < 240)%N ->
  Utf8.bad_second3 b0 b1 = false ->
  negb (Utf8.is_continuation b2) = false ->
  scalar (Utf8.cp3 b0 b1 b2).
Proof.
  intros H0 H1 H2. unfold Utf8.bad_second3 in H1.
  apply orb_false_iff in H1 as [H1 H1'].
  apply continuation_range in H1, H2.
  rewrite cp3_arith.
  rewrite (mod_range (Utf8.bv b0) 16 14) by lia.
  rewrite (mod_range (Utf8.bv b1) 64 2) by lia.
  rewrite (mod_range (Utf8.bv b2) 64 2) by lia.
  destruct (N.ltb_spec (Utf8.bv b1) 160); apply N.eqb_neq in H1'.
  - destruct (N.lt_ge_cases (Utf8.bv b0) 238).
    + apply scalar_below. lia.
    + apply scalar_above. lia.
  - destruct (N.lt_ge_cases (Utf8.bv b0) 237).
    + apply scalar_below. lia.
    + apply scalar_above. lia.
Qed.

Lemma scalar_cp4 b0 b1 b2 b3 :
  (240 <= Utf8.bv b0 < 245)%N ->
  Utf8.bad_second4 b0 b1 = false ->
  negb (Utf8.is_continuation b2) = false ->
  negb (Utf8.is_continuation b3) = false ->
  scalar (Utf8.cp4 b0 b1 b2 b3).
Proof.
  intros H0 H1 H2 H3. unfold Utf8.bad_second4 in H1.
  apply orb_false_iff in H1 as [H1 H1'].
  apply continuation_range in H1, H2, H3.
  rewrite cp4_arith.
  rewrite (mod_range (Utf8.bv b0) 8 30) by lia.
  rewrite (mod_range (Utf8.bv b1) 64 2) by lia.
  rewrite (mod_range (Utf8.bv b2) 64 2) by lia.
  rewrite (mod_range (Utf8.bv b3) 64 2) by lia.
  apply scalar_above.
  destruct (N.ltb_spec (Utf8.bv b1) 144); apply N.eqb_neq in H1'; lia.
Qed.

Lemma decode_from_scalar bs : forall pos s,
  Utf8.decode_from pos bs = Ok s -> scalar_text s.
Proof.
  assert (forall n bs, length bs < n -> forall pos s,
            Utf8.decode_from pos bs = Ok s -> scalar_text s) as H.
  { induction n as [|n IH]; intros l Hl pos s; [lia|].
    destruct l as [|b0 r0]; cbn [Utf8.decode_from].
    { intros [= <-]. constructor. }
    assert (forall (c : codepoint) r p, length r < n -> scalar c ->
              Exc.bind (Utf8.decode_from p r) (fun s' => Ok (c :: s')) = Ok s ->
              scalar_text s) as Hstep.
    { intros c r p Hr Hc Hb.
      destruct (Utf8.decode_from p r) as [s'|e] eqn:E; [|discriminate].
      cbn in Hb. injection Hb as <-.
      constructor; [exact Hc | eapply IH; eauto]. }
    destruct (N.ltb_spec (Utf8.bv b0) 128) as [L1|L1].
    { apply Hstep; [simpl in Hl; lia | apply scalar_below; lia]. }
    destruct (N.ltb_spec (Utf8.bv b0) 194) as [L2|L2]; [discriminate|].
    destruct (N.ltb_spec (Utf8.bv b0) 224) as [L3|L3].
    { destruct r0 as [|b1 r1]; [discriminate|].
      destruct (negb (Utf8.is_continuation b1)) eqn:C1; [discriminate|].
      apply Hstep; [simpl in Hl; lia | now apply scalar_cp2]. }
    destruct (N.ltb_spec (Utf8.bv b0) 240) as [L4|L4].
    { destruct r0 as [|b1 [|b2 r2]]; try discriminate.
      - destruct (Utf8.bad_second3 b0 b1); discriminate.
      - destruct (Utf8.bad_second3 b0 b1) eqn:C1; [discriminate|].
        destruct (negb (Utf8.is_continuation b2)) eqn:C2; [discriminate|].
        apply Hstep; [simpl in Hl; lia | apply scalar_cp3; auto; lia]. }
    destruct (N.ltb_spec (Utf8.bv b0) 245) as [L5|L5]; [|discriminate].
    destruct r0 as [|b1 [|b2 [|b3 r3]]]; try discriminate.
    - destruct (Utf8.bad_second4 b0 b1); discriminate.
    - destruct (Utf8.bad_second4 b0 b1); [discriminate|].
      destruct (negb (Utf8.is_continuation b2)); discriminate.
    - destruct (Utf8.bad_second4 b0 b1) eqn:C1; [discriminate|].
      destruct (negb (Utf8.is_continuation b2)) eqn:C2; [discriminate|].
      destruct (negb (Utf8.is_continuation b3)) eqn:C3; [discriminate|].
      apply Hstep; [simpl in Hl; lia | apply scalar_cp4; auto; lia]. }
  intros pos s. apply (H (S (length bs))). lia.
Qed.

Lemma decode_scalar bs s : Utf8.decode bs = Ok s -> scalar_text s.
Proof. apply decode_from_scalar. Qed.


(** *** Strings the scanner yields *)

Lemma hex_value_bound c d : hex_value c = Some d -> (d < 16)%N.
Proof.
  unfold hex_value.
  destruct ((48 <=? c) && (c <=? 57))%N eqn:E1.
  { apply andb_true_iff in E1 as [H1 H2]. apply N.leb_le in H1, H2.
    intros [= <-]. lia. }
  destruct ((97 <=? c) && (c <=? 102))%N eqn:E2.
  { apply andb_true_iff in E2 as [H1 H2]. apply N.leb_le in H1, H2.
    intros [= <-]. lia. }
  destruct ((65 <=? c) && (c <=? 70))%N eqn:E3; [|discriminate].
  apply andb_true_iff in E3 as [H1 H2]. apply N.leb_le in H1, H2.
  intros [= <-]. lia.
Qed.

Lemma hex4_bound a b c d x : hex4 a b c d = Some x -> (x < 65536)%N.
Proof.
  unfold hex4.
  destruct (hex_value a) as [x1|] eqn:E1; [|discriminate].
  destruct (hex_value b) as [x2|] eqn:E2; [|discriminate].
  destruct (hex_value c) as [x3|] eqn:E3; [|discriminate].
  destruct (hex_value d) as [x4|] eqn:E4; [|discriminate].
  apply hex_value_bound in E1, E2, E3, E4. intros H.
  assert (x = 4096 * x1 + 256 * x2 + 16 * x3 + x4)%N by congruence. lia.
Qed.

Lemma simple_escape_small e c : simple_escape e = Some c -> (c < 128)%N.
Proof.
  unfold simple_escape.
  repeat match goal with
  | |- (if ?b then _ else _) = _ -> _ => destruct b
  end; try discriminate; intros [= <-]; reflexivity.
Qed.

Lemma join_range hi lo :
  (65536 <= join_surrogates hi lo < 1114112)%N.
Proof.
  unfold join_surrogates. rewrite !land_1023.
  rewrite lor_shiftl_low by (now apply N.mod_lt).
  change (2 ^ 10)%N with 1024%N.
  pose proof (N.mod_lt hi 1024 ltac:(discriminate)) as H1.
  pose proof (N.mod_lt lo 1024 ltac:(discriminate)) as H2.
  revert H1 H2. generalize (hi mod 1024)%N (lo mod 1024)%N. intros; lia.
Qed.

Lemma not_high_above c : (56319 < c)%N -> is_high_surrogate c = false.
Proof.
  intros H. unfold is_high_surrogate. apply andb_false_iff. right.
  apply N.leb_gt. lia.
Qed.

Lemma not_high_below c : (c < 55296)%N -> is_high_surrogate c = false.
Proof.
  intros H. unfold is_high_surrogate. apply andb_false_iff. left.
  apply N.leb_gt. lia.
Qed.

Lemma not_low_above c : (57343 < c)%N -> is_low_surrogate c = false.
Proof.
  intros H. unfold is_low_surrogate. apply andb_false_iff. right.
  apply N.leb_gt. lia.
Qed.

Lemma not_low_below c : (c < 56320)%N -> is_low_surrogate c = false.
Proof.
  intros H. unfold is_low_surrogate. apply andb_false_iff. left.
  apply N.leb_gt. lia.
Qed.

Lemma low_not_high c : is_low_surrogate c = true -> is_high_surrogate c = false.
Proof.
  unfold is_low_surrogate. intros H. apply andb_true_iff in H as [H _].
  apply N.leb_le in H. apply not_high_above. lia.
Qed.

Lemma not_surrogate_cases c :
  is_surrogate c = false ->
  is_high_surrogate c = false /\ is_low_surrogate c = false.
Proof.
  unfold is_surrogate. intros H. apply andb_false_iff in H as [H|H];
    apply N.leb_gt in H.
  - split; [apply not_high_below | apply not_low_below]; lia.
  - split; [apply not_high_above | apply not_low_above]; lia.
Qed.

Lemma pmap_ok_inv {A B} (f : A -> B) p y r :
  pmap f p = POk y r -> exists x, p = POk x r /\ y = f x.
Proof.
  destruct p as [x r'| |]; simpl; try discriminate.
  intros [= <- <-]. eauto.
Qed.

Lemma json_text_nil : json_text [].
Proof. split; [constructor | exact I]. Qed.

Lemma json_text_cons c x :
  (c < 1114112)%N -> json_text x ->
  (is_high_surrogate c = true -> head_low x -> False) ->
  json_text (c :: x).
Proof.
  intros Hc [Hr Hp] Hh. split; [now constructor|].
  split; [|exact Hp].
  destruct x as [|c' x']; [exact I|].
  intros Hhigh. destruct (is_low_surrogate c') eqn:E; [|reflexivity].
  exfalso. apply Hh; assumption.
Qed.

Lemma scanstring_short_low doc begin s x r :
  starts_low_escape s -> length s <= 6 -> scanstring doc begin s <> POk x r.
Proof.
  intros Hs Hl.
  destruct s as [|b [|u [|g1 [|g2 [|g3 [|g4 r3]]]]]]; try contradiction.
  destruct Hs as (-> & -> & c & Hc & Hlow).
  destruct r3; [|simpl in Hl; lia].
  cbn [scanstring].
  change (backslash =? quote)%N with false.
  change (backslash =? backslash)%N with true.
  change (ord "u" =? ord "u")%N with true. cbv iota.
  rewrite Hc, (low_not_high c Hlow). cbn. discriminate.
Qed.

(** What [scanstring] yields from a scalar text is a [json_text], and it
    starts with a low surrogate only when the text starts with the escape
    of one. *)
Lemma scanstring_json_text doc begin s : forall x r,
  scalar_text s -> scanstring doc begin s = POk x r ->
  json_text x /\ (head_low x -> starts_low_escape s).
Proof.
  assert (forall n s, length s < n -> forall x r,
            scalar_text s -> scanstring doc begin s = POk x r ->
            json_text x /\ (head_low x -> starts_low_escape s)) as H.
  { induction n as [|n IH]; intros l Hl x r Hsc Hscan; [lia|].
    destruct l as [|c s1]; [discriminate|].
    inversion Hsc as [|? ? [Hc Hcs] Hs1]; subst.
    cbn [scanstring] in Hscan.
    destruct (N.eqb_spec c quote) as [->|Hq].
    { injection Hscan as <- <-. split; [apply json_text_nil | intros []]. }
    destruct (N.eqb_spec c backslash) as [->|Hb].
    - destruct s1 as [|e r1]; [discriminate|].
      destruct (N.eqb_spec e (ord "u")) as [->|He].
      + destruct r1 as [|h1 [|h2 [|h3 [|h4 r2]]]]; try discriminate.
        destruct (hex4 h1 h2 h3 h4) as [c1|] eqn:Hh; [|discriminate].
        pose proof (hex4_bound _ _ _ _ _ Hh) as Hc1.
        assert (scalar_text r2) as Hr2.
        { inversion Hs1 as [|? ? _ T1]; inversion T1 as [|? ? _ T2];
            inversion T2 as [|? ? _ T3]; inversion T3 as [|? ? _ T4];
            inversion T4; assumption. }
        assert (forall x2,
                  scanstring doc begin r2 = POk x2 r ->
                  (is_high_surrogate c1 = true -> head_low x2 -> False) ->
                  x = c1 :: x2 ->
                  json_text x /\
                  (head_low x ->
                   starts_low_escape
                     (backslash :: ord "u" :: h1 :: h2 :: h3 :: h4 :: r2)))
          as Hplain.
        { intros x2 E2 Hno ->.
          destruct (IH r2 ltac:(simpl in Hl; lia) x2 r Hr2 E2) as [J _].
          split.
          - apply json_text_cons; auto. lia.
          - intros Hlow. cbn [head_low] in Hlow. cbn [starts_low_escape].
            repeat split; eauto. }
        assert (forall x2,
                  scanstring doc begin r2 = POk x2 r -> head_low x2 ->
                  starts_low_escape r2) as Hhead.
        { intros x2 E2.
          apply (IH r2 ltac:(simpl in Hl; lia) x2 r Hr2 E2). }
        destruct (is_high_surrogate c1) eqn:Hhigh; cbn [andb] in Hscan.
        2: { apply pmap_ok_inv in Hscan as (x2 & E2 & ->).
             apply (Hplain x2); auto. discriminate. }
        destruct (6 <? length r2) eqn:Hlen.
        2: { apply pmap_ok_inv in Hscan as (x2 & E2 & ->).
             apply (Hplain x2); auto. intros _ Hlow.
             apply Nat.ltb_ge in Hlen.
             exact (scanstring_short_low doc begin r2 x2 r
                      (Hhead x2 E2 Hlow) Hlen E2). }
        destruct r2 as [|b [|u [|g1 [|g2 [|g3 [|g4 r3]]]]]];
          try (apply pmap_ok_inv in Hscan as (x2 & E2 & ->);
               apply (Hplain x2); auto; intros _ Hlow;
               apply (Hhead x2 E2) in Hlow; exact Hlow).
        destruct ((b =? backslash) && (u =? ord "u"))%N eqn:Ebu.
        * destruct (hex4 g1 g2 g3 g4) as [c2|] eqn:Hg; [|discriminate].
          destruct (is_low_surrogate c2) eqn:Hlow2.
          -- apply pmap_ok_inv in Hscan as (x3 & E3 & ->).
             assert (scalar_text r3) as Hr3.
             { inversion Hr2 as [|? ? _ T1]; inversion T1 as [|? ? _ T2];
                 inversion T2 as [|? ? _ T3]; inversion T3 as [|? ? _ T4];
                 inversion T4 as [|? ? _ T5]; inversion T5; assumption. }
             destruct (IH r3 ltac:(simpl in Hl; lia) x3 r Hr3 E3) as [J _].
             pose proof (join_range c1 c2) as Hj.
             split.
             ++ apply json_text_cons; auto; [lia|].
                rewrite not_high_above by lia. discriminate.
             ++ cbn [head_low]. rewrite not_low_above by lia. discriminate.
          -- apply pmap_ok_inv in Hscan as (x2 & E2 & ->).
             apply (Hplain x2); auto. intros _ Hlow.
             apply (Hhead x2 E2) in Hlow. cbn [starts_low_escape] in Hlow.
             destruct Hlow as (_ & _ & c' & Hc' & Hl').
             rewrite Hg in Hc'. injection Hc' as <-. congruence.
        * apply pmap_ok_inv in Hscan as (x2 & E2 & ->).
          apply (Hplain x2); auto. intros _ Hlow.
          apply (Hhead x2 E2) in Hlow. cbn [starts_low_escape] in Hlow.
          destruct Hlow as (-> & -> & _). discriminate Ebu.
      + destruct (simple_escape e) as [c'|] eqn:Es; [|discriminate].
        apply pmap_ok_inv in Hscan as (x1 & E1 & ->).
        apply simple_escape_small in Es.
        assert (scalar_text r1) as Hr1 by (inversion Hs1; assumption).
        destruct (IH r1 ltac:(simpl in Hl; lia) x1 r Hr1 E1) as [J _].
        split.
        * apply json_text_cons; auto; [lia|].
          rewrite not_high_below by lia. discriminate.
        * cbn [head_low]. rewrite not_low_below by lia. discriminate.
    - destruct (c <=? 31)%N; [discriminate|].
      apply pmap_ok_inv in Hscan as (x1 & E1 & ->).
      destruct (IH s1 ltac:(simpl in Hl; lia) x1 r Hs1 E1) as [J _].
      destruct (not_surrogate_cases c Hcs) as [Hnh Hnl].
      split.
      + apply json_text_cons; auto. rewrite Hnh. discriminate.
      + cbn [head_low]. rewrite Hnl. discriminate. }
  intros x r. apply (H (S (length s))). lia.
Qed.


(** *** Values the scanner yields *)

Lemma top_ok_value v : top_ok v -> value_ok v.
Proof. destruct v; simpl; auto. Qed.

Lemma dict_set_ok d k v : members_ok d -> value_ok v -> members_ok (dict_set d k v).
Proof.
  intros Hd Hv. induction Hd as [|[k' v'] d' H Hd' IH]; simpl.
  - repeat constructor. exact Hv.
  - destruct (str_eqb k' k); constructor; auto.
Qed.

Lemma dict_lookup_ok d k v : members_ok d -> dict_lookup d k = Some v -> value_ok v.
Proof.
  intros Hd. induction Hd as [|[k' v'] d' H Hd' IH]; simpl; [discriminate|].
  destruct (str_eqb k' k); [|exact IH].
  intros [= <-]. exact H.
Qed.

Lemma yields_weaken (P Q : pyvalue -> Prop) p :
  (forall v, P v -> Q v) -> yields P p -> yields Q p.
Proof. destruct p; simpl; auto. Qed.

Lemma match_number_flat limit doc s :
  yields (fun v => flat v /\ top_ok v) (match_number limit doc s).
Proof.
  unfold match_number, parse_int, expecting_value.
  repeat match goal with
  | |- context [let '(_, _) := ?x in _] => destruct x
  | |- context [match ?x with _ => _ end] => destruct x
  end; simpl; auto.
Qed.

Lemma scanstring_rest_scalar doc begin s x r :
  scalar_text s -> scanstring doc begin s = POk x r -> scalar_text r.
Proof.
  intros Hs E. pose proof (scanstring_consumes doc begin s) as H.
  rewrite E in H. destruct H as [H _]. eapply suffix_Forall; eauto.
Qed.

Lemma skip_ws_scalar s : scalar_text s -> scalar_text (skip_ws s).
Proof. apply suffix_Forall, skip_ws_suffix. Qed.

Lemma scalar_tail c s : scalar_text (c :: s) -> scalar_text s.
Proof. intros H. now inversion H. Qed.

Lemma scan_step_ok limit doc objects arrays depth s :
  scalar_text s ->
  (forall d acc l, scalar_text l -> members_ok acc -> yields top_ok (objects d acc l)) ->
  (forall d acc l, yields top_ok (arrays d acc l)) ->
  yields top_ok (scan_step limit doc objects arrays depth s).
Proof.
  intros Hs Ho Ha. unfold scan_step.
  destruct s as [|c r]; [exact I|].
  pose proof (skip_ws_scalar r (scalar_tail c r Hs)) as Hw.
  destruct (c =? quote)%N.
  { destruct (scanstring doc (pos_of doc (c :: r)) r) as [x r'| |] eqn:E;
      simpl; auto.
    exact (proj1 (scanstring_json_text doc _ r x r' (scalar_tail c r Hs) E)). }
  destruct (c =? ord "{")%N.
  { destruct depth as [|d]; [exact I|].
    destruct (skip_ws r) as [|c' r'] eqn:E.
    - apply Ho; [assumption | constructor].
    - destruct (c' =? ord "}")%N; [constructor|].
      apply Ho; [assumption | constructor]. }
  destruct (c =? ord "[")%N.
  { destruct depth as [|d]; [exact I|].
    destruct (skip_ws r) as [|c' r'] eqn:E; [apply Ha|].
    destruct (c' =? ord "]")%N; [exact I | apply Ha]. }
  repeat match goal with
  | |- context [strip_prefix ?a ?b] => destruct (strip_prefix a b)
  end; try exact I.
  eapply yields_weaken; [|apply match_number_flat]. intros v [_ H]. exact H.
Qed.

Lemma scan_step_flat limit doc objects arrays s :
  yields flat (scan_step limit doc objects arrays 0 s).
Proof.
  unfold scan_step.
  destruct s as [|c r]; [exact I|].
  destruct (c =? quote)%N.
  { destruct (scanstring doc (pos_of doc (c :: r)) r); exact I. }
  destruct (c =? ord "{")%N; [exact I|].
  destruct (c =? ord "[")%N; [exact I|].
  repeat match goal with
  | |- context [strip_prefix ?a ?b] => destruct (strip_prefix a b)
  end; try exact I.
  eapply yields_weaken; [|apply match_number_flat]. intros v [H _]. exact H.
Qed.

Lemma object_step_ok doc scan more acc s :
  scalar_text s -> members_ok acc ->
  (forall l, consumes (scan l) l) ->
  (forall l, scalar_text l -> yields top_ok (scan l)) ->
  (forall a l, scalar_text l -> members_ok a -> yields top_ok (more a l)) ->
  yields top_ok (object_step doc scan more acc s).
Proof.
  intros Hs Hacc Hc Hscan Hmore. unfold object_step.
  destruct s as [|c r]; [exact I|].
  destruct (negb (c =? quote)%N); [exact I|].
  destruct (scanstring doc (pos_of doc (c :: r)) r) as [key r1| |] eqn:E;
    try exact I.
  pose proof (scanstring_rest_scalar _ _ _ _ _ (scalar_tail c r Hs) E) as Hr1.
  pose proof (skip_ws_scalar r1 Hr1) as Hw1.
  destruct (skip_ws r1) as [|colon r2]; [exact I|].
  destruct (negb (colon =? ord ":")%N); [exact I|].
  pose proof (skip_ws_scalar r2 (scalar_tail colon r2 Hw1)) as Hw2.
  pose proof (Hscan _ Hw2) as Hv. pose proof (Hc (skip_ws r2)) as Hcv.
  destruct (scan (skip_ws r2)) as [v r3| |]; try exact I.
  simpl in Hv. destruct Hcv as [Hsuf _].
  pose proof (skip_ws_scalar r3 (suffix_Forall _ _ _ Hsuf Hw2)) as Hw3.
  pose proof (dict_set_ok acc key v Hacc (top_ok_value v Hv)) as Hacc'.
  cbv zeta.
  destruct (skip_ws r3) as [|c' r4]; [exact I|].
  destruct (c' =? ord "}")%N; [exact Hacc'|].
  destruct (c' =? ord ",")%N; [|exact I].
  apply Hmore; [|exact Hacc'].
  apply skip_ws_scalar. eapply scalar_tail; eauto.
Qed.

Lemma array_step_ok doc scan more acc s :
  (forall a l, yields top_ok (more a l)) ->
  yields top_ok (array_step doc scan more acc s).
Proof.
  intros Hmore. unfold array_step.
  destruct (scan s) as [v r1| |]; try exact I.
  destruct (skip_ws r1) as [|c' r2]; [exact I|].
  destruct (c' =? ord "]")%N; [exact I|].
  destruct (c' =? ord ",")%N; [apply Hmore | exact I].
Qed.

Lemma scan_ok limit doc steps :
  (forall depth s, scalar_text s ->
     yields top_ok (scan_once limit doc steps depth s))
  /\ (forall depth acc s, scalar_text s -> members_ok acc ->
        yields top_ok (object_items limit doc steps depth acc s))
  /\ (forall depth acc s, yields top_ok (array_items limit doc steps depth acc s)).
Proof.
  induction steps as [|n (IHs & IHo & IHa)].
  - repeat split; intros; exact I.
  - repeat split; intros; cbn [scan_once object_items array_items].
    + apply scan_step_ok; auto.
    + apply object_step_ok; auto. apply scan_consumes.
    + apply array_step_ok; auto.
Qed.

Lemma scan_once_flat limit doc steps s :
  yields flat (scan_once limit doc steps 0 s).
Proof. destruct steps; [exact I | apply scan_step_flat]. Qed.

Lemma loads_steps_ok steps rt s :
  scalar_text s -> yields top_ok (loads_steps steps rt s).
Proof.
  intros Hs. unfold loads_steps.
  assert (yields top_ok
            match scan_once (rt_int_max_str_digits rt) s steps
                    (rt_parse_depth rt) (skip_ws s) with
            | POk v r =>
              match skip_ws r with
              | [] => POk v []
              | _ :: _ => PRaise (errmsg s "Extra data" (pos_of s (skip_ws r)))
              end
            | other => other
            end) as H.
  { pose proof (proj1 (scan_ok (rt_int_max_str_digits rt) s steps)
                  (rt_parse_depth rt) (skip_ws s) (skip_ws_scalar s Hs)) as H.
    destruct (scan_once _ _ _ _ _) as [v r| |]; try exact I.
    destruct (skip_ws r); [exact H | exact I]. }
  destruct s as [|c r]; [exact H|].
  destruct c as [|p]; [exact H|].
  repeat (destruct p as [p|p|]; try exact H). exact I.
Qed.

Lemma loads_steps_deep steps rt s d :
  loads_steps steps rt s = POk (PyDict d) [] -> rt_parse_depth rt <> 0.
Proof.
  intros E Hd. unfold loads_steps in E. rewrite Hd in E.
  pose proof (scan_once_flat (rt_int_max_str_digits rt) s steps (skip_ws s)) as H.
  destruct (scan_once _ _ _ _ _) as [v r| |].
  - assert (v = PyDict d) as ->; [|exact H].
    destruct s as [|c s'].
    + destruct (skip_ws r); [congruence | discriminate].
    + destruct c as [|p];
        [destruct (skip_ws r); [congruence | discriminate]|].
      repeat (destruct p as [p|p|];
              try (destruct (skip_ws r); [congruence | discriminate])).
  - destruct s as [|c s']; [discriminate|].
    destruct c as [|p]; [discriminate|].
    repeat (destruct p as [p|p|]; try discriminate).
  - destruct s as [|c s']; [discriminate|].
    destruct c as [|p]; [discriminate|].
    repeat (destruct p as [p|p|]; try discriminate).
Qed.


(** *** What the handler parsed, and what the client reads back *)

Lemma parse_body_ok rt post_data v : parse_body rt post_data = Ok v -> top_ok v.
Proof.
  unfold parse_body.
  destruct (Utf8.decode post_data) as [text|e] eqn:Ed; [|discriminate].
  cbn [Exc.bind]. unfold LightShow.loads.
  pose proof (loads_steps_ok (2 * length text + 2) rt text
                (decode_scalar post_data text Ed)) as H.
  destruct (loads_steps _ rt text) as [v' r| |]; try discriminate.
  intros [= <-]. exact H.
Qed.

Lemma parse_body_deep rt post_data d :
  parse_body rt post_data = Ok (PyDict d) -> rt_parse_depth rt <> 0.
Proof.
  unfold parse_body.
  destruct (Utf8.decode post_data) as [text|e]; [|discriminate].
  cbn [Exc.bind]. unfold LightShow.loads.
  destruct (loads_steps (2 * length text + 2) rt text) as [v r| |] eqn:E;
    try discriminate.
  intros [= ->].
  assert (r = []) as ->.
  { unfold loads_steps in E.
    destruct text as [|c t].
    - destruct (scan_once _ _ _ _ _) as [v' r'| |]; try discriminate.
      destruct (skip_ws r'); [congruence | discriminate].
    - destruct c as [|p].
      { destruct (scan_once _ _ _ _ _) as [v' r'| |]; try discriminate.
        destruct (skip_ws r'); [congruence | discriminate]. }
      repeat (destruct p as [p|p|];
              try (destruct (scan_once _ _ _ _ _) as [v' r'| |];
                   try discriminate;
                   destruct (skip_ws r'); [congruence | discriminate])).
      discriminate. }
  eapply loads_steps_deep; eauto.
Qed.

Lemma parse_body_member rt post_data d k x :
  parse_body rt post_data = Ok (PyDict d) ->
  dict_lookup d k = Some (PyStr x) -> json_text x.
Proof.
  intros Hp Hl. apply parse_body_ok in Hp.
  exact (dict_lookup_ok d k (PyStr x) Hp Hl).
Qed.

Lemma ascii_json_text_app x y : ascii_text x -> json_text y -> json_text (x ++ y).
Proof.
  intros Hx Hy. induction Hx as [|c x' Hc Hx' IH]; [exact Hy|].
  cbn [app]. apply json_text_cons; [lia | exact IH |].
  rewrite not_high_below by lia. discriminate.
Qed.

Lemma json_text_lit_ascii s : ascii_text s -> json_text s.
Proof.
  intros H. rewrite <- (app_nil_r s).
  apply ascii_json_text_app; [exact H | apply json_text_nil].
Qed.

Lemma json_text_app_ascii x y :
  json_text x -> ascii_text y -> y <> [] -> json_text (x ++ y).
Proof.
  intros [Hr Hp] Hy Hne. induction x as [|c x' IH].
  - cbn [app]. now apply json_text_lit_ascii.
  - inversion Hr as [|? ? Hc Hr']; subst. destruct Hp as [Hh Hp'].
    cbn [app]. apply json_text_cons; [exact Hc | now apply IH |].
    intros Hhigh Hlow. destruct x' as [|c' x''].
    + destruct y as [|b y']; [congruence|].
      inversion Hy as [|? ? Hb _]; subst. cbn [app head_low] in Hlow.
      rewrite not_low_below in Hlow by lia. discriminate.
    + cbn [app head_low] in Hlow. rewrite (Hh Hhigh) in Hlow. discriminate.
Qed.

Lemma ascii_lit_received : ascii_text (lit "Received ").
Proof. repeat constructor. Qed.

Lemma ascii_lit_command : ascii_text (lit " command").
Proof. repeat constructor. Qed.

Lemma json_text_success_message a : json_text a -> json_text (success_message a).
Proof.
  intros Ha. unfold success_message.
  apply ascii_json_text_app; [apply ascii_lit_received|].
  apply json_text_app_ascii; [exact Ha | apply ascii_lit_command | discriminate].
Qed.

(** A client that parses the body of the success response finds the
    success message under [message]. *)
Lemma success_response_message rt date a :
  rt_parse_depth rt <> 0 -> json_text a ->
  response_message rt (success_response rt date a) = Some (success_message a).
Proof.
  intros Hd Ha. unfold response_message, success_response, json_response.
  cbn [Http.body].
  rewrite parse_body_dumps_two;
    [reflexivity | exact Hd | | | | now apply json_text_success_message];
    apply json_text_lit_ascii; repeat constructor.
Qed.

(** The action text of an accepted event whose [action] is a string is
    that string. *)
Lemma event_text_action rt post_data d a t :
  parse_body rt post_data = Ok (PyDict d) ->
  dict_lookup d (lit "action") = Some (PyStr a) ->
  event_text rt post_data = Ok t -> t = a.
Proof.
  intros Hp Hl. rewrite (Facts.event_text_dict rt post_data d Hp).
  unfold dict_get at 2 3. rewrite Hl. cbn [py_str].
  destruct (event_time rt (PyDict d)); [|discriminate]. cbn [Exc.bind].
  destruct (py_str rt _); [|discriminate]. cbn [Exc.bind].
  destruct (encode_check _); [|discriminate]. cbn [Exc.bind].
  destruct (encode_check _); [|discriminate]. cbn [Exc.bind].
  congruence.
Qed.

End RoundTrip.

(* ================================================================= *)
(** ** The contract of the handler *)

Import Py Exc Value Format Http LightShow Contract Shape Facts Reference Examples.

(** *** Requests that do not reach the [try] statement *)

Lemma serve_options rt date req console :
  command req = lit "OPTIONS" ->
  serve rt date req console =
  (Responded
     {| status := 200;
        resp_headers :=
          [(lit "Server", rt_version_string rt); (lit "Date", date);
           (lit "Access-Control-Allow-Origin", lit "*");
           (lit "Access-Control-Allow-Methods", lit "GET, POST, OPTIONS");
           (lit "Access-Control-Allow-Headers", lit "Content-Type")];
        body := [] |},
   console).
Proof.
  intros Hcmd. unfold serve, handle_one_request. rewrite Hcmd, str_eqb_refl.
  reflexivity.
Qed.

Lemma serve_post_elsewhere rt date req console :
  command req = lit "POST" ->
  path req <> lit "/light-control" ->
  serve rt date req console =
  (Responded
     {| status := 404;
        resp_headers := [(lit "Server", rt_version_string rt); (lit "Date", date)];
        body := [] |},
   console).
Proof.
  intros Hcmd Hpath. unfold serve, handle_one_request. rewrite Hcmd.
  change (str_eqb (lit "POST") (lit "OPTIONS")) with false.
  rewrite str_eqb_refl. cbv iota.
  unfold do_POST. rewrite (str_eqb_neq _ _ Hpath). reflexivity.
Qed.

Lemma serve_other_command rt date req console :
  command req <> lit "OPTIONS" ->
  command req <> lit "POST" ->
  let page :=
    rt_error_page rt 501
      (lit "Unsupported method (" ++ repr_str rt (command req) ++ lit ")")
      (lit "Server does not support this operation") in
  serve rt date req console =
  (Responded
     {| status := 501;
        resp_headers :=
          [(lit "Server", rt_version_string rt); (lit "Date", date);
           (lit "Connection", lit "close");
           (lit "Content-Type", lit "text/html;charset=utf-8");
           (lit "Content-Length", show_nat (length page))];
        body := if str_eqb (command req) (lit "HEAD") then [] else page |},
   console).
Proof.
  intros H1 H2 page. unfold serve, handle_one_request.
  rewrite (str_eqb_neq _ _ H1), (str_eqb_neq _ _ H2).
  unfold send_error. fold page.
  destruct (str_eqb (command req) (lit "HEAD")); cbn; now rewrite ?app_nil_r.
Qed.

(** An exception before the [try] statement leaves the handler, and nothing
    has been sent. *)
Lemma serve_post_unread rt date req console e :
  command req = lit "POST" ->
  path req = lit "/light-control" ->
  request_body rt req = Raise e ->
  serve rt date req console = (Uncaught e [], console).
Proof.
  intros Hcmd Hpath Hbody. unfold serve, handle_one_request. rewrite Hcmd.
  change (str_eqb (lit "POST") (lit "OPTIONS")) with false.
  rewrite str_eqb_refl. cbv iota.
  unfold do_POST. rewrite Hpath, str_eqb_refl.
  unfold request_body in Hbody. rewrite mbind_lift.
  destruct (py_int rt _) as [n|e']; cbn [Exc.bind] in Hbody.
  - rewrite mbind_lift, Hbody. reflexivity.
  - injection Hbody as ->. reflexivity.
Qed.

(** C5. Every OPTIONS request, whatever its path and body, is answered
    200 with an empty body; the cross-origin headers of the answer are
    exactly [Access-Control-Allow-Origin: *],
    [Access-Control-Allow-Methods: GET, POST, OPTIONS] and
    [Access-Control-Allow-Headers: Content-Type] (the base class adds
    [Server] and [Date]); the console is left as it was. *)
Theorem options_preflight rt date req console :
  command req = lit "OPTIONS" ->
  exists r,
    serve rt date req console = (Responded r, console)
    /\ status r = 200%Z
    /\ body r = []
    /\ cors_headers r =
       [(lit "Access-Control-Allow-Origin", lit "*");
        (lit "Access-Control-Allow-Methods", lit "GET, POST, OPTIONS");
        (lit "Access-Control-Allow-Headers", lit "Content-Type")]
    /\ resp_headers r =
       [(lit "Server", rt_version_string rt); (lit "Date", date)] ++ cors_headers r.
Proof.
  intros Hcmd. eexists. split; [now apply serve_options|].
  repeat split.
Qed.

Lemma options_preflight_witness :
  exists r,
    serve cpython_utc some_date
      (request_with_body "OPTIONS" "/any/path" (json_bytes "{'ignored': 1}")) []
    = (Responded r, [])
    /\ status r = 200%Z
    /\ body r = []
    /\ cors_headers r =
       [(lit "Access-Control-Allow-Origin", lit "*");
        (lit "Access-Control-Allow-Methods", lit "GET, POST, OPTIONS");
        (lit "Access-Control-Allow-Headers", lit "Content-Type")]
    /\ resp_headers r =
       [(lit "Server", rt_version_string cpython_utc); (lit "Date", some_date)]
       ++ cors_headers r.
Proof.
  apply (options_preflight cpython_utc some_date
           (request_with_body "OPTIONS" "/any/path" (json_bytes "{'ignored': 1}")) []).
  reflexivity.
Defined.

(** C4, as the code has it. A POST to a path other than [/light-control]
    is answered 404 with an empty body and no cross-origin header.  A
    request whose command is neither OPTIONS nor POST (a GET, say) has no
    [do_] method in the handler: the base class answers 501, again with no
    cross-origin header. *)
Theorem unrouted_requests rt date req console :
  command req <> lit "OPTIONS" ->
  (command req = lit "POST" -> path req <> lit "/light-control") ->
  exists r,
    serve rt date req console = (Responded r, console)
    /\ cors_headers r = []
    /\ ((command req = lit "POST" /\ status r = 404%Z /\ body r = [])
        \/ (command req <> lit "POST" /\ status r = 501%Z)).
Proof.
  intros Hopt Hpost.
  destruct (str_eqb (command req) (lit "POST")) eqn:E.
  - apply str_eqb_eq in E. eexists. split.
    + apply serve_post_elsewhere; auto.
    + split; [reflexivity|]. left. auto.
  - assert (command req <> lit "POST") as Hnp.
    { intros H. rewrite H, str_eqb_refl in E. discriminate. }
    eexists. split.
    + apply serve_other_command; auto.
    + split; [reflexivity|]. right. auto.
Qed.

Lemma unrouted_requests_witness :
  exists r,
    serve cpython_utc some_date
      (request_with_body "POST" "/other" (json_bytes "{}")) []
    = (Responded r, [])
    /\ cors_headers r = []
    /\ ((lit "POST" = lit "POST" /\ status r = 404%Z /\ body r = [])
        \/ (lit "POST" <> lit "POST" /\ status r = 501%Z)).
Proof.
  apply (unrouted_requests cpython_utc some_date
           (request_with_body "POST" "/other" (json_bytes "{}")) []).
  - discriminate.
  - intros _. discriminate.
Defined.

(** C4 as stated fails for GET: the answer is 501 with an HTML page as
    its body, not 404 with an empty body. *)
Lemma get_is_not_404 :
  exists r,
    run (request_with_body "GET" "/light-control" []) = Responded r
    /\ status r = 501%Z
    /\ status r <> 404%Z
    /\ body r <> [].
Proof.
  eexists. split; [vm_compute; reflexivity|].
  repeat split; discriminate.
Qed.

(** *** Bodies the handler rejects *)

(** Whatever the [try] body raises is answered 400, with the text of the
    exception, which is never empty, as the message. *)
Lemma rejected_with_message rt date req console post_data e :
  command req = lit "POST" ->
  path req = lit "/light-control" ->
  request_body rt req = Ok post_data ->
  event_text rt post_data = Raise e ->
  fst (serve rt date req console) = Responded (error_response rt date e)
  /\ exn_str e <> [].
Proof.
  intros Hcmd Hpath Hbody He. split.
  - rewrite (serve_post rt date req post_data console Hcmd Hpath Hbody).
    unfold post_response. now rewrite He.
  - pose proof (small_event_text rt post_data) as H. rewrite He in H. apply H.
Qed.

(** C9. A POST to [/light-control] whose body is valid UTF-8 JSON but not
    an object is answered 400 with a JSON body whose status is "error" (the
    message is the [AttributeError] of [data.get]); it is not answered
    200. *)
Theorem non_object_body_rejected rt date req console post_data v :
  command req = lit "POST" ->
  path req = lit "/light-control" ->
  request_body rt req = Ok post_data ->
  parse_body rt post_data = Ok v ->
  (forall d, v <> PyDict d) ->
  exists r,
    fst (serve rt date req console) = Responded r
    /\ status r = 400%Z
    /\ status r <> 200%Z
    /\ body r =
       Utf8.encode_ascii
         (dumps_dict
            [(lit "status", lit "error");
             (lit "message",
              lit "'" ++ type_name v ++ lit "' object has no attribute 'get'")])
    /\ In (lit "Access-Control-Allow-Origin", lit "*") (resp_headers r).
Proof.
  intros Hcmd Hpath Hbody Hparse Hv.
  assert (event_text rt post_data =
          Raise (Exn AttributeError
                   (lit "'" ++ type_name v ++ lit "' object has no attribute 'get'")))
    as He.
  { unfold event_text, event_time, data_get. rewrite Hparse. cbn [Exc.bind].
    destruct v; try reflexivity. now destruct (Hv d). }
  destruct (rejected_with_message rt date req console post_data _ Hcmd Hpath Hbody He) as [-> _].
  eexists. split; [reflexivity|].
  repeat split; try discriminate. cbn. auto.
Qed.

Lemma non_object_body_rejected_witness :
  exists r,
    fst (serve cpython_utc some_date (post (json_bytes "[1, 2]")) [])
    = Responded r
    /\ status r = 400%Z
    /\ status r <> 200%Z
    /\ body r =
       Utf8.encode_ascii
         (dumps_dict
            [(lit "status", lit "error");
             (lit "message",
              lit "'" ++ type_name (PyList [PyInt 1; PyInt 2])
              ++ lit "' object has no attribute 'get'")])
    /\ In (lit "Access-Control-Allow-Origin", lit "*") (resp_headers r).
Proof.
  apply (non_object_body_rejected cpython_utc some_date
           (post (json_bytes "[1, 2]")) [] (json_bytes "[1, 2]")
           (PyList [PyInt 1; PyInt 2])).
  - reflexivity.
  - reflexivity.
  - vm_compute. reflexivity.
  - vm_compute. reflexivity.
  - discriminate.
Defined.

(** C8, as the code has it. When the body is a JSON object whose
    [timestamp] is null, a string, an array or an object, or a number (or a
    boolean, which Python divides as 1 or 0) that does not convert to a
    local time, the exception of the conversion is answered 400 with its
    text as the message; the time stamp is not replaced by a default. *)
Theorem bad_timestamp_rejected rt date req console post_data d v :
  command req = lit "POST" ->
  path req = lit "/light-control" ->
  request_body rt req = Ok post_data ->
  parse_body rt post_data = Ok (PyDict d) ->
  dict_lookup d (lit "timestamp") = Some v ->
  not_a_number v \/ out_of_range rt v ->
  exists e r,
    Exc.bind (truediv_1000 v) (fromtimestamp rt) = Raise e
    /\ fst (serve rt date req console) = Responded r
    /\ status r = 400%Z
    /\ body r =
       Utf8.encode_ascii
         (dumps_dict [(lit "status", lit "error"); (lit "message", exn_str e)])
    /\ exn_str e <> [].
Proof.
  intros Hcmd Hpath Hbody Hparse Hts Hbad.
  assert (exists e, Exc.bind (truediv_1000 v) (fromtimestamp rt) = Raise e)
    as [e He].
  { destruct Hbad as [Hn|Hr]; [|exact Hr].
    destruct v; try contradiction; eexists; reflexivity. }
  assert (event_text rt post_data = Raise e) as Hev.
  { rewrite (event_text_dict rt post_data d Hparse).
    unfold event_time, data_get, dict_get. cbn [getattr_get Exc.bind].
    rewrite Hts.
    destruct (truediv_1000 v) as [x|e']; cbn [Exc.bind] in *.
    - now rewrite He.
    - now injection He as ->. }
  destruct (rejected_with_message rt date req console post_data e
              Hcmd Hpath Hbody Hev) as [-> Hne].
  exists e. eexists. repeat split; auto.
Qed.

Lemma bad_timestamp_rejected_witness :
  exists e r,
    Exc.bind (truediv_1000 (PyStr (lit "soon"))) (fromtimestamp cpython_utc) = Raise e
    /\ fst (serve cpython_utc some_date
              (post (json_bytes "{'timestamp': 'soon', 'action': 'jump'}")) [])
       = Responded r
    /\ status r = 400%Z
    /\ body r =
       Utf8.encode_ascii
         (dumps_dict [(lit "status", lit "error"); (lit "message", exn_str e)])
    /\ exn_str e <> [].
Proof.
  apply (bad_timestamp_rejected cpython_utc some_date
           (post (json_bytes "{'timestamp': 'soon', 'action': 'jump'}")) []
           (json_bytes "{'timestamp': 'soon', 'action': 'jump'}")
           [(lit "timestamp", PyStr (lit "soon"));
            (lit "action", PyStr (lit "jump"))]
           (PyStr (lit "soon"))).
  - reflexivity.
  - reflexivity.
  - vm_compute. reflexivity.
  - vm_compute. reflexivity.
  - reflexivity.
  - left. exact I.
Defined.

(** C8 as stated fails for a boolean: [true] is not a JSON number, yet
    Python divides it as 1, the conversion succeeds and the answer is
    200. *)
Lemma boolean_timestamp_accepted :
  parse_body cpython_utc (json_bytes "{'timestamp': true}")
  = Ok (PyDict [(lit "timestamp", PyBool true)])
  /\ exists r,
       run (post (json_bytes "{'timestamp': true}")) = Responded r
       /\ status r = 200%Z
       /\ status r <> 400%Z.
Proof.
  split; [vm_compute; reflexivity|].
  eexists. split; [vm_compute; reflexivity|].
  split; [reflexivity | discriminate].
Qed.

(** *** Events the handler accepts *)

(** C1, as the code has it. A POST to [/light-control] whose body is a
    JSON object is answered 200 with the JSON object
    [{"status": "success", "message": "Received <action> command"}]
    provided the [try] body raises nothing, that is: the time stamp is
    absent or a number that converts to a local time, and the console takes
    the controller id and the action.  [<action>] is [str()] of the
    [action] value, so a string action itself, and "unknown" when there is
    none. *)
Theorem post_event_accepted rt date req console post_data d a :
  command req = lit "POST" ->
  path req = lit "/light-control" ->
  request_body rt req = Ok post_data ->
  parse_body rt post_data = Ok (PyDict d) ->
  timestamp_ok rt d ->
  printable rt (dict_get d (lit "controller_id") (PyStr (lit "Unknown"))) ->
  py_str rt (dict_get d (lit "action") (PyStr (lit "unknown"))) = Ok a ->
  console_takes a ->
  exists r,
    fst (serve rt date req console) = Responded r
    /\ status r = 200%Z
    /\ body r =
       Utf8.encode_ascii
         (dumps_dict
            [(lit "status", lit "success");
             (lit "message", lit "Received " ++ a ++ lit " command")])
    /\ In (lit "Access-Control-Allow-Origin", lit "*") (resp_headers r)
    /\ (forall s, dict_lookup d (lit "action") = Some (PyStr s) -> a = s)
    /\ (dict_lookup d (lit "action") = None -> a = lit "unknown").
Proof.
  intros Hcmd Hpath Hbody Hparse Hts Hcid Ha Ha'.
  rewrite (serve_post rt date req post_data console Hcmd Hpath Hbody).
  unfold post_response.
  rewrite (event_text_ok rt post_data d a Hparse Hts Hcid Ha Ha').
  eexists. split; [reflexivity|].
  split; [reflexivity|]. split; [reflexivity|].
  split; [cbn; auto|].
  unfold dict_get in Ha. split.
  - intros s Hs. rewrite Hs in Ha. cbn [py_str] in Ha. congruence.
  - intros Hs. rewrite Hs in Ha. cbn [py_str] in Ha. congruence.
Qed.

Lemma post_event_accepted_witness :
  exists r,
    fst (serve cpython_utc some_date
           (post (json_bytes
              "{'timestamp':1700000000000,'controller_id':'ctrl-1','action':'flash_red'}"))
           [])
    = Responded r
    /\ status r = 200%Z
    /\ body r =
       Utf8.encode_ascii
         (dumps_dict
            [(lit "status", lit "success");
             (lit "message", lit "Received " ++ lit "flash_red" ++ lit " command")])
    /\ In (lit "Access-Control-Allow-Origin", lit "*") (resp_headers r)
    /\ (forall s,
          dict_lookup
            [(lit "timestamp", PyInt 1700000000000);
             (lit "controller_id", PyStr (lit "ctrl-1"));
             (lit "action", PyStr (lit "flash_red"))] (lit "action")
          = Some (PyStr s) -> lit "flash_red" = s)
    /\ (dict_lookup
          [(lit "timestamp", PyInt 1700000000000);
           (lit "controller_id", PyStr (lit "ctrl-1"));
           (lit "action", PyStr (lit "flash_red"))] (lit "action")
        = None -> lit "flash_red" = lit "unknown").
Proof.
  apply (post_event_accepted cpython_utc some_date
           (post (json_bytes
              "{'timestamp':1700000000000,'controller_id':'ctrl-1','action':'flash_red'}"))
           []
           (json_bytes
              "{'timestamp':1700000000000,'controller_id':'ctrl-1','action':'flash_red'}")
           [(lit "timestamp", PyInt 1700000000000);
            (lit "controller_id", PyStr (lit "ctrl-1"));
            (lit "action", PyStr (lit "flash_red"))]
           (lit "flash_red")).
  - reflexivity.
  - reflexivity.
  - vm_compute. reflexivity.
  - vm_compute. reflexivity.
  - eexists. vm_compute. reflexivity.
  - eexists. split; vm_compute; reflexivity.
  - reflexivity.
  - reflexivity.
Defined.

(** C1 as stated fails: a body can be a valid JSON object and still be
    answered 400, here because its time stamp is a string. *)
Lemma string_timestamp_rejected :
  parse_body cpython_utc (json_bytes "{'timestamp': 'x'}")
  = Ok (PyDict [(lit "timestamp", PyStr (lit "x"))])
  /\ exists r,
       run (post (json_bytes "{'timestamp': 'x'}")) = Responded r
       /\ status r = 400%Z
       /\ status r <> 200%Z.
Proof.
  split; [vm_compute; reflexivity|].
  eexists. split; [vm_compute; reflexivity|].
  split; [reflexivity | discriminate].
Qed.

(** The scenarios of the specification, on the reference runtime: an empty
    object, with the bytes of the body that is sent back. *)
Example scenario_empty_object :
  run (post (json_bytes "{}"))
  = Responded
      (json_response cpython_utc some_date 200
         [(lit "status", lit "success");
          (lit "message", lit "Received unknown command")])
  /\ Utf8.encode_ascii
       (dumps_dict [(lit "status", lit "success");
                    (lit "message", lit "Received unknown command")])
     = json_bytes "{'status': 'success', 'message': 'Received unknown command'}".
Proof. split; vm_compute; reflexivity. Qed.

(** An event with all three keys. *)
Example scenario_flash_red :
  run (post (json_bytes
    "{'timestamp':1700000000000,'controller_id':'ctrl-1','action':'flash_red'}"))
  = Responded
      (json_response cpython_utc some_date 200
         [(lit "status", lit "success");
          (lit "message", lit "Received flash_red command")]).
Proof. vm_compute. reflexivity. Qed.

(** A body that is not JSON: the message is the text of the decode error. *)
Example scenario_not_json :
  run (post (json_bytes "not-json"))
  = Responded
      (json_response cpython_utc some_date 400
         [(lit "status", lit "error");
          (lit "message", lit "Expecting value: line 1 column 1 (char 0)")]).
Proof. vm_compute. reflexivity. Qed.

(** C6, as the code has it. A POST to [/light-control] whose body is a
    JSON object with a string under [action], whatever its other keys, is
    answered 200 or 400.  It is answered 200 when the time stamp is absent
    or converts to a local time and the console can print the controller id
    and the action.  Whenever it is answered 200, a client that parses the
    body of the response and takes what stands between [Received ] and
    [ command] in its [message] gets exactly the action that was sent. *)
Theorem action_round_trip rt date req console post_data d a :
  command req = lit "POST" ->
  path req = lit "/light-control" ->
  request_body rt req = Ok post_data ->
  parse_body rt post_data = Ok (PyDict d) ->
  dict_lookup d (lit "action") = Some (PyStr a) ->
  exists r,
    fst (serve rt date req console) = Responded r
    /\ (status r = 200%Z \/ status r = 400%Z)
    /\ (timestamp_ok rt d ->
        printable rt (dict_get d (lit "controller_id") (PyStr (lit "Unknown"))) ->
        console_takes a ->
        status r = 200%Z)
    /\ (status r = 200%Z ->
        exists m, response_message rt r = Some m /\ extract_action m = Some a).
Proof.
  intros Hcmd Hpath Hbody Hparse Ha.
  rewrite (serve_post rt date req post_data console Hcmd Hpath Hbody).
  eexists. split; [reflexivity|]. unfold post_response.
  split; [destruct (event_text rt post_data); [left | right]; reflexivity|].
  split.
  - intros Hts Hcid Hprint.
    rewrite (event_text_ok rt post_data d a Hparse Hts Hcid); [reflexivity | | exact Hprint].
    unfold dict_get. now rewrite Ha.
  - destruct (event_text rt post_data) as [t|e] eqn:Et; [|discriminate].
    intros _.
    rewrite (RoundTrip.event_text_action rt post_data d a t Hparse Ha Et).
    exists (success_message a). split.
    + apply RoundTrip.success_response_message.
      * exact (RoundTrip.parse_body_deep rt post_data d Hparse).
      * exact (RoundTrip.parse_body_member rt post_data d (lit "action") a
                 Hparse Ha).
    + apply extract_success_message.
Qed.

Lemma action_round_trip_witness :
  exists r,
    fst (serve cpython_utc some_date
           (post (json_bytes "{'controller_id':'ctrl-1','action':'\ud83d\ude00 go'}"))
           [])
    = Responded r
    /\ (status r = 200%Z \/ status r = 400%Z)
    /\ (timestamp_ok cpython_utc
          [(lit "controller_id", PyStr (lit "ctrl-1"));
           (lit "action", PyStr (128512%N :: lit " go"))] ->
        printable cpython_utc
          (dict_get
             [(lit "controller_id", PyStr (lit "ctrl-1"));
              (lit "action", PyStr (128512%N :: lit " go"))]
             (lit "controller_id") (PyStr (lit "Unknown"))) ->
        console_takes (128512%N :: lit " go") ->
        status r = 200%Z)
    /\ (status r = 200%Z ->
        exists m,
          response_message cpython_utc r = Some m
          /\ extract_action m = Some (128512%N :: lit " go")).
Proof.
  apply (action_round_trip cpython_utc some_date
           (post (json_bytes "{'controller_id':'ctrl-1','action':'\ud83d\ude00 go'}"))
           []
           (json_bytes "{'controller_id':'ctrl-1','action':'\ud83d\ude00 go'}")
           [(lit "controller_id", PyStr (lit "ctrl-1"));
            (lit "action", PyStr (128512%N :: lit " go"))]
           (128512%N :: lit " go"));
    vm_compute; reflexivity.
Defined.

(** C6 as stated fails: not every such body gets a success response.  An
    action that is a lone surrogate cannot be printed, so the answer is 400
    and its [message] is the text of the error, from which no action can be
    taken.  The same happens when the time stamp does not convert. *)
Lemma unprintable_action_not_reproduced :
  parse_body cpython_utc (json_bytes "{'action':'\ud800'}")
  = Ok (PyDict [(lit "action", PyStr [55296%N])])
  /\ (exists r m,
        run (post (json_bytes "{'action':'\ud800'}")) = Responded r
        /\ status r = 400%Z
        /\ response_message cpython_utc r = Some m
        /\ extract_action m = None)
  /\ (exists r m,
        run (post (json_bytes "{'timestamp':1e30,'action':'go'}")) = Responded r
        /\ status r = 400%Z
        /\ response_message cpython_utc r = Some m
        /\ extract_action m = None).
Proof.
  split; [vm_compute; reflexivity|].
  split; eexists; eexists;
    (split; [vm_compute; reflexivity|]);
    (split; [reflexivity|]);
    (split; [vm_compute; reflexivity | vm_compute; reflexivity]).
Qed.

(** C7. The same well-formed event sent twice in succession is answered
    200 both times, with the same body, whatever the console holds and
    whatever the clock shows: the handler keeps nothing between
    requests. *)
Theorem repeated_event rt date1 date2 req console post_data d a :
  command req = lit "POST" ->
  path req = lit "/light-control" ->
  request_body rt req = Ok post_data ->
  parse_body rt post_data = Ok (PyDict d) ->
  timestamp_ok rt d ->
  printable rt (dict_get d (lit "controller_id") (PyStr (lit "Unknown"))) ->
  py_str rt (dict_get d (lit "action") (PyStr (lit "unknown"))) = Ok a ->
  console_takes a ->
  exists r1 r2,
    fst (serve rt date1 req console) = Responded r1
    /\ fst (serve rt date2 req (snd (serve rt date1 req console))) = Responded r2
    /\ status r1 = 200%Z
    /\ status r2 = 200%Z
    /\ body r1 = body r2
    /\ body r1 =
       Utf8.encode_ascii
         (dumps_dict
            [(lit "status", lit "success");
             (lit "message", lit "Received " ++ a ++ lit " command")]).
Proof.
  intros Hcmd Hpath Hbody Hparse Hts Hcid Ha Ha'.
  rewrite !(serve_post rt _ req post_data _ Hcmd Hpath Hbody).
  unfold post_response.
  rewrite (event_text_ok rt post_data d a Hparse Hts Hcid Ha Ha').
  do 2 eexists. repeat split.
Qed.

Lemma repeated_event_witness :
  exists r1 r2,
    fst (serve cpython_utc some_date (post (json_bytes "{'action': 'blink'}")) [])
    = Responded r1
    /\ fst (serve cpython_utc (lit "Tue, 14 Nov 2023 22:13:21 GMT")
              (post (json_bytes "{'action': 'blink'}"))
              (snd (serve cpython_utc some_date
                      (post (json_bytes "{'action': 'blink'}")) [])))
       = Responded r2
    /\ status r1 = 200%Z
    /\ status r2 = 200%Z
    /\ body r1 = body r2
    /\ body r1 =
       Utf8.encode_ascii
         (dumps_dict
            [(lit "status", lit "success");
             (lit "message", lit "Received " ++ lit "blink" ++ lit " command")]).
Proof.
  apply (repeated_event cpython_utc some_date (lit "Tue, 14 Nov 2023 22:13:21 GMT")
           (post (json_bytes "{'action': 'blink'}")) []
           (json_bytes "{'action': 'blink'}")
           [(lit "action", PyStr (lit "blink"))] (lit "blink")).
  - reflexivity.
  - reflexivity.
  - vm_compute. reflexivity.
  - vm_compute. reflexivity.
  - eexists. vm_compute. reflexivity.
  - eexists. split; vm_compute; reflexivity.
  - reflexivity.
  - reflexivity.
Defined.

(** *** What the answer depends on *)

(** C10, as the code has it. Two POSTs to [/light-control] whose bodies
    are JSON objects with the same [action] (or both without one), each
    with a time stamp that is absent or converts and each with a
    controller id the console takes, get the same status and the same
    body: among well-formed events the answer depends on the action
    alone. *)
Theorem same_action_same_answer rt date1 date2 req1 req2 console1 console2
  post_data1 post_data2 d1 d2 :
  command req1 = lit "POST" -> path req1 = lit "/light-control" ->
  command req2 = lit "POST" -> path req2 = lit "/light-control" ->
  request_body rt req1 = Ok post_data1 ->
  request_body rt req2 = Ok post_data2 ->
  parse_body rt post_data1 = Ok (PyDict d1) ->
  parse_body rt post_data2 = Ok (PyDict d2) ->
  dict_lookup d1 (lit "action") = dict_lookup d2 (lit "action") ->
  timestamp_ok rt d1 -> timestamp_ok rt d2 ->
  printable rt (dict_get d1 (lit "controller_id") (PyStr (lit "Unknown"))) ->
  printable rt (dict_get d2 (lit "controller_id") (PyStr (lit "Unknown"))) ->
  observable (fst (serve rt date1 req1 console1))
  = observable (fst (serve rt date2 req2 console2)).
Proof.
  intros Hc1 Hp1 Hc2 Hp2 Hb1 Hb2 Hj1 Hj2 Hact [t1 Ht1] [t2 Ht2]
    (c1 & Hs1 & Hk1) (c2 & Hs2 & Hk2).
  rewrite (serve_post rt date1 req1 post_data1 console1 Hc1 Hp1 Hb1).
  rewrite (serve_post rt date2 req2 post_data2 console2 Hc2 Hp2 Hb2).
  assert (event_text rt post_data1 = event_text rt post_data2) as He.
  { rewrite (event_text_dict rt post_data1 d1 Hj1).
    rewrite (event_text_dict rt post_data2 d2 Hj2).
    rewrite Ht1, Ht2, Hs1, Hs2. cbn [Exc.bind].
    rewrite !encode_check_label by assumption. cbn [Exc.bind].
    unfold dict_get. now rewrite Hact. }
  unfold post_response. rewrite He.
  now destruct (event_text rt post_data2).
Qed.

Lemma same_action_same_answer_witness :
  observable
    (fst (serve cpython_utc some_date
            (post (json_bytes "{'timestamp': 1700000000000, 'controller_id': 'a', 'action': 'go'}"))
            []))
  = observable
      (fst (serve cpython_utc (lit "Wed, 15 Nov 2023 08:00:00 GMT")
              (post (json_bytes "{'action': 'go', 'controller_id': 17}"))
              [lit "earlier output"])).
Proof.
  apply (same_action_same_answer cpython_utc some_date
           (lit "Wed, 15 Nov 2023 08:00:00 GMT")
           (post (json_bytes "{'timestamp': 1700000000000, 'controller_id': 'a', 'action': 'go'}"))
           (post (json_bytes "{'action': 'go', 'controller_id': 17}"))
           [] [lit "earlier output"]
           (json_bytes "{'timestamp': 1700000000000, 'controller_id': 'a', 'action': 'go'}")
           (json_bytes "{'action': 'go', 'controller_id': 17}")
           [(lit "timestamp", PyInt 1700000000000);
            (lit "controller_id", PyStr (lit "a"));
            (lit "action", PyStr (lit "go"))]
           [(lit "action", PyStr (lit "go")); (lit "controller_id", PyInt 17)]).
  - reflexivity.
  - reflexivity.
  - reflexivity.
  - reflexivity.
  - vm_compute. reflexivity.
  - vm_compute. reflexivity.
  - vm_compute. reflexivity.
  - vm_compute. reflexivity.
  - reflexivity.
  - eexists. vm_compute. reflexivity.
  - eexists. vm_compute. reflexivity.
  - eexists. split; vm_compute; reflexivity.
  - eexists. split; vm_compute; reflexivity.
Defined.

(** C10 as stated fails: the controller id can change the answer.  Both
    bodies below are JSON objects without [action] and without
    [timestamp]; the first has a controller id with a lone surrogate, which
    [print] cannot encode, and is answered 400, the second is answered
    200. *)
Lemma controller_id_changes_answer :
  parse_body cpython_utc (json_bytes "{'controller_id': '\ud800'}")
  = Ok (PyDict [(lit "controller_id", PyStr [55296%N])])
  /\ parse_body cpython_utc (json_bytes "{}") = Ok (PyDict [])
  /\ option_map fst
       (observable (run (post (json_bytes "{'controller_id': '\ud800'}"))))
     = Some 400%Z
  /\ option_map fst (observable (run (post (json_bytes "{}")))) = Some 200%Z
  /\ observable (run (post (json_bytes "{'controller_id': '\ud800'}")))
     <> observable (run (post (json_bytes "{}"))).
Proof.
  split; [vm_compute; reflexivity|].
  split; [vm_compute; reflexivity|].
  split; [vm_compute; reflexivity|].
  split; [vm_compute; reflexivity|].
  vm_compute. discriminate.
Qed.

(** A request is answered the same way whatever the console holds and
    whatever the clock shows. *)
Lemma serve_stateless rt date1 date2 req console1 console2 :
  observable (fst (serve rt date1 req console1))
  = observable (fst (serve rt date2 req console2)).
Proof.
  destruct (str_eqb (command req) (lit "OPTIONS")) eqn:Eo.
  { apply str_eqb_eq in Eo. now rewrite !serve_options. }
  assert (command req <> lit "OPTIONS") as Ho.
  { intros H. rewrite H, str_eqb_refl in Eo. discriminate. }
  destruct (str_eqb (command req) (lit "POST")) eqn:Ep.
  - apply str_eqb_eq in Ep.
    destruct (str_eqb (path req) (lit "/light-control")) eqn:El.
    + apply str_eqb_eq in El.
      destruct (request_body rt req) as [post_data|e] eqn:Eb.
      * rewrite !(serve_post rt _ req post_data _ Ep El Eb).
        unfold post_response. now destruct (event_text rt post_data).
      * now rewrite !(serve_post_unread rt _ req _ e Ep El Eb).
    + assert (path req <> lit "/light-control") as Hl.
      { intros H. rewrite H, str_eqb_refl in El. discriminate. }
      now rewrite !serve_post_elsewhere.
  - assert (command req <> lit "POST") as Hp.
    { intros H. rewrite H, str_eqb_refl in Ep. discriminate. }
    now rewrite !serve_other_command.
Qed.

(** *** The statements before the [try] *)

(** C2 fails on the code. The header is read and converted before the
    [try] statement: without a [Content-Length] header, [int(None)] raises
    a [TypeError] that no handler catches.  The exception leaves
    [do_POST]; no status line, header or body has been written, so there
    is no 400 response. *)
Theorem missing_length_uncaught rt date req console :
  command req = lit "POST" ->
  path req = lit "/light-control" ->
  headers_get (headers req) (lit "Content-Length") = None ->
  serve rt date req console =
  (Uncaught
     (Exn TypeError
        (lit "int() argument must be a string, a bytes-like object or a real number, not 'NoneType'"))
     [],
   console).
Proof.
  intros Hcmd Hpath Hlen. apply serve_post_unread; auto.
  unfold request_body. now rewrite Hlen.
Qed.

Lemma missing_length_uncaught_witness :
  serve cpython_utc some_date (request_without_length "POST" "/light-control") [] =
  (Uncaught
     (Exn TypeError
        (lit "int() argument must be a string, a bytes-like object or a real number, not 'NoneType'"))
     [],
   []).
Proof.
  apply (missing_length_uncaught cpython_utc some_date
           (request_without_length "POST" "/light-control") []);
    reflexivity.
Defined.

(** C3 fails on the code for the third kind of malformed request: a POST
    to [/light-control] without [Content-Length] gets no response at all,
    so no 400 and no message. *)
Theorem no_length_no_response :
  observable (run (request_without_length "POST" "/light-control")) = None
  /\ exists e,
       run (request_without_length "POST" "/light-control") = Uncaught e []
       /\ exn_class_of e = TypeError.
Proof.
  split; [vm_compute; reflexivity|].
  eexists. split; [vm_compute; reflexivity | reflexivity].
Qed.

(** What holds of C2 and C3: once the body has been read, a body that is
    not UTF-8 or not JSON is answered 400 with a JSON body whose message is
    the text of the exception, and that text is not empty. *)
Lemma malformed_body_rejected rt date req console post_data e :
  command req = lit "POST" ->
  path req = lit "/light-control" ->
  request_body rt req = Ok post_data ->
  parse_body rt post_data = Raise e ->
  exists r,
    fst (serve rt date req console) = Responded r
    /\ status r = 400%Z
    /\ body r =
       Utf8.encode_ascii
         (dumps_dict [(lit "status", lit "error"); (lit "message", exn_str e)])
    /\ In (lit "Access-Control-Allow-Origin", lit "*") (resp_headers r)
    /\ exn_str e <> [].
Proof.
  intros Hcmd Hpath Hbody Hparse.
  assert (event_text rt post_data = Raise e) as He.
  { unfold event_text. now rewrite Hparse. }
  destruct (rejected_with_message rt date req console post_data e
              Hcmd Hpath Hbody He) as [-> Hne].
  eexists. split; [reflexivity|]. repeat split; auto. cbn. auto.
Qed.

Lemma malformed_body_rejected_witness :
  exists r,
    fst (serve cpython_utc some_date (post (json_bytes "{'action': ")) [])
    = Responded r
    /\ status r = 400%Z
    /\ body r =
       Utf8.encode_ascii
         (dumps_dict
            [(lit "status", lit "error");
             (lit "message", lit "Expecting value: line 1 column 12 (char 11)")])
    /\ In (lit "Access-Control-Allow-Origin", lit "*") (resp_headers r)
    /\ lit "Expecting value: line 1 column 12 (char 11)" <> [].
Proof.
  apply (malformed_body_rejected cpython_utc some_date
           (post (json_bytes "{'action': ")) [] (json_bytes "{'action': ")
           (Exn JSONDecodeError
              (lit "Expecting value: line 1 column 12 (char 11)")));
    vm_compute; reflexivity.
Defined.

(** A body of bytes that are not UTF-8, on the reference runtime. *)
Example scenario_not_utf8 :
  run (post [xff; xfe])
  = Responded
      (json_response cpython_utc some_date 400
         [(lit "status", lit "error");
          (lit "message",
           lit "'utf-8' codec can't decode byte 0xff in position 0: invalid start byte")]).
Proof. vm_compute. reflexivity. Qed.
(* ================================================================= *)
(** ** Beyond the contract: the console, the request body, the server *)

Import Trace.

(** *** The console of one request *)

Lemma bind_ok_inv {A B} (r : result A) (k : A -> result B) b :
  Exc.bind r k = Ok b -> exists a, r = Ok a /\ k a = Ok b.
Proof. destruct r as [a|e]; simpl; [eauto | discriminate]. Qed.

(** The [try] body, with what it prints. *)
Lemma process_exact rt date post_data st :
  process rt date post_data st =
  match event_text rt post_data with
  | Ok a =>
    (Ok tt,
     {| stdout := stdout st ++ event_trace rt post_data;
        wire := wire st ++ json_wire rt date 200
                  [(lit "status", lit "success");
                   (lit "message", success_message a)] |})
  | Raise e =>
    (Raise e, {| stdout := stdout st ++ event_trace rt post_data; wire := wire st |})
  end.
Proof.
  unfold process, event_text, event_trace, parse_body, event_time, field_text,
    controller_line, action_line, time_line.
  rewrite mbind_lift.
  destruct (Utf8.decode post_data) as [text|e]; cbn [Exc.bind];
    [|now rewrite app_nil_r, state_eta].
  rewrite mbind_lift.
  destruct (loads rt text) as [data|e]; cbn [Exc.bind];
    [|now rewrite app_nil_r, state_eta].
  rewrite mbind_lift.
  destruct data as [| | | | | |d]; cbn [data_get getattr_get Exc.bind];
    try (now rewrite app_nil_r, state_eta).
  rewrite mbind_lift.
  destruct (truediv_1000 _) as [seconds|e]; cbn [Exc.bind];
    [|now rewrite app_nil_r, state_eta].
  rewrite mbind_lift.
  destruct (fromtimestamp rt seconds) as [t|e]; cbn [Exc.bind];
    [|now rewrite app_nil_r, state_eta].
  rewrite mbind_print, (small_encode_check _ (small_time_line t)).
  rewrite !mbind_lift.
  destruct (py_str rt (dict_get d (lit "controller_id") _)) as [cid|e];
    cbn [Exc.bind]; [|now rewrite app_nil_r].
  rewrite mbind_print.
  destruct (encode_check (lit "  Controller ID: " ++ cid)) as [[]|e];
    cbn [Exc.bind]; [|now rewrite app_nil_r].
  rewrite !mbind_lift. cbn [stdout wire].
  unfold dict_get.
  destruct (dict_lookup d (lit "action")) as [av|].
  - destruct (py_str rt av) as [a|e] eqn:Ea;
      cbn [Exc.bind]; [|now rewrite app_nil_r, <- app_assoc].
    rewrite mbind_print.
    destruct (encode_check (lit "  Action: " ++ a)) as [[]|e];
      cbn [Exc.bind stdout wire]; [|now rewrite app_nil_r, <- !app_assoc].
    rewrite mbind_send_response, !mbind_send_header, mbind_end_headers.
    rewrite !mbind_lift, Ea.
    cbn [stdout wire py_str]. unfold wfile_write, emit, json_wire, success_message.
    cbn [stdout wire]. now rewrite <- !app_assoc.
  - cbn [py_str Exc.bind].
    rewrite mbind_print, small_encode_check by prove_small.
    rewrite mbind_send_response, !mbind_send_header, mbind_end_headers.
    rewrite !mbind_lift.
    cbn [stdout wire py_str Exc.bind].
    unfold wfile_write, emit, json_wire, success_message.
    cbn [stdout wire]. now rewrite <- !app_assoc.
Qed.

(** A POST to [/light-control] whose body was read: the answer and the
    console. *)
Lemma serve_post_exact rt date req post_data console :
  command req = lit "POST" ->
  path req = lit "/light-control" ->
  request_body rt req = Ok post_data ->
  serve rt date req console =
  (Responded (post_response rt date post_data),
   console ++ post_trace rt post_data).
Proof.
  intros Hcmd Hpath Hbody.
  rewrite (surjective_pairing (serve rt date req console)).
  rewrite (serve_post rt date req post_data console Hcmd Hpath Hbody).
  f_equal. unfold serve, handle_one_request. rewrite Hcmd.
  change (str_eqb (lit "POST") (lit "OPTIONS")) with false.
  rewrite str_eqb_refl. cbv iota.
  unfold do_POST. rewrite Hpath, str_eqb_refl.
  unfold request_body in Hbody. rewrite mbind_lift.
  destruct (py_int rt _) as [n|e]; cbn [Exc.bind] in Hbody; [|discriminate].
  rewrite mbind_lift, Hbody. unfold try_except, post_trace.
  rewrite process_exact.
  pose proof (small_event_text rt post_data) as Hsmall.
  destruct (event_text rt post_data) as [a|e]; cbn [small_result] in Hsmall.
  - cbn [snd stdout]. now rewrite app_nil_r.
  - rewrite on_error_spec by exact Hsmall. cbn [snd stdout].
    unfold error_line. now rewrite <- app_assoc.
Qed.

(** The three ways a request can go, by its command, its path and whether
    its body can be read. *)
Lemma serve_cases rt req :
  (exists r, forall date console,
      serve rt date req console = (Responded (r date), console))
  \/ (exists e,
        command req = lit "POST" /\ path req = lit "/light-control"
        /\ request_body rt req = Raise e
        /\ forall date console,
             serve rt date req console = (Uncaught e [], console))
  \/ (exists post_data,
        command req = lit "POST" /\ path req = lit "/light-control"
        /\ request_body rt req = Ok post_data
        /\ forall date console,
             serve rt date req console =
             (Responded (post_response rt date post_data),
              console ++ post_trace rt post_data)).
Proof.
  destruct (str_eqb (command req) (lit "OPTIONS")) eqn:Eo.
  { apply str_eqb_eq in Eo. left. eexists (fun date => _). intros date console.
    now apply serve_options. }
  assert (command req <> lit "OPTIONS") as Ho.
  { intros H. rewrite H, str_eqb_refl in Eo. discriminate. }
  destruct (str_eqb (command req) (lit "POST")) eqn:Ep.
  - apply str_eqb_eq in Ep.
    destruct (str_eqb (path req) (lit "/light-control")) eqn:El.
    + apply str_eqb_eq in El.
      destruct (request_body rt req) as [post_data|e] eqn:Eb.
      * right. right. exists post_data. repeat split; auto.
        intros date console. now apply serve_post_exact.
      * right. left. exists e. repeat split; auto.
        intros date console. now apply serve_post_unread.
    + assert (path req <> lit "/light-control") as Hl.
      { intros H. rewrite H, str_eqb_refl in El. discriminate. }
      left. eexists (fun date => _). intros date console.
      now apply serve_post_elsewhere.
  - assert (command req <> lit "POST") as Hp.
    { intros H. rewrite H, str_eqb_refl in Ep. discriminate. }
    left. eexists (fun date => _). intros date console.
    now apply serve_other_command.
Qed.

(** The [try] body prints its first line, or the [except] clause its
    only one: an event always leaves a trace. *)
Lemma post_trace_nonempty rt post_data : post_trace rt post_data <> [].
Proof.
  unfold post_trace, event_trace, event_text.
  destruct (parse_body rt post_data) as [data|e]; cbn [Exc.bind app];
    [|discriminate].
  destruct (event_time rt data) as [t|e]; cbn [Exc.bind app]; discriminate.
Qed.

(** The answer does not depend on the console, and the console only
    grows, by what the request prints on an empty one. *)
Lemma serve_console rt date req console :
  serve rt date req console =
  (fst (serve rt date req []), console ++ snd (serve rt date req [])).
Proof.
  destruct (serve_cases rt req)
    as [[r H]|[(e & _ & _ & _ & H)|(post_data & _ & _ & _ & H)]];
    rewrite (H date console), (H date []); cbn [fst snd app];
    now rewrite ?app_nil_r.
Qed.

(** What a request prints does not depend on the clock. *)
Lemma serve_console_date rt date1 date2 req console :
  snd (serve rt date1 req console) = snd (serve rt date2 req console).
Proof.
  destruct (serve_cases rt req)
    as [[r H]|[(e & _ & _ & _ & H)|(post_data & _ & _ & _ & H)]];
    now rewrite (H date1 console), (H date2 console).
Qed.

(** An exception leaves the handler only from lines 21-22. *)
Lemma uncaught_unread rt date req console e sent :
  fst (serve rt date req console) = Uncaught e sent ->
  sent = [] /\ command req = lit "POST" /\ path req = lit "/light-control"
  /\ request_body rt req = Raise e.
Proof.
  destruct (serve_cases rt req)
    as [[r H]|[(e' & Hc & Hp & Hb & H)|(post_data & _ & _ & _ & H)]];
    rewrite (H date console); cbn [fst]; try discriminate.
  intros [= <- <-]. auto.
Qed.

(** Every request ends in one of two ways: a complete response, whose
    status is 200, 400, 404 or 501, or an exception that leaves the handler
    before anything was sent or printed.  The second happens only to a POST
    to [/light-control], when lines 21-22 (the [Content-Length] header and
    the read) raise.  No request leaves half a response on the
    connection. *)
Theorem no_partial_answer rt date req console :
  match fst (serve rt date req console) with
  | Responded r => In (status r) [200; 400; 404; 501]%Z
  | Uncaught e sent =>
    sent = [] /\ snd (serve rt date req console) = console
    /\ command req = lit "POST" /\ path req = lit "/light-control"
    /\ request_body rt req = Raise e
  | Garbled _ => False
  end.
Proof.
  destruct (str_eqb (command req) (lit "OPTIONS")) eqn:Eo.
  { apply str_eqb_eq in Eo. rewrite (serve_options rt date req console Eo).
    cbn. auto. }
  assert (command req <> lit "OPTIONS") as Ho.
  { intros H. rewrite H, str_eqb_refl in Eo. discriminate. }
  destruct (str_eqb (command req) (lit "POST")) eqn:Ep.
  - apply str_eqb_eq in Ep.
    destruct (str_eqb (path req) (lit "/light-control")) eqn:El.
    + apply str_eqb_eq in El.
      destruct (request_body rt req) as [post_data|e] eqn:Eb.
      * rewrite (serve_post_exact rt date req post_data console Ep El Eb).
        cbn [fst]. unfold post_response.
        destruct (event_text rt post_data); cbn; auto.
      * rewrite (serve_post_unread rt date req console e Ep El Eb).
        cbn [fst snd]. auto.
    + assert (path req <> lit "/light-control") as Hl.
      { intros H. rewrite H, str_eqb_refl in El. discriminate. }
      rewrite (serve_post_elsewhere rt date req console Ep Hl). cbn. auto.
  - assert (command req <> lit "POST") as Hp.
    { intros H. rewrite H, str_eqb_refl in Ep. discriminate. }
    rewrite (serve_other_command rt date req console Ho Hp). cbn. auto.
Qed.

(** [log_message] keeps the access log off the console: a request prints
    something exactly when it is a POST to [/light-control] whose body was
    read, and what is on the console stays there. *)
Theorem console_only_for_events rt date req console :
  exists out,
    snd (serve rt date req console) = console ++ out
    /\ (out <> [] <-> is_event rt req).
Proof.
  destruct (serve_cases rt req)
    as [[r H]|[(e & Hc & Hp & Hb & H)|(post_data & Hc & Hp & Hb & H)]].
  - exists []. rewrite (H date console), app_nil_r. split; [reflexivity|].
    split; [congruence|].
    intros (Hc & Hp & post_data & Hb).
    pose proof (serve_post_exact rt date req post_data [] Hc Hp Hb) as H'.
    rewrite H in H'. injection H' as _ H'.
    now destruct (post_trace_nonempty rt post_data).
  - exists []. rewrite (H date console), app_nil_r. split; [reflexivity|].
    split; [congruence|].
    intros (_ & _ & post_data & Hb'). congruence.
  - exists (post_trace rt post_data). rewrite (H date console).
    split; [reflexivity|]. split.
    + intros _. repeat split; eauto.
    + intros _. apply post_trace_nonempty.
Qed.

(** An accepted event puts three lines on the console: a blank line and
    the time in brackets, the controller id and the action, each as [str()]
    shows it, with [Unknown] for a key that is absent. *)
Theorem accepted_event_console rt date req console post_data d t cid a :
  command req = lit "POST" ->
  path req = lit "/light-control" ->
  request_body rt req = Ok post_data ->
  parse_body rt post_data = Ok (PyDict d) ->
  event_time rt (PyDict d) = Ok t ->
  py_str rt (dict_get d (lit "controller_id") (PyStr (lit "Unknown"))) = Ok cid ->
  console_takes cid ->
  py_str rt (dict_get d (lit "action") (PyStr (lit "Unknown"))) = Ok a ->
  console_takes a ->
  exists r,
    serve rt date req console =
    (Responded r,
     console ++ [newline ++ lit "[" ++ drop_last3 (strftime_HMSf t)
                 ++ lit "] Controller Input Received:"; newline;
                 lit "  Controller ID: " ++ cid; newline;
                 lit "  Action: " ++ a; newline])
    /\ status r = 200%Z.
Proof.
  intros Hcmd Hpath Hbody Hparse Ht Hcid Hcid' Ha Ha'.
  rewrite (serve_post_exact rt date req post_data console Hcmd Hpath Hbody).
  assert (exists a', event_text rt post_data = Ok a') as [a' Hev].
  { rewrite (event_text_dict rt post_data d Hparse).
    rewrite Ht, Hcid. cbn [Exc.bind].
    rewrite encode_check_label by exact Hcid'. cbn [Exc.bind].
    rewrite Ha. cbn [Exc.bind].
    rewrite encode_check_label by exact Ha'. cbn [Exc.bind].
    unfold dict_get in *.
    destruct (dict_lookup d (lit "action")); [eauto | cbn; eauto]. }
  unfold post_response, post_trace, event_trace. rewrite Hev, Hparse, Ht.
  unfold field_text, data_get, controller_line, action_line, time_line.
  cbn [getattr_get Exc.bind]. rewrite Hcid. cbn [Exc.bind].
  rewrite encode_check_label by exact Hcid'. cbn [Exc.bind].
  rewrite Ha. cbn [Exc.bind].
  rewrite encode_check_label by exact Ha'. cbn [Exc.bind app].
  eexists. split; reflexivity.
Qed.

Lemma accepted_event_console_witness :
  exists r,
    serve cpython_utc some_date
      (post (json_bytes "{'timestamp':1700000000123,'controller_id':7,'action':'go'}"))
      [lit "earlier"]
    = (Responded r,
       [lit "earlier"]
       ++ [newline ++ lit "["
           ++ drop_last3
                (strftime_HMSf
                   {| dt_year := 2023; dt_month := 11; dt_day := 14;
                      dt_hour := 22; dt_minute := 13; dt_second := 20;
                      dt_microsecond := 123000 |})
           ++ lit "] Controller Input Received:"; newline;
           lit "  Controller ID: " ++ lit "7"; newline;
           lit "  Action: " ++ lit "go"; newline])
    /\ status r = 200%Z.
Proof.
  apply (accepted_event_console cpython_utc some_date
           (post (json_bytes "{'timestamp':1700000000123,'controller_id':7,'action':'go'}"))
           [lit "earlier"]
           (json_bytes "{'timestamp':1700000000123,'controller_id':7,'action':'go'}")
           [(lit "timestamp", PyInt 1700000000123);
            (lit "controller_id", PyInt 7);
            (lit "action", PyStr (lit "go"))]);
    vm_compute; reflexivity.
Defined.

(** A rejected event: the lines the [try] body printed before it raised
    stay on the console (none, the time line, or the time line and the
    controller id), and after them comes one line with the text of the
    exception, the same text the 400 response carries as its message. *)
Theorem rejected_event_console rt date req console post_data e :
  command req = lit "POST" ->
  path req = lit "/light-control" ->
  request_body rt req = Ok post_data ->
  event_text rt post_data = Raise e ->
  exists shown,
    serve rt date req console =
    (Responded (error_response rt date e),
     console ++ shown
     ++ [lit "Error processing request: " ++ exn_str e; newline])
    /\ (shown = []
        \/ (exists t, shown = [time_line t; newline])
        \/ (exists t cid,
              shown = [time_line t; newline;
                       lit "  Controller ID: " ++ cid; newline]))
    /\ (forall e', parse_body rt post_data = Raise e' -> shown = []).
Proof.
  intros Hcmd Hpath Hbody Hev.
  rewrite (serve_post_exact rt date req post_data console Hcmd Hpath Hbody).
  unfold post_response, post_trace. rewrite Hev.
  exists (event_trace rt post_data). split; [reflexivity|].
  unfold event_trace, event_text in *. split.
  - destruct (parse_body rt post_data) as [data|e0]; [|now left].
    cbn [Exc.bind] in Hev.
    destruct (event_time rt data) as [t|e0]; [|now left].
    cbn [Exc.bind] in Hev.
    destruct (field_text rt data "controller_id" "Unknown") as [cid|e0];
      cbn [Exc.bind] in *; [|right; left; eexists; reflexivity].
    unfold controller_line.
    destruct (encode_check (lit "  Controller ID: " ++ cid)) as [[]|e0];
      cbn [Exc.bind] in *; [|right; left; eexists; reflexivity].
    destruct (field_text rt data "action" "Unknown") as [a|e0] eqn:Ea;
      cbn [Exc.bind] in *; [|right; right; do 2 eexists; reflexivity].
    unfold action_line.
    destruct (encode_check (lit "  Action: " ++ a)) as [[]|e0];
      cbn [Exc.bind] in *; [|right; right; do 2 eexists; reflexivity].
    exfalso.
    unfold field_text, data_get in Ea, Hev.
    destruct data as [| | | | | |d]; try discriminate Ea.
    unfold dict_get in Ea, Hev. cbn [getattr_get Exc.bind] in Ea, Hev.
    destruct (dict_lookup d (lit "action")) as [av|];
      [congruence | discriminate].
  - intros e' He'. now rewrite He'.
Qed.

Lemma rejected_event_console_witness :
  exists shown,
    serve cpython_utc some_date
      (post (json_bytes "{'controller_id':'pad','action':'\ud800'}")) []
    = (Responded
         (error_response cpython_utc some_date
            (encode_error 10 1 55296%N)),
       [] ++ shown
       ++ [lit "Error processing request: "
           ++ exn_str (encode_error 10 1 55296%N); newline])
    /\ (shown = []
        \/ (exists t, shown = [time_line t; newline])
        \/ (exists t cid,
              shown = [time_line t; newline;
                       lit "  Controller ID: " ++ cid; newline]))
    /\ (forall e',
          parse_body cpython_utc
            (json_bytes "{'controller_id':'pad','action':'\ud800'}") = Raise e' ->
          shown = []).
Proof.
  apply (rejected_event_console cpython_utc some_date
           (post (json_bytes "{'controller_id':'pad','action':'\ud800'}")) []
           (json_bytes "{'controller_id':'pad','action':'\ud800'}")
           (encode_error 10 1 55296%N));
    vm_compute; reflexivity.
Defined.

(** The defaults of an event without the three keys: the time line shows
    the local time of the epoch, the console says [Unknown] for the
    controller id and the action, and the message of the response says
    [unknown], in lower case. *)
Theorem absent_keys_defaults rt date req console post_data d t :
  command req = lit "POST" ->
  path req = lit "/light-control" ->
  request_body rt req = Ok post_data ->
  parse_body rt post_data = Ok (PyDict d) ->
  dict_lookup d (lit "timestamp") = None ->
  dict_lookup d (lit "controller_id") = None ->
  dict_lookup d (lit "action") = None ->
  fromtimestamp rt (S754_zero false) = Ok t ->
  serve rt date req console =
  (Responded (success_response rt date (lit "unknown")),
   console ++ [time_line t; newline;
               lit "  Controller ID: Unknown"; newline;
               lit "  Action: Unknown"; newline]).
Proof.
  intros Hcmd Hpath Hbody Hparse Hts Hcid Ha Ht.
  rewrite (serve_post_exact rt date req post_data console Hcmd Hpath Hbody).
  assert (event_time rt (PyDict d) = Ok t) as Het.
  { unfold event_time, data_get, dict_get. cbn [getattr_get Exc.bind].
    rewrite Hts. exact Ht. }
  unfold post_response, post_trace, event_trace.
  rewrite (event_text_dict rt post_data d Hparse), Hparse, Het.
  unfold field_text, data_get, dict_get. cbn [getattr_get Exc.bind].
  rewrite Hcid, Ha. reflexivity.
Qed.

Lemma absent_keys_defaults_witness :
  serve cpython_utc some_date (post (json_bytes "{'button': 3}")) []
  = (Responded (success_response cpython_utc some_date (lit "unknown")),
     [] ++ [time_line {| dt_year := 1970; dt_month := 1; dt_day := 1;
                         dt_hour := 0; dt_minute := 0; dt_second := 0;
                         dt_microsecond := 0 |}; newline;
            lit "  Controller ID: Unknown"; newline;
            lit "  Action: Unknown"; newline]).
Proof.
  apply (absent_keys_defaults cpython_utc some_date
           (post (json_bytes "{'button': 3}")) []
           (json_bytes "{'button': 3}")
           [(lit "button", PyInt 3)]);
    vm_compute; reflexivity.
Defined.

(** An empty body (a [Content-Length] of 0, or a client that sends
    nothing) is answered 400: [json.loads] finds no value at the very
    start. *)
Theorem empty_body_rejected rt date req console :
  command req = lit "POST" ->
  path req = lit "/light-control" ->
  request_body rt req = Ok [] ->
  serve rt date req console =
  (Responded
     (error_response rt date
        (Exn JSONDecodeError (lit "Expecting value: line 1 column 1 (char 0)"))),
   console
   ++ [lit "Error processing request: Expecting value: line 1 column 1 (char 0)";
       newline]).
Proof.
  intros Hcmd Hpath Hbody.
  rewrite (serve_post_exact rt date req [] console Hcmd Hpath Hbody).
  reflexivity.
Qed.

Lemma empty_body_rejected_witness :
  serve cpython_utc some_date (post []) []
  = (Responded
       (error_response cpython_utc some_date
          (Exn JSONDecodeError (lit "Expecting value: line 1 column 1 (char 0)"))),
     []
     ++ [lit "Error processing request: Expecting value: line 1 column 1 (char 0)";
         newline]).
Proof.
  apply (empty_body_rejected cpython_utc some_date (post []) []);
    reflexivity.
Defined.

(** *** The time on the console *)

Lemma two_digits_length z : (0 <= z < 100)%Z -> length (two_digits z) = 2.
Proof.
  intros Hz.
  assert (Hall :
            all_from 100 0
              (fun n => Nat.eqb (length (two_digits (Z.of_N n))) 2) = true)
    by (vm_compute; reflexivity).
  pose proof (RoundTrip.all_from_spec 100 0 _ Hall (Z.to_N z)) as H.
  cbv beta in H. rewrite Z2N.id in H by lia. apply Nat.eqb_eq, H. lia.
Qed.

(** The first three of the six digits of [%f] are the milliseconds. *)
Lemma microsecond_digits us :
  (0 <= us < 1000000)%Z ->
  zero_pad 6 (show_Z us)
  = zero_pad 3 (show_Z (us / 1000)) ++ zero_pad 3 (show_Z (us mod 1000)).
Proof.
  intros Hus.
  assert (Hall :
            all_from 1000 0
              (fun q =>
                 all_from 1000 0
                   (fun r =>
                      str_eqb
                        (zero_pad 6 (show_Z (Z.of_N (1000 * q + r))))
                        (zero_pad 3 (show_Z (Z.of_N q))
                         ++ zero_pad 3 (show_Z (Z.of_N r))))) = true)
    by (vm_compute; reflexivity).
  pose proof (Z.div_mod us 1000 ltac:(lia)) as Hdm.
  pose proof (Z.mod_pos_bound us 1000 ltac:(lia)) as Hr.
  assert (0 <= us / 1000 < 1000)%Z as Hq.
  { split; [apply Z.div_pos; lia | apply Z.div_lt_upper_bound; lia]. }
  pose proof (RoundTrip.all_from_spec 1000 0 _ Hall (Z.to_N (us / 1000))
                ltac:(lia)) as H1.
  cbv beta in H1.
  pose proof (RoundTrip.all_from_spec 1000 0 _ H1 (Z.to_N (us mod 1000))
                ltac:(lia)) as H2.
  cbv beta in H2. apply str_eqb_eq in H2.
  rewrite !Z2N.id in H2 by lia.
  replace (Z.of_N (1000 * Z.to_N (us / 1000) + Z.to_N (us mod 1000))) with us
    in H2 by lia.
  exact H2.
Qed.

Lemma zero_pad_3_length z : (0 <= z < 1000)%Z -> length (zero_pad 3 (show_Z z)) = 3.
Proof.
  intros Hz.
  assert (Hall :
            all_from 1000 0
              (fun n => Nat.eqb (length (zero_pad 3 (show_Z (Z.of_N n)))) 3) = true)
    by (vm_compute; reflexivity).
  pose proof (RoundTrip.all_from_spec 1000 0 _ Hall (Z.to_N z)) as H.
  cbv beta in H. rewrite Z2N.id in H by lia. apply Nat.eqb_eq, H. lia.
Qed.

(** The time between the brackets is [HH:MM:SS.mmm], twelve characters:
    [strftime] gives six digits of microseconds and [[:-3]] cuts the last
    three, so the milliseconds are cut off, not rounded. *)
Theorem time_text_milliseconds t :
  clock_ok t ->
  drop_last3 (strftime_HMSf t)
  = two_digits (dt_hour t) ++ lit ":" ++ two_digits (dt_minute t) ++ lit ":"
    ++ two_digits (dt_second t) ++ lit "."
    ++ zero_pad 3 (show_Z (dt_microsecond t / 1000))
  /\ length (drop_last3 (strftime_HMSf t)) = 12.
Proof.
  intros (Hh & Hm & Hs & Hus).
  pose proof (two_digits_length (dt_hour t) ltac:(lia)) as Lh.
  pose proof (two_digits_length (dt_minute t) ltac:(lia)) as Lm.
  pose proof (two_digits_length (dt_second t) ltac:(lia)) as Ls.
  pose proof (Z.mod_pos_bound (dt_microsecond t) 1000 ltac:(lia)) as Hr.
  assert (0 <= dt_microsecond t / 1000 < 1000)%Z as Hq.
  { split; [apply Z.div_pos; lia | apply Z.div_lt_upper_bound; lia]. }
  pose proof (zero_pad_3_length _ Hq) as Lq.
  pose proof (zero_pad_3_length _ Hr) as Lr.
  unfold drop_last3, strftime_HMSf.
  rewrite (microsecond_digits _ Hus).
  set (ms := zero_pad 3 (show_Z (dt_microsecond t / 1000))) in *.
  set (rest := zero_pad 3 (show_Z (dt_microsecond t mod 1000))) in *.
  set (h := two_digits (dt_hour t)) in *.
  set (m := two_digits (dt_minute t)) in *.
  set (s := two_digits (dt_second t)) in *.
  replace (h ++ lit ":" ++ m ++ lit ":" ++ s ++ lit "." ++ ms ++ rest)
    with ((h ++ lit ":" ++ m ++ lit ":" ++ s ++ lit "." ++ ms) ++ rest)
    by (now rewrite <- !app_assoc).
  assert (length (h ++ lit ":" ++ m ++ lit ":" ++ s ++ lit "." ++ ms) = 12) as L.
  { rewrite !length_app, Lh, Lm, Ls, Lq. reflexivity. }
  rewrite length_app, L, Lr.
  replace (12 + 3 - 3) with (12 + 0) by lia.
  assert (firstn (12 + 0)
            ((h ++ lit ":" ++ m ++ lit ":" ++ s ++ lit "." ++ ms) ++ rest)
          = h ++ lit ":" ++ m ++ lit ":" ++ s ++ lit "." ++ ms) as ->.
  { rewrite <- L at 1. rewrite firstn_app_2. cbn [firstn]. apply app_nil_r. }
  split; [reflexivity | exact L].
Qed.

Lemma time_text_milliseconds_witness :
  drop_last3
    (strftime_HMSf {| dt_year := 2024; dt_month := 2; dt_day := 29;
                      dt_hour := 7; dt_minute := 5; dt_second := 9;
                      dt_microsecond := 1999 |})
  = two_digits 7 ++ lit ":" ++ two_digits 5 ++ lit ":" ++ two_digits 9 ++ lit "."
    ++ zero_pad 3 (show_Z (1999 / 1000))
  /\ length
       (drop_last3
          (strftime_HMSf {| dt_year := 2024; dt_month := 2; dt_day := 29;
                            dt_hour := 7; dt_minute := 5; dt_second := 9;
                            dt_microsecond := 1999 |})) = 12.
Proof.
  apply (time_text_milliseconds
           {| dt_year := 2024; dt_month := 2; dt_day := 29;
              dt_hour := 7; dt_minute := 5; dt_second := 9;
              dt_microsecond := 1999 |}).
  unfold clock_ok. cbn. lia.
Defined.

(** *** The body that is read *)

(** The handler reads [Content-Length] bytes and no more: two requests
    that differ only in what the client sends after them get the same
    answer and print the same. *)
Theorem bytes_beyond_length_ignored rt date req1 req2 console n :
  command req1 = command req2 ->
  path req1 = path req2 ->
  headers req1 = headers req2 ->
  py_int rt (headers_get (headers req1) (lit "Content-Length")) = Ok n ->
  (0 <= n)%Z ->
  firstn (Z.to_nat n) (rfile req1) = firstn (Z.to_nat n) (rfile req2) ->
  serve rt date req1 console = serve rt date req2 console.
Proof.
  intros Hc Hp Hh Hn Hpos Hfirst.
  unfold serve, handle_one_request. rewrite <- Hc.
  destruct (str_eqb (command req1) (lit "OPTIONS")); [reflexivity|].
  destruct (str_eqb (command req1) (lit "POST")); [|reflexivity].
  unfold do_POST. rewrite <- Hp, <- Hh.
  destruct (str_eqb (path req1) (lit "/light-control")); [|reflexivity].
  rewrite !mbind_lift, Hn, !mbind_lift.
  assert (rfile_read rt req1 n = rfile_read rt req2 n) as ->; [|reflexivity].
  unfold rfile_read. rewrite Hfirst.
  destruct (n =? -1)%Z eqn:E; [|reflexivity].
  apply Z.eqb_eq in E. lia.
Qed.

Lemma bytes_beyond_length_ignored_witness :
  serve cpython_utc some_date
    {| command := lit "POST"; path := lit "/light-control";
       headers := [(lit "Content-Length", lit "2")];
       rfile := json_bytes "{}" |} []
  = serve cpython_utc some_date
      {| command := lit "POST"; path := lit "/light-control";
         headers := [(lit "Content-Length", lit "2")];
         rfile := json_bytes "{}, and more" |} [].
Proof.
  apply (bytes_beyond_length_ignored cpython_utc some_date
           {| command := lit "POST"; path := lit "/light-control";
              headers := [(lit "Content-Length", lit "2")];
              rfile := json_bytes "{}" |}
           {| command := lit "POST"; path := lit "/light-control";
              headers := [(lit "Content-Length", lit "2")];
              rfile := json_bytes "{}, and more" |}
           [] 2%Z);
    try reflexivity.
  lia.
Defined.

(** *** [int()] on the text of a number *)

Lemma uint_chars_digits u : Forall (fun c => Json.is_digit c = true) (uint_chars u).
Proof. induction u; cbn [uint_chars]; constructor; auto. Qed.

Lemma digits_value_acc u : forall p,
  fold_left (fun acc c => (10 * acc + Z.of_N (c - 48))%Z) (uint_chars u) (Zpos p)
  = Zpos (Pos.of_uint_acc u p).
Proof.
  induction u; intros p; cbn [uint_chars fold_left Pos.of_uint_acc];
    [reflexivity|..];
    match goal with
    | |- fold_left _ _ ?z = Z.pos (Pos.of_uint_acc _ ?q) =>
      replace z with (Z.pos q) by (unfold digit_char; lia)
    end; apply IHu.
Qed.

Lemma digits_value_uint u :
  Json.digits_value (uint_chars u) = Z.of_N (Pos.of_uint u).
Proof.
  unfold Json.digits_value.
  induction u; cbn [uint_chars fold_left Pos.of_uint]; [reflexivity | exact IHu|..];
    match goal with
    | |- fold_left _ _ ?z = Z.of_N (N.pos (Pos.of_uint_acc _ ?q)) =>
      replace z with (Z.pos q) by (unfold digit_char; lia)
    end; apply digits_value_acc.
Qed.

Lemma digits_value_show_N n : Json.digits_value (show_N n) = Z.of_N n.
Proof.
  unfold show_N. rewrite digits_value_uint.
  change (Pos.of_uint (N.to_uint n)) with (N.of_uint (N.to_uint n)).
  now rewrite DecimalN.Unsigned.of_to.
Qed.

Lemma show_N_nonempty n : show_N n <> [].
Proof.
  unfold show_N. destruct n as [|p]; [discriminate|]. cbn [N.to_uint].
  pose proof (DecimalPos.Unsigned.to_uint_nonnil p) as H.
  destruct (Pos.to_uint p); [congruence | discriminate..].
Qed.

Lemma digit_not_space c : Json.is_digit c = true -> is_space c = false.
Proof.
  unfold Json.is_digit. intros H. apply andb_true_iff in H as [H1 H2].
  apply N.leb_le in H1, H2.
  unfold is_space.
  repeat match goal with
  | |- (_ || _)%bool = false => apply orb_false_iff; split
  | |- (_ && _)%bool = false => apply andb_false_iff
  end;
  first [ apply N.eqb_neq; lia
        | left; apply N.leb_gt; lia
        | right; apply N.leb_gt; lia ].
Qed.

Lemma lstrip_digits s :
  Forall (fun c => Json.is_digit c = true) s -> lstrip s = s.
Proof.
  intros H. destruct H as [|c s Hc _]; [reflexivity|].
  cbn [lstrip]. now rewrite (digit_not_space c Hc).
Qed.

Lemma strip_digits s :
  Forall (fun c => Json.is_digit c = true) s -> strip s = s.
Proof.
  intros H. unfold strip. rewrite (lstrip_digits s H).
  rewrite lstrip_digits by (now apply Forall_rev). apply rev_involutive.
Qed.

Lemma int_digits_all s : forall b,
  Forall (fun c => Json.is_digit c = true) s -> s <> [] \/ b = true ->
  int_digits b s = Some s.
Proof.
  induction s as [|c s IH]; intros b H Hb.
  - destruct Hb as [Hb| ->]; [congruence | reflexivity].
  - inversion H as [|? ? Hc Hs]; subst. cbn [int_digits]. rewrite Hc.
    rewrite (IH true Hs) by now right. reflexivity.
Qed.

Lemma digit_not_sign c :
  Json.is_digit c = true -> (c =? ord "-")%N = false /\ (c =? ord "+")%N = false.
Proof.
  unfold Json.is_digit. intros H. apply andb_true_iff in H as [H1 H2].
  apply N.leb_le in H1, H2.
  split; apply N.eqb_neq; cbn; lia.
Qed.

Lemma py_int_show_N rt n :
  rt_int_max_str_digits rt = 0 \/ length (show_N n) <= rt_int_max_str_digits rt ->
  py_int rt (Some (show_N n)) = Ok (Z.of_N n).
Proof.
  intros Hlimit. unfold py_int.
  pose proof (uint_chars_digits (N.to_uint n)) as Hd.
  pose proof (show_N_nonempty n) as Hne.
  fold (show_N n) in Hd.
  rewrite (strip_digits _ Hd).
  destruct (show_N n) as [|c r] eqn:E; [congruence|].
  inversion Hd as [|? ? Hc Hr]; subst.
  destruct (digit_not_sign c Hc) as [-> ->].
  rewrite (int_digits_all (c :: r) false Hd) by (left; discriminate).
  assert (negb (Nat.eqb (rt_int_max_str_digits rt) 0)
          && (rt_int_max_str_digits rt <? length (c :: r)) = false) as ->.
  { destruct Hlimit as [->|Hl]; [reflexivity|].
    apply andb_false_iff. right. apply Nat.ltb_ge. exact Hl. }
  cbn [negb]. rewrite <- E. now rewrite digits_value_show_N.
Qed.

Lemma lstrip_head c s : is_space c = false -> lstrip (c :: s) = c :: s.
Proof. intros H. cbn [lstrip]. now rewrite H. Qed.

Lemma strip_signed s :
  Forall (fun c => Json.is_digit c = true) s -> s <> [] ->
  strip (ord "-" :: s) = ord "-" :: s.
Proof.
  intros Hd Hne. unfold strip. rewrite lstrip_head by reflexivity.
  cbn [rev].
  destruct (rev s) as [|c r] eqn:E.
  { apply (f_equal (@rev _)) in E. rewrite rev_involutive in E.
    now destruct Hne. }
  assert (Json.is_digit c = true) as Hc.
  { apply Forall_rev in Hd. rewrite E in Hd. now inversion Hd. }
  cbn [app]. rewrite lstrip_head by (now apply digit_not_space).
  change (c :: r ++ [ord "-"]) with ((c :: r) ++ [ord "-"]).
  rewrite <- E, rev_app_distr, rev_involutive. reflexivity.
Qed.

(** [int(str(z)) == z]: the text [str] gives for an integer converts back
    to it, as long as it has no more digits than the limit on integer
    strings allows. *)
Theorem int_of_str_round_trip rt z :
  rt_int_max_str_digits rt = 0
  \/ length (show_N (Z.abs_N z)) <= rt_int_max_str_digits rt ->
  py_int rt (Some (show_Z z)) = Ok z.
Proof.
  intros Hlimit. destruct z as [|p|p].
  - exact (py_int_show_N rt 0 Hlimit).
  - exact (py_int_show_N rt (N.pos p) Hlimit).
  - cbn [show_Z Z.abs_N Z.abs Z.to_N] in *. unfold py_int.
    pose proof (uint_chars_digits (N.to_uint (N.pos p))) as Hd.
    pose proof (show_N_nonempty (N.pos p)) as Hne.
    fold (show_N (N.pos p)) in Hd.
    rewrite (strip_signed _ Hd Hne).
    change (ord "-" =? ord "-")%N with true. cbv iota.
    rewrite (int_digits_all _ false Hd) by (now left).
    assert (negb (Nat.eqb (rt_int_max_str_digits rt) 0)
            && (rt_int_max_str_digits rt <? length (show_N (N.pos p))) = false)
      as ->.
    { destruct Hlimit as [->|Hl]; [reflexivity|].
      apply andb_false_iff. right. apply Nat.ltb_ge. exact Hl. }
    cbn [negb]. now rewrite digits_value_show_N.
Qed.

Lemma int_of_str_round_trip_witness :
  py_int cpython_utc (Some (show_Z (-1700000000000))) = Ok (-1700000000000)%Z.
Proof.
  apply (int_of_str_round_trip cpython_utc (-1700000000000)).
  right. vm_compute. lia.
Defined.

(** A POST to [/light-control] whose [Content-Length] is the length of
    what the client sends is read in full and answered, with 200 or 400:
    the request is never dropped. *)
Theorem declared_length_is_read rt date req console :
  command req = lit "POST" ->
  path req = lit "/light-control" ->
  headers_get (headers req) (lit "Content-Length")
  = Some (show_nat (length (rfile req))) ->
  rt_int_max_str_digits rt = 0
  \/ length (show_nat (length (rfile req))) <= rt_int_max_str_digits rt ->
  (Z.of_nat (length (rfile req)) <= 2 ^ 63 - 1)%Z ->
  rt_can_allocate rt (Z.of_nat (length (rfile req))) = true ->
  request_body rt req = Ok (rfile req)
  /\ exists r,
       fst (serve rt date req console) = Responded r
       /\ (status r = 200%Z \/ status r = 400%Z).
Proof.
  intros Hcmd Hpath Hlen Hlimit Hmax Halloc.
  assert (request_body rt req = Ok (rfile req)) as Hbody.
  { unfold request_body. rewrite Hlen. unfold show_nat in *.
    rewrite (py_int_show_N rt _ Hlimit). cbn [Exc.bind]. unfold rfile_read.
    rewrite nat_N_Z.
    destruct ((Z.of_nat (length (rfile req)) <? - 2 ^ 63)
              || (2 ^ 63 - 1 <? Z.of_nat (length (rfile req))))%Z eqn:E1.
    { apply orb_true_iff in E1 as [E|E]; apply Z.ltb_lt in E; lia. }
    destruct (Z.of_nat (length (rfile req)) <? -1)%Z eqn:E2.
    { apply Z.ltb_lt in E2. lia. }
    destruct (Z.of_nat (length (rfile req)) =? -1)%Z eqn:E3.
    { apply Z.eqb_eq in E3. lia. }
    rewrite Halloc, Nat2Z.id, firstn_all. reflexivity. }
  split; [exact Hbody|].
  rewrite (serve_post rt date req (rfile req) console Hcmd Hpath Hbody).
  eexists. split; [reflexivity|]. unfold post_response.
  destruct (event_text rt (rfile req)); [left | right]; reflexivity.
Qed.

Lemma declared_length_is_read_witness :
  request_body cpython_utc (post (json_bytes "{'action':'go'}"))
  = Ok (rfile (post (json_bytes "{'action':'go'}")))
  /\ exists r,
       fst (serve cpython_utc some_date (post (json_bytes "{'action':'go'}")) [])
       = Responded r
       /\ (status r = 200%Z \/ status r = 400%Z).
Proof.
  apply (declared_length_is_read cpython_utc some_date
           (post (json_bytes "{'action':'go'}")) []);
    try reflexivity.
  - right. vm_compute. lia.
  - vm_compute. discriminate.
Defined.

(** *** What a client reads back *)

Lemma small_json_text s : small s -> json_text s.
Proof.
  induction 1 as [|c s Hc _ IH]; [apply RoundTrip.json_text_nil|].
  apply RoundTrip.json_text_cons; [lia | exact IH |].
  rewrite RoundTrip.not_high_below by lia. discriminate.
Qed.

(** The body of every 400 response is a JSON document: whatever the text
    of the exception holds (quotes, backslashes, escapes of code points),
    [json.loads] on the decoded body gives back an object with [status]
    ["error"] and, under [message], exactly that text. *)
Theorem error_body_parses rt date req console post_data e :
  command req = lit "POST" ->
  path req = lit "/light-control" ->
  request_body rt req = Ok post_data ->
  event_text rt post_data = Raise e ->
  rt_parse_depth rt <> 0 ->
  exists r,
    fst (serve rt date req console) = Responded r
    /\ status r = 400%Z
    /\ parse_body rt (body r)
       = Ok (PyDict [(lit "status", PyStr (lit "error"));
                     (lit "message", PyStr (exn_str e))]).
Proof.
  intros Hcmd Hpath Hbody Hev Hdepth.
  rewrite (serve_post rt date req post_data console Hcmd Hpath Hbody).
  unfold post_response. rewrite Hev.
  eexists. split; [reflexivity|]. split; [reflexivity|].
  unfold error_response, json_response. cbn [body].
  pose proof (small_event_text rt post_data) as Hs. rewrite Hev in Hs.
  destruct Hs as [Hs _].
  rewrite RoundTrip.parse_body_dumps_two;
    [reflexivity | exact Hdepth | | | | now apply small_json_text];
    apply small_json_text, small_lit.
Qed.

Lemma error_body_parses_witness :
  exists r,
    fst (serve cpython_utc some_date (post (json_bytes "{'timestamp': 'a\'b'}")) [])
    = Responded r
    /\ status r = 400%Z
    /\ parse_body cpython_utc (body r)
       = Ok (PyDict
               [(lit "status", PyStr (lit "error"));
                (lit "message",
                 PyStr (exn_str
                          (Exn TypeError
                             (lit "unsupported operand type(s) for /: 'str' and 'int'"))))]).
Proof.
  apply (error_body_parses cpython_utc some_date
           (post (json_bytes "{'timestamp': 'a\'b'}")) []
           (json_bytes "{'timestamp': 'a\'b'}")
           (Exn TypeError
              (lit "unsupported operand type(s) for /: 'str' and 'int'")));
    try (vm_compute; reflexivity).
  discriminate.
Defined.

(** When a body names [action] twice, the later value is the one the
    handler echoes: [json.loads] keeps the last value of a repeated key.
    The body here is the text [{"action": a1, "action": a2}] with both
    strings escaped as [json.dumps] escapes them. *)
Theorem repeated_key_last_wins rt date req console a1 a2 t :
  command req = lit "POST" ->
  path req = lit "/light-control" ->
  request_body rt req
  = Ok (Utf8.encode_ascii (dumps_dict [(lit "action", a1); (lit "action", a2)])) ->
  rt_parse_depth rt <> 0 ->
  json_text a1 -> json_text a2 ->
  fromtimestamp rt (S754_zero false) = Ok t ->
  console_takes a2 ->
  serve rt date req console =
  (Responded (success_response rt date a2),
   console ++ [time_line t; newline;
               lit "  Controller ID: Unknown"; newline;
               lit "  Action: " ++ a2; newline]).
Proof.
  intros Hcmd Hpath Hbody Hdepth H1 H2 Ht Hprint.
  rewrite (serve_post_exact rt date req _ console Hcmd Hpath Hbody).
  set (pd := Utf8.encode_ascii _) in *.
  assert (parse_body rt pd = Ok (PyDict [(lit "action", PyStr a2)])) as Hparse.
  { unfold pd. rewrite RoundTrip.parse_body_dumps_two; auto;
      apply small_json_text, small_lit. }
  assert (event_time rt (PyDict [(lit "action", PyStr a2)]) = Ok t) as Het.
  { exact Ht. }
  unfold post_response, post_trace, event_trace.
  rewrite (event_text_dict rt pd _ Hparse), Hparse, Het.
  unfold field_text, data_get. cbn [getattr_get Exc.bind].
  change (dict_get [(lit "action", PyStr a2)] (lit "controller_id")
            (PyStr (lit "Unknown"))) with (PyStr (lit "Unknown")).
  change (dict_get [(lit "action", PyStr a2)] (lit "action")
            (PyStr (lit "Unknown"))) with (PyStr a2).
  change (dict_get [(lit "action", PyStr a2)] (lit "action")
            (PyStr (lit "unknown"))) with (PyStr a2).
  cbn [py_str Exc.bind].
  change (encode_check (lit "  Controller ID: " ++ lit "Unknown")) with (Ok tt).
  unfold controller_line, action_line.
  change (encode_check (lit "  Controller ID: " ++ lit "Unknown")) with (Ok tt).
  cbn [Exc.bind].
  rewrite encode_check_label by exact Hprint.
  reflexivity.
Qed.

Lemma repeated_key_last_wins_witness :
  serve cpython_utc some_date
    (post (json_bytes "{'action': 'left', 'action': 'right'}")) []
  = (Responded (success_response cpython_utc some_date (lit "right")),
     [] ++ [time_line {| dt_year := 1970; dt_month := 1; dt_day := 1;
                         dt_hour := 0; dt_minute := 0; dt_second := 0;
                         dt_microsecond := 0 |}; newline;
            lit "  Controller ID: Unknown"; newline;
            lit "  Action: " ++ lit "right"; newline]).
Proof.
  apply (repeated_key_last_wins cpython_utc some_date
           (post (json_bytes "{'action': 'left', 'action': 'right'}")) []
           (lit "left") (lit "right")
           {| dt_year := 1970; dt_month := 1; dt_day := 1;
              dt_hour := 0; dt_minute := 0; dt_second := 0;
              dt_microsecond := 0 |}).
  - reflexivity.
  - reflexivity.
  - vm_compute. reflexivity.
  - discriminate.
  - apply small_json_text, small_lit.
  - apply small_json_text, small_lit.
  - vm_compute. reflexivity.
  - reflexivity.
Defined.

(** *** The runtime's own round trips *)

(** [bytes.decode('utf-8')] yields Unicode scalar values only: never a
    surrogate, never a value beyond U+10FFFF. *)
Theorem decoded_text_is_scalar post_data text :
  Utf8.decode post_data = Ok text ->
  Forall (fun c => (c < 1114112)%N /\ is_surrogate c = false) text.
Proof. exact (RoundTrip.decode_scalar post_data text). Qed.

Lemma decoded_text_is_scalar_witness :
  Forall (fun c => (c < 1114112)%N /\ is_surrogate c = false)
    [233%N; 8364%N; 128512%N].
Proof.
  apply (decoded_text_is_scalar
           [xc3; xa9; xe2; x82; xac; xf0; x9f; x98; x80]).
  vm_compute. reflexivity.
Defined.

Lemma str_eqb_sym a b : str_eqb a b = str_eqb b a.
Proof.
  revert b; induction a as [|x a IH]; intros [|y b]; simpl; try reflexivity.
  now rewrite N.eqb_sym, IH.
Qed.

Lemma str_eqb_trans_false a b c :
  str_eqb a b = true -> str_eqb a c = str_eqb b c.
Proof. intros H. apply str_eqb_eq in H. now subst. Qed.

(** Assignment and lookup in a [dict]: after [d[k] = v], looking up [k]
    gives [v] and every other key gives what it gave before. *)
Theorem dict_set_lookup d k v k' :
  dict_lookup (dict_set d k v) k'
  = if str_eqb k k' then Some v else dict_lookup d k'.
Proof.
  induction d as [|[k0 v0] d IH]; cbn [dict_set dict_lookup].
  - reflexivity.
  - destruct (str_eqb k0 k) eqn:E; cbn [dict_lookup].
    + rewrite (str_eqb_trans_false k0 k k' E).
      now destruct (str_eqb k k').
    + rewrite IH. destruct (str_eqb k0 k') eqn:E'; [|reflexivity].
      destruct (str_eqb k k') eqn:E''; [|reflexivity].
      apply str_eqb_eq in E', E''. subst.
      rewrite str_eqb_refl in E. discriminate.
Qed.

(** [json.loads(json.dumps(obj).encode().decode('utf-8')) == obj] for an
    object of two string members, the shape of both responses of the
    handler. *)
Theorem json_object_round_trip rt k1 v1 k2 v2 :
  rt_parse_depth rt <> 0 ->
  json_text k1 -> json_text v1 -> json_text k2 -> json_text v2 ->
  k1 <> k2 ->
  parse_body rt (Utf8.encode_ascii (dumps_dict [(k1, v1); (k2, v2)]))
  = Ok (PyDict [(k1, PyStr v1); (k2, PyStr v2)]).
Proof.
  intros Hd H1 H2 H3 H4 Hne.
  rewrite RoundTrip.parse_body_dumps_two by assumption.
  cbn [dict_set]. now rewrite (str_eqb_neq _ _ Hne).
Qed.

Lemma json_object_round_trip_witness :
  parse_body cpython_utc
    (Utf8.encode_ascii
       (dumps_dict [(lit "status", lit "error");
                    (lit "message", [34; 92; 10; 233; 55357; 128512]%N)]))
  = Ok (PyDict [(lit "status", PyStr (lit "error"));
                (lit "message", PyStr [34; 92; 10; 233; 55357; 128512]%N)]).
Proof.
  apply (json_object_round_trip cpython_utc
           (lit "status") (lit "error")
           (lit "message") [34; 92; 10; 233; 55357; 128512]%N).
  - discriminate.
  - apply small_json_text, small_lit.
  - apply small_json_text, small_lit.
  - apply small_json_text, small_lit.
  - split; [repeat constructor | cbn; intuition discriminate].
  - discriminate.
Defined.

(** *** [run_server] *)

Lemma small_newline : small newline.
Proof. repeat constructor. Qed.

Ltac small_line :=
  repeat first [ apply small_app | apply small_lit | apply small_show_Z
               | apply small_newline ].

Lemma print_banner_spec port st :
  Server.print_banner port st =
  (Ok tt,
   {| stdout := stdout st
        ++ [lit "Light Show Test Server"; newline;
            lit "======================"; newline;
            lit "Listening on port " ++ show_Z port; newline;
            lit "Endpoint: http://localhost:" ++ show_Z port ++ lit "/light-control";
            newline;
            newline ++ lit "Press Ctrl+C to stop the server"; newline;
            newline ++ lit "Waiting for controller inputs..."; newline];
      wire := wire st |}).
Proof.
  unfold Server.print_banner.
  repeat (rewrite mbind_print, small_encode_check by small_line).
  unfold print. rewrite small_no_surrogates by small_line.
  cbn [stdout wire]. now rewrite <- !app_assoc.
Qed.

Lemma serve_forever_spec rt requests : forall out,
  Server.serve_forever rt requests out =
  (map (fun dr => fst (serve rt (fst dr) (snd dr) [])) requests,
   out ++ concat (map (fun dr => snd (serve rt (fst dr) (snd dr) [])) requests)).
Proof.
  induction requests as [|[date req] rest IH]; intros out;
    cbn [Server.serve_forever map concat fst snd].
  - now rewrite app_nil_r.
  - rewrite (serve_console rt date req out), IH.
    now rewrite <- app_assoc.
Qed.

(** A run that the operator interrupts.  The console holds the banner,
    with the port in it, then what the requests printed, then the
    farewell, and nothing else; [run_server] returns normally.  Each
    request is answered as it would be alone, whatever came before it,
    also after a request whose handler raised. *)
Theorem interrupted_run rt w port out :
  Server.bind w port = Ok tt ->
  Server.stop w = Server.CtrlC ->
  Server.run_server rt w port out =
  {| Server.answers :=
       map (fun dr => fst (serve rt (fst dr) (snd dr) [])) (Server.traffic w);
     Server.console :=
       out
       ++ [lit "Light Show Test Server"; newline;
           lit "======================"; newline;
           lit "Listening on port " ++ show_Z port; newline;
           lit "Endpoint: http://localhost:" ++ show_Z port ++ lit "/light-control";
           newline;
           newline ++ lit "Press Ctrl+C to stop the server"; newline;
           newline ++ lit "Waiting for controller inputs..."; newline]
       ++ concat (map (fun dr => snd (serve rt (fst dr) (snd dr) []))
                    (Server.traffic w))
       ++ [newline ++ newline ++ lit "Shutting down server..."; newline];
     Server.raised := None |}.
Proof.
  intros Hbind Hstop. unfold Server.run_server.
  rewrite Hbind, print_banner_spec, serve_forever_spec, Hstop.
  cbn [stdout wire]. unfold print.
  rewrite small_no_surrogates by small_line.
  cbn [stdout]. now rewrite <- !app_assoc.
Qed.

Lemma interrupted_run_witness :
  Server.main cpython_utc
    {| Server.bind := fun _ => Ok tt;
       Server.traffic :=
         [(some_date, request_without_length "POST" "/light-control");
          (some_date, post (json_bytes "{'action':'go'}"));
          (some_date, request_with_body "GET" "/" [])];
       Server.stop := Server.CtrlC |}
  = {| Server.answers :=
         map (fun dr => fst (serve cpython_utc (fst dr) (snd dr) []))
           [(some_date, request_without_length "POST" "/light-control");
            (some_date, post (json_bytes "{'action':'go'}"));
            (some_date, request_with_body "GET" "/" [])];
       Server.console :=
         []
         ++ [lit "Light Show Test Server"; newline;
             lit "======================"; newline;
             lit "Listening on port " ++ show_Z 8080; newline;
             lit "Endpoint: http://localhost:" ++ show_Z 8080 ++ lit "/light-control";
             newline;
             newline ++ lit "Press Ctrl+C to stop the server"; newline;
             newline ++ lit "Waiting for controller inputs..."; newline]
         ++ concat (map (fun dr => snd (serve cpython_utc (fst dr) (snd dr) []))
                      [(some_date, request_without_length "POST" "/light-control");
                       (some_date, post (json_bytes "{'action':'go'}"));
                       (some_date, request_with_body "GET" "/" [])])
         ++ [newline ++ newline ++ lit "Shutting down server..."; newline];
       Server.raised := None |}.
Proof.
  apply (interrupted_run cpython_utc
           {| Server.bind := fun _ => Ok tt;
              Server.traffic :=
                [(some_date, request_without_length "POST" "/light-control");
                 (some_date, post (json_bytes "{'action':'go'}"));
                 (some_date, request_with_body "GET" "/" [])];
              Server.stop := Server.CtrlC |}
           8080 []);
    reflexivity.
Defined.

(** *** The headers of the answers *)

(** Only the error page of the base class carries a [Content-Length]: the
    handler's own answers (200, 400, 404) never do, so a client finds the
    end of the body by the end of the connection. *)
Theorem content_length_only_on_error_page rt date req console :
  match fst (serve rt date req console) with
  | Responded r =>
    status r = 501%Z
    \/ headers_get (resp_headers r) (lit "Content-Length") = None
  | _ => True
  end.
Proof.
  destruct (str_eqb (command req) (lit "OPTIONS")) eqn:Eo.
  { apply str_eqb_eq in Eo. rewrite (serve_options rt date req console Eo).
    right. reflexivity. }
  assert (command req <> lit "OPTIONS") as Ho.
  { intros H. rewrite H, str_eqb_refl in Eo. discriminate. }
  destruct (str_eqb (command req) (lit "POST")) eqn:Ep.
  - apply str_eqb_eq in Ep.
    destruct (str_eqb (path req) (lit "/light-control")) eqn:El.
    + apply str_eqb_eq in El.
      destruct (request_body rt req) as [post_data|e] eqn:Eb.
      * rewrite (serve_post rt date req post_data console Ep El Eb).
        right. unfold post_response.
        destruct (event_text rt post_data); reflexivity.
      * rewrite (serve_post_unread rt date req console e Ep El Eb). exact I.
    + assert (path req <> lit "/light-control") as Hl.
      { intros H. rewrite H, str_eqb_refl in El. discriminate. }
      rewrite (serve_post_elsewhere rt date req console Ep Hl).
      right. reflexivity.
  - assert (command req <> lit "POST") as Hp.
    { intros H. rewrite H, str_eqb_refl in Ep. discriminate. }
    rewrite (serve_other_command rt date req console Ho Hp). left. reflexivity.
Qed.

(** *** What the answer depends on *)

Lemma field_text_dict rt d key default :
  field_text rt (PyDict d) key default
  = py_str rt (dict_get d (lit key) (PyStr (lit default))).
Proof. reflexivity. Qed.

(** Of the object in the body only the values under [timestamp],
    [controller_id] and [action] matter: two POSTs to [/light-control]
    whose objects agree on these three keys are answered alike and print
    the same, whatever other members the objects have and in whatever
    order. *)
Theorem only_three_keys_matter rt date req1 req2 console pd1 pd2 d1 d2 :
  command req1 = lit "POST" -> path req1 = lit "/light-control" ->
  command req2 = lit "POST" -> path req2 = lit "/light-control" ->
  request_body rt req1 = Ok pd1 -> parse_body rt pd1 = Ok (PyDict d1) ->
  request_body rt req2 = Ok pd2 -> parse_body rt pd2 = Ok (PyDict d2) ->
  dict_lookup d1 (lit "timestamp") = dict_lookup d2 (lit "timestamp") ->
  dict_lookup d1 (lit "controller_id") = dict_lookup d2 (lit "controller_id") ->
  dict_lookup d1 (lit "action") = dict_lookup d2 (lit "action") ->
  serve rt date req1 console = serve rt date req2 console.
Proof.
  intros C1 P1 C2 P2 B1 J1 B2 J2 Ht Hc Ha.
  rewrite (serve_post_exact rt date req1 pd1 console C1 P1 B1).
  rewrite (serve_post_exact rt date req2 pd2 console C2 P2 B2).
  assert (event_time rt (PyDict d1) = event_time rt (PyDict d2)) as Et.
  { unfold event_time, data_get, dict_get. cbn [getattr_get Exc.bind].
    now rewrite Ht. }
  assert (forall default,
            field_text rt (PyDict d1) "controller_id" default
            = field_text rt (PyDict d2) "controller_id" default) as Ec.
  { intros default. rewrite !field_text_dict. unfold dict_get. now rewrite Hc. }
  assert (forall default,
            field_text rt (PyDict d1) "action" default
            = field_text rt (PyDict d2) "action" default) as Ea.
  { intros default. rewrite !field_text_dict. unfold dict_get. now rewrite Ha. }
  assert (event_text rt pd1 = event_text rt pd2) as Ev.
  { unfold event_text. rewrite J1, J2. cbn [Exc.bind].
    now rewrite Et, Ec, !Ea. }
  unfold post_response, post_trace, event_trace.
  now rewrite Ev, J1, J2, Et, Ec, Ea.
Qed.

Lemma only_three_keys_matter_witness :
  serve cpython_utc some_date
    (post (json_bytes "{'action':'go','controller_id':'pad'}")) []
  = serve cpython_utc some_date
      (post (json_bytes "{'extra':[1,2],'controller_id':'pad','action':'go'}")) [].
Proof.
  apply (only_three_keys_matter cpython_utc some_date
           (post (json_bytes "{'action':'go','controller_id':'pad'}"))
           (post (json_bytes "{'extra':[1,2],'controller_id':'pad','action':'go'}"))
           []
           (json_bytes "{'action':'go','controller_id':'pad'}")
           (json_bytes "{'extra':[1,2],'controller_id':'pad','action':'go'}")
           [(lit "action", PyStr (lit "go"));
            (lit "controller_id", PyStr (lit "pad"))]
           [(lit "extra", PyList [PyInt 1; PyInt 2]);
            (lit "controller_id", PyStr (lit "pad"));
            (lit "action", PyStr (lit "go"))]);
    try reflexivity; vm_compute; reflexivity.
Defined.

(** *** The exceptions that leave the handler *)

(** What escapes [do_POST] comes from lines 21-22 and is one of four
    exceptions: [TypeError] when there is no [Content-Length] header (and
    only then), [ValueError] when its text is no integer, has too many
    digits or is below -1, [OverflowError] when it does not fit a machine
    word, [MemoryError] when that many bytes cannot be allocated. *)
Theorem escaping_exceptions rt date req console :
  match fst (serve rt date req console) with
  | Uncaught e _ =>
    In (exn_class_of e) [TypeError; ValueError; OverflowError; MemoryError]
    /\ (exn_class_of e = TypeError
        <-> headers_get (headers req) (lit "Content-Length") = None)
  | _ => True
  end.
Proof.
  pose proof (uncaught_unread rt date req console) as H.
  destruct (fst (serve rt date req console)) as [r|e sent|sent]; try exact I.
  destruct (H e sent eq_refl) as (_ & _ & _ & Hb).
  unfold request_body, py_int, rfile_read in Hb.
  destruct (headers_get (headers req) (lit "Content-Length")) as [s|].
  - assert (exn_class_of e <> TypeError
            /\ In (exn_class_of e)
                 [TypeError; ValueError; OverflowError; MemoryError]) as [Hn Hin].
    { destruct (match strip s with
                | [] => (false, strip s)
                | c :: r =>
                  if (c =? ord "-")%N then (true, r)
                  else if (c =? ord "+")%N then (false, r) else (false, strip s)
                end) as [neg unsigned].
      destruct (int_digits false unsigned) as [ds|]; cbn [Exc.bind] in Hb.
      - destruct (negb (Nat.eqb (rt_int_max_str_digits rt) 0)
                  && (rt_int_max_str_digits rt <? length ds)); cbn [Exc.bind] in Hb.
        + injection Hb as <-. cbn. split; [discriminate | auto].
        + repeat match type of Hb with
          | (if ?b then _ else _) = _ => destruct b
          end; try discriminate Hb; injection Hb as <-; cbn;
            (split; [discriminate | auto 6]).
      - injection Hb as <-. cbn. split; [discriminate | auto]. }
    split; [exact Hin|]. split; [contradiction | discriminate].
  - cbn [Exc.bind] in Hb. injection Hb as <-. cbn. split; [auto|].
    split; reflexivity.
Qed.

(** *** The bytes of the answers *)

Lemma encode_ascii_bytes s :
  ascii_text s -> Forall (fun b => (Utf8.bv b < 128)%N) (Utf8.encode_ascii s).
Proof.
  induction 1 as [|c s Hc _ IH]; cbn [Utf8.encode_ascii map]; constructor;
    [|exact IH].
  unfold Utf8.bv, Utf8.byte_of_cp.
  destruct (Byte.of_N c) as [b|] eqn:E.
  - apply Byte.to_of_N in E. now rewrite E.
  - apply Byte.of_N_None_iff in E. lia.
Qed.

(** The handler's own answers are ASCII throughout: [json.dumps] escapes
    everything else, so whatever the request holds, no byte above 127
    reaches the body of a 200, 400 or 404 response.  (The page of a 501 is
    the base class's.) *)
Theorem answers_are_ascii rt date req console :
  match fst (serve rt date req console) with
  | Responded r =>
    status r = 501%Z \/ Forall (fun b => (Utf8.bv b < 128)%N) (body r)
  | _ => True
  end.
Proof.
  destruct (str_eqb (command req) (lit "OPTIONS")) eqn:Eo.
  { apply str_eqb_eq in Eo. rewrite (serve_options rt date req console Eo).
    right. constructor. }
  assert (command req <> lit "OPTIONS") as Ho.
  { intros H. rewrite H, str_eqb_refl in Eo. discriminate. }
  destruct (str_eqb (command req) (lit "POST")) eqn:Ep.
  - apply str_eqb_eq in Ep.
    destruct (str_eqb (path req) (lit "/light-control")) eqn:El.
    + apply str_eqb_eq in El.
      destruct (request_body rt req) as [post_data|e] eqn:Eb.
      * rewrite (serve_post rt date req post_data console Ep El Eb).
        right. unfold post_response.
        destruct (event_text rt post_data);
          apply encode_ascii_bytes, RoundTrip.ascii_dumps_two.
      * rewrite (serve_post_unread rt date req console e Ep El Eb). exact I.
    + assert (path req <> lit "/light-control") as Hl.
      { intros H. rewrite H, str_eqb_refl in El. discriminate. }
      rewrite (serve_post_elsewhere rt date req console Ep Hl).
      right. constructor.
  - assert (command req <> lit "POST") as Hp.
    { intros H. rewrite H, str_eqb_refl in Ep. discriminate. }
    rewrite (serve_other_command rt date req console Ho Hp). left. reflexivity.
Qed.

(** *** Bodies [json.loads] refuses at once *)

(** Whether the bytes decode does not depend on where they stand; the
    position only shows in the text of an error. *)
Lemma decode_from_shift bs : forall p q s,
  Utf8.decode_from p bs = Ok s -> Utf8.decode_from q bs = Ok s.
Proof.
  assert (forall n bs, length bs < n -> forall p q s,
            Utf8.decode_from p bs = Ok s -> Utf8.decode_from q bs = Ok s) as H.
  { induction n as [|n IH]; intros l Hl p q s; [lia|].
    destruct l as [|b0 r0]; cbn [Utf8.decode_from]; [auto|].
    assert (forall (c : codepoint) r p' q', length r < n ->
              Exc.bind (Utf8.decode_from p' r) (fun s' => Ok (c :: s')) = Ok s ->
              Exc.bind (Utf8.decode_from q' r) (fun s' => Ok (c :: s')) = Ok s)
      as Hstep.
    { intros c r p' q' Hr Hb.
      destruct (Utf8.decode_from p' r) as [s'|e] eqn:E; [|discriminate].
      now rewrite (IH r Hr p' q' s' E). }
    destruct (Utf8.bv b0 <? 128)%N.
    { apply Hstep. simpl in Hl; lia. }
    destruct (Utf8.bv b0 <? 194)%N; [discriminate|].
    destruct (Utf8.bv b0 <? 224)%N.
    { destruct r0 as [|b1 r1]; [discriminate|].
      destruct (negb (Utf8.is_continuation b1)); [discriminate|].
      apply Hstep. simpl in Hl; lia. }
    destruct (Utf8.bv b0 <? 240)%N.
    { destruct r0 as [|b1 [|b2 r2]]; try discriminate.
      - destruct (Utf8.bad_second3 b0 b1); discriminate.
      - destruct (Utf8.bad_second3 b0 b1); [discriminate|].
        destruct (negb (Utf8.is_continuation b2)); [discriminate|].
        apply Hstep. simpl in Hl; lia. }
    destruct (Utf8.bv b0 <? 245)%N; [|discriminate].
    destruct r0 as [|b1 [|b2 [|b3 r3]]]; try discriminate.
    - destruct (Utf8.bad_second4 b0 b1); discriminate.
    - destruct (Utf8.bad_second4 b0 b1); [discriminate|].
      destruct (negb (Utf8.is_continuation b2)); discriminate.
    - destruct (Utf8.bad_second4 b0 b1); [discriminate|].
      destruct (negb (Utf8.is_continuation b2)); [discriminate|].
      destruct (negb (Utf8.is_continuation b3)); [discriminate|].
      apply Hstep. simpl in Hl; lia. }
  intros p q s. apply (H (S (length bs))). lia.
Qed.

(** A body that starts with the UTF-8 byte order mark is answered 400,
    however well formed the JSON after it: [json.loads] refuses the mark. *)
Theorem byte_order_mark_rejected rt date req console rest text :
  command req = lit "POST" ->
  path req = lit "/light-control" ->
  request_body rt req = Ok (xef :: xbb :: xbf :: rest) ->
  Utf8.decode rest = Ok text ->
  serve rt date req console =
  (Responded
     (error_response rt date
        (Exn JSONDecodeError
           (lit "Unexpected UTF-8 BOM (decode using utf-8-sig): line 1 column 1 (char 0)"))),
   console
   ++ [lit "Error processing request: Unexpected UTF-8 BOM (decode using utf-8-sig): line 1 column 1 (char 0)";
       newline]).
Proof.
  intros Hcmd Hpath Hbody Hrest.
  rewrite (serve_post_exact rt date req _ console Hcmd Hpath Hbody).
  assert (parse_body rt (xef :: xbb :: xbf :: rest)
          = Raise (Exn JSONDecodeError
                     (lit "Unexpected UTF-8 BOM (decode using utf-8-sig): line 1 column 1 (char 0)")))
    as Hparse.
  { unfold parse_body, Utf8.decode. cbn [Utf8.decode_from].
    change (Utf8.bv xef <? 128)%N with false.
    change (Utf8.bv xef <? 194)%N with false.
    change (Utf8.bv xef <? 224)%N with false.
    change (Utf8.bv xef <? 240)%N with true.
    change (Utf8.bad_second3 xef xbb) with false.
    change (negb (Utf8.is_continuation xbf)) with false. cbv iota.
    rewrite (decode_from_shift rest 0 (0 + 3) text Hrest). cbn [Exc.bind].
    change (Utf8.cp3 xef xbb xbf) with 65279%N.
    reflexivity. }
  unfold post_response, post_trace, event_trace, event_text.
  rewrite Hparse. reflexivity.
Qed.

Lemma byte_order_mark_rejected_witness :
  serve cpython_utc some_date
    (post (xef :: xbb :: xbf :: json_bytes "{'action':'go'}")) []
  = (Responded
       (error_response cpython_utc some_date
          (Exn JSONDecodeError
             (lit "Unexpected UTF-8 BOM (decode using utf-8-sig): line 1 column 1 (char 0)"))),
     []
     ++ [lit "Error processing request: Unexpected UTF-8 BOM (decode using utf-8-sig): line 1 column 1 (char 0)";
         newline]).
Proof.
  apply (byte_order_mark_rejected cpython_utc some_date
           (post (xef :: xbb :: xbf :: json_bytes "{'action':'go'}")) []
           (json_bytes "{'action':'go'}")
           (map Utf8.bv (json_bytes "{'action':'go'}"))).
  - reflexivity.
  - reflexivity.
  - vm_compute. reflexivity.
  - vm_compute. reflexivity.
Defined.

Lemma array_items_S limit doc n depth acc s :
  Json.array_items limit doc (S n) depth acc s
  = Json.array_step doc (Json.scan_once limit doc n depth)
      (Json.array_items limit doc n depth) acc s.
Proof. reflexivity. Qed.

Lemma scan_deep limit doc : forall depth steps m,
  depth < m -> 2 * depth + 1 <= steps ->
  Json.scan_once limit doc steps depth (repeat (ord "[") m)
  = Json.PRaise (Json.recursion_error "array").
Proof.
  induction depth as [|d IH]; intros steps m Hm Hs.
  - destruct steps as [|n]; [lia|]. destruct m as [|m]; [lia|]. reflexivity.
  - destruct steps as [|[|[|n]]]; try lia.
    destruct m as [|[|m]]; try lia.
    rewrite RoundTrip.scan_once_S.
    change (repeat (ord "[") (S (S m)))
      with (ord "[" :: ord "[" :: repeat (ord "[") m).
    unfold Json.scan_step.
    change (ord "[" =? quote)%N with false.
    change (ord "[" =? ord "{")%N with false.
    change (ord "[" =? ord "[")%N with true. cbv iota.
    change (Json.skip_ws (ord "[" :: repeat (ord "[") m))
      with (ord "[" :: repeat (ord "[") m).
    change (ord "[" =? ord "]")%N with false. cbv iota.
    rewrite array_items_S. unfold Json.array_step.
    change (ord "[" :: repeat (ord "[") m) with (repeat (ord "[") (S m)).
    rewrite IH by lia. reflexivity.
Qed.

Lemma decode_brackets n :
  Utf8.decode (repeat x5b n) = Ok (repeat (ord "[") n).
Proof.
  replace (repeat x5b n) with (Utf8.encode_ascii (repeat (ord "[") n)).
  - apply RoundTrip.decode_encode_ascii. apply Forall_forall.
    intros c Hc. apply repeat_spec in Hc. subst. reflexivity.
  - unfold Utf8.encode_ascii. now rewrite map_repeat.
Qed.

(** A body that nests arrays deeper than [json.loads] can follow is
    answered 400 with the text of the [RecursionError]: the nesting of a
    body cannot bring the handler down. *)
Theorem deep_nesting_rejected rt date req console n :
  command req = lit "POST" ->
  path req = lit "/light-control" ->
  request_body rt req = Ok (repeat x5b n) ->
  rt_parse_depth rt < n ->
  serve rt date req console =
  (Responded
     (error_response rt date
        (Exn RecursionError
           (lit "maximum recursion depth exceeded while decoding a JSON array from a unicode string"))),
   console
   ++ [lit "Error processing request: maximum recursion depth exceeded while decoding a JSON array from a unicode string";
       newline]).
Proof.
  intros Hcmd Hpath Hbody Hdeep.
  rewrite (serve_post_exact rt date req _ console Hcmd Hpath Hbody).
  assert (parse_body rt (repeat x5b n)
          = Raise (Json.recursion_error "array")) as Hparse.
  { unfold parse_body. rewrite decode_brackets. cbn [Exc.bind].
    unfold loads, Json.loads_steps. rewrite repeat_length.
    destruct n as [|n]; [lia|]. cbn [repeat].
    change (ord "[" :: repeat (ord "[") n) with (repeat (ord "[") (S n)).
    assert (Json.skip_ws (repeat (ord "[") (S n)) = repeat (ord "[") (S n))
      as -> by reflexivity.
    rewrite scan_deep by lia. reflexivity. }
  unfold post_response, post_trace, event_trace, event_text.
  rewrite Hparse. reflexivity.
Qed.

Lemma deep_nesting_rejected_witness :
  serve cpython_utc some_date
    (post (repeat x5b (S (rt_parse_depth cpython_utc)))) []
  = (Responded
       (error_response cpython_utc some_date
          (Exn RecursionError
             (lit "maximum recursion depth exceeded while decoding a JSON array from a unicode string"))),
     []
     ++ [lit "Error processing request: maximum recursion depth exceeded while decoding a JSON array from a unicode string";
         newline]).
Proof.
  apply (deep_nesting_rejected cpython_utc some_date
           (post (repeat x5b (S (rt_parse_depth cpython_utc)))) []
           (S (rt_parse_depth cpython_utc))).
  - reflexivity.
  - reflexivity.
  - vm_compute. reflexivity.
  - apply Nat.lt_succ_diag_r.
Defined.

(** *** Runs that end badly *)

(** When the server cannot be bound, [run_server] prints nothing and the
    exception leaves it.  When the server loop fails with an exception of
    its own, the banner and what the requests printed are on the console,
    the farewell is not, and the exception leaves [run_server]: only an
    interrupt is caught. *)
Theorem run_without_farewell rt w port out :
  (forall e, Server.bind w port = Raise e ->
     Server.run_server rt w port out =
     {| Server.answers := []; Server.console := out; Server.raised := Some e |})
  /\ (forall e, Server.bind w port = Ok tt -> Server.stop w = Server.Failure e ->
        Server.run_server rt w port out =
        {| Server.answers :=
             map (fun dr => fst (serve rt (fst dr) (snd dr) [])) (Server.traffic w);
           Server.console :=
             out
             ++ [lit "Light Show Test Server"; newline;
                 lit "======================"; newline;
                 lit "Listening on port " ++ show_Z port; newline;
                 lit "Endpoint: http://localhost:" ++ show_Z port
                 ++ lit "/light-control"; newline;
                 newline ++ lit "Press Ctrl+C to stop the server"; newline;
                 newline ++ lit "Waiting for controller inputs..."; newline]
             ++ concat (map (fun dr => snd (serve rt (fst dr) (snd dr) []))
                          (Server.traffic w));
           Server.raised := Some e |}).
Proof.
  split.
  - intros e Hbind. unfold Server.run_server. now rewrite Hbind.
  - intros e Hbind Hstop. unfold Server.run_server.
    rewrite Hbind, print_banner_spec, serve_forever_spec, Hstop.
    cbn [stdout wire]. now rewrite <- !app_assoc.
Qed.

(** *** The [Content-Length] header *)

Lemma ascii_lower_idem c : ascii_lower (ascii_lower c) = ascii_lower c.
Proof.
  unfold ascii_lower.
  destruct ((65 <=? c) && (c <=? 90))%N eqn:E.
  - apply andb_true_iff in E as [H1 H2]. apply N.leb_le in H1, H2.
    assert ((65 <=? c + 32) && (c + 32 <=? 90) = false)%N as ->; [|reflexivity].
    apply andb_false_iff. right. apply N.leb_gt. lia.
  - now rewrite E.
Qed.

Lemma lower_idem s : map ascii_lower (map ascii_lower s) = map ascii_lower s.
Proof.
  rewrite map_map. apply map_ext. apply ascii_lower_idem.
Qed.

Lemma headers_get_lower hs name :
  headers_get (map (fun kv => (map ascii_lower (fst kv), snd kv)) hs) name
  = headers_get hs name.
Proof.
  induction hs as [|[k v] hs IH]; cbn [map headers_get fst snd]; [reflexivity|].
  now rewrite lower_idem, IH.
Qed.

(** Header names are matched whatever their case: two requests whose
    headers differ only in the case of the names are treated alike, so
    [content-length] serves as well as [Content-Length]. *)
Theorem header_case_ignored rt date req1 req2 console :
  command req1 = command req2 ->
  path req1 = path req2 ->
  rfile req1 = rfile req2 ->
  map (fun kv => (map ascii_lower (fst kv), snd kv)) (headers req1)
  = map (fun kv => (map ascii_lower (fst kv), snd kv)) (headers req2) ->
  serve rt date req1 console = serve rt date req2 console.
Proof.
  intros Hc Hp Hr Hh.
  assert (headers_get (headers req1) (lit "Content-Length")
          = headers_get (headers req2) (lit "Content-Length")) as Hg.
  { rewrite <- (headers_get_lower (headers req1)),
            <- (headers_get_lower (headers req2)).
    now rewrite Hh. }
  unfold serve, handle_one_request. rewrite <- Hc.
  destruct (str_eqb (command req1) (lit "OPTIONS")); [reflexivity|].
  destruct (str_eqb (command req1) (lit "POST")); [|reflexivity].
  unfold do_POST. rewrite <- Hp, <- Hg.
  destruct (str_eqb (path req1) (lit "/light-control")); [|reflexivity].
  rewrite !mbind_lift.
  destruct (py_int rt _) as [n|e]; [|reflexivity].
  rewrite !mbind_lift. unfold rfile_read. now rewrite Hr.
Qed.

Lemma header_case_ignored_witness :
  serve cpython_utc some_date
    {| command := lit "POST"; path := lit "/light-control";
       headers := [(lit "content-length", lit "2")];
       rfile := json_bytes "{}" |} []
  = serve cpython_utc some_date
      {| command := lit "POST"; path := lit "/light-control";
         headers := [(lit "CONTENT-LENGTH", lit "2")];
         rfile := json_bytes "{}" |} [].
Proof.
  apply (header_case_ignored cpython_utc some_date
           {| command := lit "POST"; path := lit "/light-control";
              headers := [(lit "content-length", lit "2")];
              rfile := json_bytes "{}" |}
           {| command := lit "POST"; path := lit "/light-control";
              headers := [(lit "CONTENT-LENGTH", lit "2")];
              rfile := json_bytes "{}" |}
           []);
    reflexivity.
Defined.

(** A [Content-Length] of -1 is taken as it stands: [rfile.read(-1)] reads
    all the client sends, until it stops sending, and the request is
    answered like any other. *)
Theorem minus_one_reads_everything rt date req console :
  command req = lit "POST" ->
  path req = lit "/light-control" ->
  headers_get (headers req) (lit "Content-Length") = Some (lit "-1") ->
  request_body rt req = Ok (rfile req)
  /\ fst (serve rt date req console)
     = Responded (post_response rt date (rfile req)).
Proof.
  intros Hcmd Hpath Hlen.
  assert (request_body rt req = Ok (rfile req)) as Hbody.
  { unfold request_body. rewrite Hlen.
    assert (py_int rt (Some (lit "-1")) = Ok (-1)%Z) as ->; [|reflexivity].
    unfold py_int.
    change (strip (lit "-1")) with (lit "-1").
    cbn [lit]. change (ord "-" =? ord "-")%N with true. cbv iota.
    change (int_digits false [ord "1"]) with (Some [ord "1"]). cbv iota.
    cbn [length].
    destruct (rt_int_max_str_digits rt) as [|[|L]]; reflexivity. }
  split; [exact Hbody|].
  now apply serve_post.
Qed.

Lemma minus_one_reads_everything_witness :
  request_body cpython_utc
    {| command := lit "POST"; path := lit "/light-control";
       headers := [(lit "Content-Length", lit "-1")];
       rfile := json_bytes "{'action':'go'}" |}
  = Ok (json_bytes "{'action':'go'}")
  /\ fst (serve cpython_utc some_date
            {| command := lit "POST"; path := lit "/light-control";
               headers := [(lit "Content-Length", lit "-1")];
               rfile := json_bytes "{'action':'go'}" |} [])
     = Responded (post_response cpython_utc some_date (json_bytes "{'action':'go'}")).
Proof.
  apply (minus_one_reads_everything cpython_utc some_date
           {| command := lit "POST"; path := lit "/light-control";
              headers := [(lit "Content-Length", lit "-1")];
              rfile := json_bytes "{'action':'go'}" |} []);
    reflexivity.
Defined.
